(** * Voice dictation pipeline: queue, transcript post-processing, key injection

    A shallow embedding of the C sources of the dictation program
    (the uinput/xkbcommon build, [dictate.c] with [typer.c], and the X11/XTest
    build of [dictate.c]) together with the properties stated for them.

    Conventions of the embedding.
    - A C string is the list of its bytes before the terminating NUL; a byte
      ([unsigned char]) is an [ascii], whose numeric value is [uchar].
    - The program never calls [setlocale], so the <ctype.h> predicates are the
      ones of the "C" locale.
    - Lengths and indices are natural numbers: transcripts are far shorter than
      [INT_MAX] bytes, so the [(int)strlen(..)] casts are exact.
    - [malloc] is assumed to succeed.
    - xkb key codes are far below 2^31 and modifier indices are below 32, so
      [(int)kc] is exact and [1u << idx] is defined. *)

From stdpp Require Import base decidable list numbers strings.
From Stdlib Require Import ZArith NArith Ascii Lia.

Local Open Scope nat_scope.

(** ** <ctype.h> in the "C" locale *)

Definition uchar (c : ascii) : nat := nat_of_ascii c.

Definition isspace (c : ascii) : bool :=
  let n := uchar c in (n =? 32) || ((9 <=? n) && (n <=? 13)).

Definition isdigit (c : ascii) : bool :=
  let n := uchar c in (48 <=? n) && (n <=? 57).

Definition isupper (c : ascii) : bool :=
  let n := uchar c in (65 <=? n) && (n <=? 90).

Definition islower (c : ascii) : bool :=
  let n := uchar c in (97 <=? n) && (n <=? 122).

Definition isalnum (c : ascii) : bool := isdigit c || isupper c || islower c.

Definition tolower (c : ascii) : ascii :=
  if isupper c then ascii_of_nat (uchar c + 32) else c.

(** A C string literal. *)
Definition cstr (s : String.string) : list ascii := String.list_ascii_of_string s.

(** ** Loops shared by the filter and the worker *)

(** [while ( *text && isspace((unsigned char)*text)) text++;] *)
Fixpoint skip_leading_space (text : list ascii) : list ascii :=
  match text with
  | [] => []
  | c :: rest => if isspace c then skip_leading_space rest else text
  end.

(** [while (len > 0 && stop(text[len - 1])) len--;]
    The read at [len - 1] is always inside the string, since the loop starts
    from [strlen(text)]. *)
Fixpoint trim_trailing (stop : ascii -> bool) (text : list ascii) (len : nat) : nat :=
  match len with
  | 0 => 0
  | S len' =>
      match text !! len' with
      | Some c => if stop c then trim_trailing stop text len' else len
      | None => len
      end
  end.

(** ** Garbage filter *)

(** The locals of the scanning loop of [is_garbage]. *)
Record garbage_scan := GarbageScan {
  has_alnum : bool;
  seen : list bool;      (* char seen[256] *)
  unique : nat
}.

Definition garbage_scan_init : garbage_scan :=
  {| has_alnum := false; seen := replicate 256 false; unique := 0 |}.

(** One iteration of the loop body on the byte [c = text[i]]; [alnum_test]
    is the condition that sets [has_alnum], which differs between the two
    builds. *)
Definition garbage_scan_step (alnum_test : ascii -> bool)
    (st : garbage_scan) (c : ascii) : garbage_scan :=
  let h := if alnum_test c then true else has_alnum st in
  match seen st !! uchar c with
  | Some true => {| has_alnum := h; seen := seen st; unique := unique st |}
  | _ => {| has_alnum := h; seen := <[uchar c := true]> (seen st);
            unique := S (unique st) |}
  end.

(** The body of [is_garbage]; [None] is the NULL pointer. *)
Definition is_garbage_with (alnum_test : ascii -> bool)
    (text : option (list ascii)) : bool :=
  match text with
  | None => true
  | Some text =>
      let text := skip_leading_space text in
      match text with
      | [] => true
      | _ :: _ =>
          let len := trim_trailing isspace text (length text) in
          if len =? 0 then true
          else
            let st := foldl (garbage_scan_step alnum_test) garbage_scan_init
                            (take len text) in
            if (unique st <=? 2) && negb (has_alnum st) then true
            else if (len <? 3) && negb (has_alnum st) then true
            else false
      end
  end.

(** The uinput build: [if (isalnum(c) || c >= 0xC0) has_alnum = 1;] *)
Module Uinput.
Definition alnum_test (c : ascii) : bool := isalnum c || (192 <=? uchar c).
Definition is_garbage : option (list ascii) -> bool := is_garbage_with alnum_test.
End Uinput.

(** The X11 build: [if (isalnum(c)) has_alnum = 1;] *)
Module X11.
Definition alnum_test (c : ascii) : bool := isalnum c.
Definition is_garbage : option (list ascii) -> bool := is_garbage_with alnum_test.
End X11.

(** ** Declarative vocabulary for the statements *)

Fixpoint drop_while {A} (p : A -> bool) (l : list A) : list A :=
  match l with
  | [] => []
  | x :: l' => if p x then drop_while p l' else l
  end.

(** The text without the leading and the trailing characters satisfying [p]. *)
Definition drop_end_while {A} (p : A -> bool) (l : list A) : list A :=
  rev (drop_while p (rev l)).

Definition trimmed (text : list ascii) : list ascii :=
  drop_end_while isspace (drop_while isspace text).

(** Number of distinct bytes of a text. *)
Definition distinct (l : list ascii) : nat := length (remove_dups l).

Definition no_alnum (alnum_test : ascii -> bool) (l : list ascii) : Prop :=
  forall c, c ∈ l -> alnum_test c = false.

(** The rejection rule of the filter, over an already trimmed text. *)
Definition rejects (alnum_test : ascii -> bool) (t : list ascii) : Prop :=
  t = [] \/
  (distinct t <= 2 /\ no_alnum alnum_test t) \/
  (length t < 3 /\ no_alnum alnum_test t).

(** What the loop has computed after reading the bytes [l]. *)
Definition scan_inv (alnum_test : ascii -> bool) (l : list ascii)
    (st : garbage_scan) : Prop :=
  length (seen st) = 256 /\
  (forall c, seen st !! uchar c = Some (bool_decide (c ∈ l))) /\
  unique st = distinct l /\
  has_alnum st = existsb alnum_test l.

(** Two UTF-8 encoded characters used in examples: U+00A1 (inverted
    exclamation mark, bytes C2 A1) and U+00E9 (e with acute, bytes C3 A9). *)
Definition inverted_exclamation : list ascii := ["194"%char; "161"%char].
Definition e_acute : list ascii := ["195"%char; "169"%char].

(** ** Audio segment queue (identical in both builds) *)

Definition MAX_QUEUE_SIZE : Z := 5.

(** [samples] is the address held by the [float *]; 0 is NULL. *)
Record AudioSegment := Segment { samples : Z; n : Z }.

Global Instance AudioSegment_inhabited : Inhabited AudioSegment :=
  populate (Segment 0 0).

(** The fields of [SegmentQueue] that carry data.  The mutex is held for the
    whole body of [queue_push] and [queue_pop], so each call is one atomic
    transition of this record. *)
Record SegmentQueue := Queue {
  items : list AudioSegment;   (* AudioSegment items[MAX_QUEUE_SIZE] *)
  head : Z;
  tail : Z;
  count : Z
}.

(** [memset(q, 0, sizeof( *q))] *)
Definition queue_init : SegmentQueue :=
  {| items := replicate (Z.to_nat MAX_QUEUE_SIZE) (Segment 0 0);
     head := 0; tail := 0; count := 0 |}.

(** [queue_push]: returns the pointers passed to [free] and the new queue.
    [%] is C's remainder, [Z.rem]. *)
Definition queue_push (q : SegmentQueue) (s : Z) (len : Z)
    : list Z * SegmentQueue :=
  let '(freed, q1) :=
    if (count q =? MAX_QUEUE_SIZE)%Z then
      ([samples (items q !!! Z.to_nat (head q))],
       {| items := items q;
          head := Z.rem (head q + 1) MAX_QUEUE_SIZE;
          tail := tail q;
          count := count q - 1 |})
    else ([], q) in
  (freed,
   {| items := <[Z.to_nat (tail q1) := Segment s len]> (items q1);
      head := head q1;
      tail := Z.rem (tail q1 + 1) MAX_QUEUE_SIZE;
      count := count q1 + 1 |}).

(** What a call of [queue_pop] does with the queue as it finds it:
    it keeps waiting (empty queue, still running), returns 0 (empty queue,
    shutdown requested), or returns 1 with [*out] filled. *)
Inductive pop_outcome :=
  | PopWaits
  | PopReturns0
  | PopReturns1 (out : AudioSegment).

Definition queue_pop (q : SegmentQueue) (running : bool)
    : pop_outcome * SegmentQueue :=
  if (count q =? 0)%Z then
    (if running then PopWaits else PopReturns0, q)
  else
    (PopReturns1 (items q !!! Z.to_nat (head q)),
     {| items := items q;
        head := Z.rem (head q + 1) MAX_QUEUE_SIZE;
        tail := tail q;
        count := count q - 1 |}).

(** Any interleaving of producer and consumer calls is a sequence of
    operations, since each runs under the mutex. *)
Inductive queue_op :=
  | Push (s : Z) (len : Z)
  | Pop (running : bool).

Definition queue_step (q : SegmentQueue) (op : queue_op) : SegmentQueue :=
  match op with
  | Push s len => snd (queue_push q s len)
  | Pop running => snd (queue_pop q running)
  end.

Definition queue_run (ops : list queue_op) : SegmentQueue :=
  foldl queue_step queue_init ops.

(** Pushing a list of segments in order; the freed pointers are logged in
    the order of the calls to [free]. *)
Fixpoint push_all (q : SegmentQueue) (xs : list AudioSegment)
    : list Z * SegmentQueue :=
  match xs with
  | [] => ([], q)
  | x :: xs' =>
      let '(freed, q1) := queue_push q (samples x) (n x) in
      let '(freed', q2) := push_all q1 xs' in
      (freed ++ freed', q2)
  end.

(** [k] successive calls of [queue_pop] after shutdown was requested (so that
    a call on the empty queue returns 0 instead of waiting); the segments
    returned, in order. *)
Fixpoint pop_many (k : nat) (q : SegmentQueue) : list AudioSegment * SegmentQueue :=
  match k with
  | 0 => ([], q)
  | S k' =>
      match queue_pop q false with
      | (PopReturns1 out, q1) =>
          let '(outs, q2) := pop_many k' q1 in (out :: outs, q2)
      | (_, q1) => ([], q1)
      end
  end.

(** The queued segments, oldest first. *)
Definition contents (q : SegmentQueue) : list AudioSegment :=
  (fun i => items q !!! Z.to_nat (Z.rem (head q + Z.of_nat i) MAX_QUEUE_SIZE))
    <$> seq 0 (Z.to_nat (count q)).

(** Representation invariant of the ring buffer. *)
Definition queue_wf (q : SegmentQueue) : Prop :=
  length (items q) = Z.to_nat MAX_QUEUE_SIZE /\
  (0 <= head q < MAX_QUEUE_SIZE)%Z /\
  (0 <= count q <= MAX_QUEUE_SIZE)%Z /\
  tail q = Z.rem (head q + count q) MAX_QUEUE_SIZE.

(** ** Voice commands (uinput build) *)

(** Key codes of <linux/input-event-codes.h> used by the program. *)
Definition KEY_ENTER : Z := 28.
Definition KEY_TAB : Z := 15.
Definition KEY_C : Z := 46.
Definition KEY_LEFTCTRL : Z := 29.
Definition KEY_LEFTSHIFT : Z := 42.
Definition KEY_LEFTALT : Z := 56.
Definition KEY_RIGHTALT : Z := 100.
Definition KEY_LEFTMETA : Z := 125.

Record VoiceCommand := Command {
  phrase : list ascii;   (* lowercase trailing phrase to match *)
  keycode : Z;           (* linux evdev keycode *)
  ctrl : Z;              (* hold Ctrl? *)
  label : list ascii     (* for logging *)
}.

(** The table; the terminating [{ NULL, 0, 0, NULL }] entry is the end of the
    list. *)
Definition g_commands : list VoiceCommand :=
  [ Command (cstr "press enter") KEY_ENTER 0 (cstr "Enter");
    Command (cstr "press tab") KEY_TAB 0 (cstr "Tab");
    Command (cstr "interrupt it") KEY_C 1 (cstr "Ctrl+C");
    Command (cstr "cancel it") KEY_C 1 (cstr "Ctrl+C") ].

(** The comparison loop
    [for (i = 0; i < plen; i++) if (tolower(suffix[i]) != cmd->phrase[i]) ...]
    with [suffix + i = text + pos].  The phrase bytes are ASCII, so comparing
    the [int]s is comparing the bytes. *)
Fixpoint phrase_matches_at (text : list ascii) (pos : nat) (p : list ascii) : bool :=
  match p with
  | [] => true
  | pc :: p' =>
      match text !! pos with
      | Some c =>
          if decide (tolower c = pc) then phrase_matches_at text (S pos) p'
          else false
      | None => false
      end
  end.

(** The three tests one table entry goes through. *)
Definition command_matches (text : list ascii) (len : nat) (cmd : VoiceCommand) : bool :=
  let plen := length (phrase cmd) in
  if len <? plen then false
  else
    let start := len - plen in
    if negb (phrase_matches_at text start (phrase cmd)) then false
    else if (0 <? start) && negb (bool_decide (text !! (start - 1) = Some " "%char))
    then false
    else true.

(** The loop over the table: the first entry passing the tests is returned,
    with [*cmd_start = suffix - text]. *)
Fixpoint match_in_table (cmds : list VoiceCommand) (text : list ascii) (len : nat)
    : option (VoiceCommand * nat) :=
  match cmds with
  | [] => None
  | cmd :: rest =>
      if command_matches text len cmd
      then Some (cmd, len - length (phrase cmd))
      else match_in_table rest text len
  end.

Definition match_trailing_command (text : list ascii) (len : nat)
    : option (VoiceCommand * nat) :=
  match_in_table g_commands text len.

(** ** Transcription worker (uinput build): handling of one result *)

(** The calls the worker makes into the typer. *)
Inductive typer_call :=
  | TyperType (text : list ascii)
  | TyperPress (evdev_keycode : Z) (with_ctrl : Z).

Definition is_sentence_end (c : ascii) : bool :=
  isspace c
  || bool_decide (c = "."%char) || bool_decide (c = ","%char)
  || bool_decide (c = "!"%char) || bool_decide (c = "?"%char).

Definition is_blank (c : ascii) : bool := bool_decide (c = " "%char).

(** The part of the loop body of [transcription_worker] that follows
    [SherpaOnnxGetOfflineStreamResult]: [r] is the result pointer and its
    [text] field, each possibly NULL. *)
Definition transcription_worker_result (r : option (option (list ascii)))
    : list typer_call :=
  match r with
  | Some (Some r_text) =>
      if Uinput.is_garbage (Some r_text) then []
      else
        let text := skip_leading_space r_text in
        let tlen := trim_trailing is_sentence_end text (length text) in
        let found := match_trailing_command text tlen in
        let cmd_start := match found with Some (_, s) => s | None => tlen end in
        let text_len := trim_trailing is_blank text cmd_start in
        (if 0 <? text_len
         then [TyperType (take text_len text ++ [" "%char])]
         else [])
        ++ match found with
           | Some (cmd, _) => [TyperPress (keycode cmd) (ctrl cmd)]
           | None => []
           end
  | _ => []
  end.

(** ** Trailing phrases, with the case folding of the program

    The same statement with the stated case folding is [ends_with_phrase]
    below; the proofs pass through this one. *)

(** [p] is a suffix of [text] up to [tolower], starting at index [start], in
    a trailing whole-word position. *)
Definition trailing_phrase (text p : list ascii) (start : nat) : Prop :=
  start + length p = length text /\
  tolower <$> drop start text = tolower <$> p /\
  (start = 0 \/ text !! (start - 1) = Some " "%char).

(** *** The stated behaviour, in its own words

    The characters named by the specification are listed here; nothing below
    refers to the tests the program makes. *)

(** Space, tab, newline, vertical tab, form feed and carriage return. *)
Definition whitespace : list ascii :=
  [" "; "009"; "010"; "011"; "012"; "013"]%char.

Definition sentence_punctuation : list ascii := ["."; ","; "!"; "?"]%char.

Definition strip_leading (cs l : list ascii) : list ascii :=
  drop_while (fun c => bool_decide (c ∈ cs)) l.

Definition strip_trailing (cs l : list ascii) : list ascii :=
  drop_end_while (fun c => bool_decide (c ∈ cs)) l.

Definition upper_case : list ascii := cstr "ABCDEFGHIJKLMNOPQRSTUVWXYZ".
Definition lower_case : list ascii := cstr "abcdefghijklmnopqrstuvwxyz".

(** The lower-case form of a letter, read off the alphabet; any other byte
    is left as it is. *)
Definition fold_case (c : ascii) : ascii :=
  match list_find (fun u => u = c) upper_case with
  | Some (i, _) => default c (lower_case !! i)
  | None => c
  end.

(** [p] is a suffix of [text] up to the case of letters, it starts at index
    [start], and the character before it, if any, is a space. *)
Definition ends_with_phrase (text p : list ascii) (start : nat) : Prop :=
  start + length p = length text /\
  fold_case <$> drop start text = fold_case <$> p /\
  (start = 0 \/ text !! (start - 1) = Some " "%char).

(** A text to type is passed on with one space appended; an empty one is
    not passed on. *)
Definition typed_with_space (rest : list ascii) : list typer_call :=
  match rest with
  | [] => []
  | _ :: _ => [TyperType (rest ++ [" "%char])]
  end.

(** What the worker is stated to do with a text that passed the filter,
    written with the tests of the program; the proofs pass through it. *)
Definition worker_spec (r_text : list ascii) : list typer_call :=
  let t := drop_end_while is_sentence_end (drop_while isspace r_text) in
  let found := match_trailing_command t (length t) in
  let rest :=
    match found with
    | Some (_, start) => drop_end_while is_blank (take start t)
    | None => t
    end in
  match rest with [] => [] | _ :: _ => [TyperType (rest ++ [" "%char])] end
  ++ match found with
     | Some (cmd, _) => [TyperPress (keycode cmd) (ctrl cmd)]
     | None => []
     end.

(** ** typer.c: the virtual keyboard *)

(** Event types and codes of <linux/input-event-codes.h>. *)
Definition EV_SYN : Z := 0.
Definition EV_KEY : Z := 1.
Definition SYN_REPORT : Z := 0.

(** The fields of [struct input_event] the program sets. *)
Record input_event := InputEvent { ev_type : Z; ev_code : Z; ev_value : Z }.

(** [emit] writes one event to the device; the events written, in order, are
    what the functions below return.  The fields [type] and [code] of
    [struct input_event] are 16 bits wide ([__u16]), so the [int] arguments
    are stored modulo 2^16; [value] is a 32-bit integer like the argument.
    A failed [write] is only logged by the program and is not modelled. *)
Definition emit (type code val : Z) : list input_event :=
  [InputEvent (type mod 65536) (code mod 65536) val].

Definition key_tap (evdev_code : Z) : list input_event :=
  emit EV_KEY evdev_code 1 ++ emit EV_SYN SYN_REPORT 0 ++
  emit EV_KEY evdev_code 0 ++ emit EV_SYN SYN_REPORT 0.

(** [typer_press]; [s_fd] is the file descriptor of the device, negative
    when the device is not open. *)
Definition typer_press (s_fd : Z) (evdev_keycode with_ctrl : Z) : list input_event :=
  if (s_fd <? 0)%Z then []
  else
    (if (with_ctrl =? 0)%Z then []
     else emit EV_KEY KEY_LEFTCTRL 1 ++ emit EV_SYN SYN_REPORT 0)
    ++ key_tap evdev_keycode
    ++ (if (with_ctrl =? 0)%Z then []
        else emit EV_KEY KEY_LEFTCTRL 0 ++ emit EV_SYN SYN_REPORT 0).

(** *** The compiled keyboard layout, as seen through libxkbcommon

    The keymap is built by the library at start-up and only queried
    afterwards; it is modelled by the answers of the query functions the
    program calls.  Key codes, layout (group) indices, level indices and
    modifier indices are natural numbers; key symbols, code points and
    modifier masks are 32-bit unsigned values. *)
Record xkb_keymap := Keymap {
  xkb_keymap_min_keycode : nat;
  xkb_keymap_max_keycode : nat;
  xkb_keymap_num_layouts_for_key : nat -> nat;
  xkb_keymap_num_levels_for_key : nat -> nat -> nat;
  (* the symbols [syms[0 .. nsyms-1]] of a (key, layout, level) *)
  xkb_keymap_key_get_syms_by_level : nat -> nat -> nat -> list N;
  (* the masks written to [masks[]] for a (key, layout, level) *)
  xkb_keymap_key_get_mods_for_level : nat -> nat -> nat -> list N;
  (* [None] is XKB_MOD_INVALID *)
  xkb_keymap_mod_get_index : string -> option nat
}.

Definition XKB_KEY_NoSymbol : N := 0.
Definition EVDEV_OFFSET : Z := 8.

(** [mod_map]; the names are the values of XKB_MOD_NAME_SHIFT, _CTRL, _ALT
    and _LOGO in <xkbcommon/xkbcommon-names.h>. *)
Definition mod_map : list (string * Z) :=
  [ ("Shift", KEY_LEFTSHIFT);
    ("Control", KEY_LEFTCTRL);
    ("Mod1", KEY_LEFTALT);
    ("Mod4", KEY_LEFTMETA);
    ("Mod5", KEY_RIGHTALT) ].

Record KeyLookup := Lookup { evdev_keycode : Z; mods : N }.

(** A loop body either executes [return] or falls through to the next
    iteration with the updated locals. *)
Inductive scan (A : Type) :=
  | Return (r : A)
  | Continue (a : A).
Arguments Return {A} r.
Arguments Continue {A} a.

(** A [for] loop over the values [l] whose body may return early. *)
Fixpoint scan_fold {A B} (body : A -> B -> scan A) (l : list B) (a : A) : scan A :=
  match l with
  | [] => Continue a
  | x :: l' =>
      match body a x with
      | Return r => Return r
      | Continue a' => scan_fold body l' a'
      end
  end.

Definition scan_result {A} (s : scan A) : A :=
  match s with Return r => r | Continue a => a end.

(** The bits of the modifier keys the program can press:
    [kl.mods & (1u << idx)]. *)
Definition mask_has (mask : N) (idx : nat) : bool :=
  negb (N.land mask (N.shiftl 1 (N.of_nat idx)) =? 0)%N.

(** The locals [mod_keys[8]] and [nmod] of [type_codepoint]. *)
Record mod_state := ModState { mod_keys : list Z; nmod : nat }.

Section Typer.

(** [xkb_utf32_to_keysym], a function of the library that does not depend on
    the keymap, and the static [s_keymap]. *)
Context (xkb_utf32_to_keysym : N -> N) (s_keymap : xkb_keymap).

(** The innermost loop body of [lookup_char], for one level of one layout of
    one key. *)
Definition lookup_level (target : N) (kc layout : nat)
    (result : KeyLookup) (level : nat) : scan KeyLookup :=
  match xkb_keymap_key_get_syms_by_level s_keymap kc layout level with
  | [sym] =>
      if (sym =? target)%N then
        let masks := xkb_keymap_key_get_mods_for_level s_keymap kc layout level in
        let result :=
          {| evdev_keycode := Z.of_nat kc - EVDEV_OFFSET;
             mods := match masks with m :: _ => m | [] => 0%N end |} in
        (* Prefer primary layout (0), return immediately *)
        if layout =? 0 then Return result else Continue result
      else Continue result
  | _ => Continue result
  end.

Definition lookup_layout (target : N) (kc : nat)
    (result : KeyLookup) (layout : nat) : scan KeyLookup :=
  scan_fold (lookup_level target kc layout)
    (seq 0 (xkb_keymap_num_levels_for_key s_keymap kc layout)) result.

Definition lookup_key (target : N) (result : KeyLookup) (kc : nat) : scan KeyLookup :=
  scan_fold (lookup_layout target kc)
    (seq 0 (xkb_keymap_num_layouts_for_key s_keymap kc)) result.

(** The key codes [min_kc .. max_kc] of the outer loop. *)
Definition keycodes : list nat :=
  seq (xkb_keymap_min_keycode s_keymap)
      (S (xkb_keymap_max_keycode s_keymap) - xkb_keymap_min_keycode s_keymap).

Definition lookup_char (codepoint : N) : KeyLookup :=
  let result := {| evdev_keycode := -1; mods := 0%N |} in
  let target := xkb_utf32_to_keysym codepoint in
  if (target =? XKB_KEY_NoSymbol)%N then result
  else scan_result (scan_fold (lookup_key target) keycodes result).

(** One iteration of the loop that resolves the modifier keys. *)
Definition resolve_mod (mask : N) (st : mod_state) (entry : string * Z) : mod_state :=
  if nmod st <? 8 then
    match xkb_keymap_mod_get_index s_keymap (fst entry) with
    | None => st
    | Some idx =>
        if mask_has mask idx
        then {| mod_keys := <[nmod st := snd entry]> (mod_keys st);
                nmod := S (nmod st) |}
        else st
    end
  else st.

Definition type_codepoint (cp : N) : list input_event :=
  if ((cp =? 10) || (cp =? 13))%N then key_tap KEY_ENTER
  else if (cp =? 9)%N then key_tap KEY_TAB
  else
    let kl := lookup_char cp in
    if (evdev_keycode kl <? 0)%Z then []
    else
      let st := foldl (resolve_mod (mods kl)) (ModState (replicate 8 0%Z) 0) mod_map in
      (* Press modifiers *)
      (i ← seq 0 (nmod st);
         emit EV_KEY (mod_keys st !!! i) 1 ++ emit EV_SYN SYN_REPORT 0)
      (* Tap key *)
      ++ emit EV_KEY (evdev_keycode kl) 1 ++ emit EV_SYN SYN_REPORT 0
      ++ emit EV_KEY (evdev_keycode kl) 0 ++ emit EV_SYN SYN_REPORT 0
      (* Release modifiers (reverse) *)
      ++ (i ← rev (seq 0 (nmod st));
            emit EV_KEY (mod_keys st !!! i) 0 ++ emit EV_SYN SYN_REPORT 0).

Definition byte (c : ascii) : N := N_of_ascii c.

(** The decoding loop of [typer_type] on the bytes at [p].  A multi-byte
    sequence cut short by the end of the string makes the C loop step over the
    terminating NUL and read past the buffer: the behaviour is undefined,
    which is [None]. *)
Fixpoint typer_type_loop (p : list ascii) : option (list input_event) :=
  match p with
  | [] => Some []
  | b0 :: p1 =>
      if (byte b0 <? 128)%N then
        (type_codepoint (byte b0) ++.) <$> typer_type_loop p1
      else if (N.land (byte b0) 224 =? 192)%N then
        match p1 with
        | b1 :: p2 =>
            let cp := N.lor (N.shiftl (N.land (byte b0) 31) 6)
                            (N.land (byte b1) 63) in
            (type_codepoint cp ++.) <$> typer_type_loop p2
        | _ => None
        end
      else if (N.land (byte b0) 240 =? 224)%N then
        match p1 with
        | b1 :: b2 :: p3 =>
            let cp := N.lor (N.lor (N.shiftl (N.land (byte b0) 15) 12)
                                   (N.shiftl (N.land (byte b1) 63) 6))
                            (N.land (byte b2) 63) in
            (type_codepoint cp ++.) <$> typer_type_loop p3
        | _ => None
        end
      else if (N.land (byte b0) 248 =? 240)%N then
        match p1 with
        | b1 :: b2 :: b3 :: p4 =>
            let cp := N.lor (N.lor (N.lor (N.shiftl (N.land (byte b0) 7) 18)
                                          (N.shiftl (N.land (byte b1) 63) 12))
                                   (N.shiftl (N.land (byte b2) 63) 6))
                            (N.land (byte b3) 63) in
            (type_codepoint cp ++.) <$> typer_type_loop p4
        | _ => None
        end
      else typer_type_loop p1   (* skip invalid byte *)
  end.

(** [typer_type]; [None] as text is the NULL pointer. *)
Definition typer_type (s_fd : Z) (text : option (list ascii))
    : option (list input_event) :=
  match text with
  | None => Some []
  | Some text => if (s_fd <? 0)%Z then Some [] else typer_type_loop text
  end.

End Typer.

(** ** Declarative vocabulary: the layout scan *)

Section TyperSpec.

Context (s_keymap : xkb_keymap).

(** Every (key, layout, level) of the keymap: the key codes from the
    smallest to the largest one of the keymap, for each key its layouts and
    for each layout its levels, in increasing order. *)
Definition scan_order : list (nat * nat * nat) :=
  kc ← seq (xkb_keymap_min_keycode s_keymap)
           (S (xkb_keymap_max_keycode s_keymap) - xkb_keymap_min_keycode s_keymap);
  layout ← seq 0 (xkb_keymap_num_layouts_for_key s_keymap kc);
  level ← seq 0 (xkb_keymap_num_levels_for_key s_keymap kc layout);
  [(kc, layout, level)].

Definition syms_at (t : nat * nat * nat) : list N :=
  xkb_keymap_key_get_syms_by_level s_keymap t.1.1 t.1.2 t.2.

(** The (key, layout, level) produces exactly the symbol [target]. *)
Definition produces (target : N) (t : nat * nat * nat) : bool :=
  match syms_at t with
  | [sym] => (sym =? target)%N
  | _ => false
  end.

Definition in_primary_group (t : nat * nat * nat) : bool := t.1.2 =? 0.

(** The key and the modifier mask of a (key, layout, level): the evdev code
    of the key and the first mask of the level (0 when it has none). *)
Definition binding (t : nat * nat * nat) : KeyLookup :=
  {| evdev_keycode := Z.of_nat t.1.1 - EVDEV_OFFSET;
     mods := match xkb_keymap_key_get_mods_for_level s_keymap t.1.1 t.1.2 t.2 with
             | m :: _ => m
             | [] => 0%N
             end |}.

Definition not_found : KeyLookup := {| evdev_keycode := -1; mods := 0%N |}.

(** All matches of [target], in scan order. *)
Definition matches (target : N) : list (nat * nat * nat) :=
  List.filter (produces target) scan_order.

(** The stated outcome of the scan: the first match of the primary group if
    there is one, otherwise the last match found. *)
Definition resolution (target : N) : KeyLookup :=
  match List.find in_primary_group (matches target) with
  | Some t => binding t
  | None =>
      match last (matches target) with
      | Some t => binding t
      | None => not_found
      end
  end.

(** The body of the three nested loops, as one body over (key, layout,
    level). *)
Definition lookup_triple (target : N) (result : KeyLookup)
    (t : nat * nat * nat) : scan KeyLookup :=
  lookup_level s_keymap target t.1.1 t.1.2 result t.2.

(** The modifier key an entry of [mod_map] contributes for a mask: its key
    when the keymap knows the modifier name and the mask has its bit. *)
Definition selected (mask : N) (entry : string * Z) : option Z :=
  match xkb_keymap_mod_get_index s_keymap entry.1 with
  | Some idx => if N.testbit mask (N.of_nat idx) then Some entry.2 else None
  | None => None
  end.

(** The modifier keys of a mask, in the order of [mod_map]. *)
Definition modifier_keys (mask : N) : list Z := omap (selected mask) mod_map.

(** Key-down and key-up of the key [k], each followed by a sync report, as
    the device receives them: the code field of an event is 16 bits wide. *)
Definition press (k : Z) : list input_event :=
  [InputEvent EV_KEY (k mod 65536) 1; InputEvent EV_SYN SYN_REPORT 0].

Definition release (k : Z) : list input_event :=
  [InputEvent EV_KEY (k mod 65536) 0; InputEvent EV_SYN SYN_REPORT 0].

End TyperSpec.

(** A small layout for examples: one group; key 38 gives "a" and, with
    Shift, "A"; key 24 gives "q", with Shift "Q", with Mod5 (AltGr) "@" and
    with Shift and Mod5 the Greek capital omega.  Shift is modifier 0 and Mod5
    is modifier 7. *)
Definition demo_keymap : xkb_keymap :=
  {| xkb_keymap_min_keycode := 8;
     xkb_keymap_max_keycode := 40;
     xkb_keymap_num_layouts_for_key :=
       fun kc => if (kc =? 38) || (kc =? 24) then 1 else 0;
     xkb_keymap_num_levels_for_key :=
       fun kc _ => if kc =? 38 then 2 else if kc =? 24 then 4 else 0;
     xkb_keymap_key_get_syms_by_level := fun kc _ level =>
       if kc =? 38 then (if level =? 0 then [97%N] else [65%N])
       else if kc =? 24 then
         (if level =? 0 then [113%N] else if level =? 1 then [81%N]
          else if level =? 2 then [64%N] else [16778153%N])
       else [];
     xkb_keymap_key_get_mods_for_level := fun _ _ level =>
       if level =? 0 then [0%N] else if level =? 1 then [1%N]
       else if level =? 2 then [128%N] else [129%N];
     xkb_keymap_mod_get_index := fun name =>
       if String.eqb name "Shift" then Some 0
       else if String.eqb name "Mod5" then Some 7
       else None |}.

(** For the examples: printable ASCII code points are their own key symbol,
    code points from 256 on have the symbol 0x01000000 + code point, and the
    others have none. *)
Definition demo_utf32_to_keysym (cp : N) : N :=
  if ((32 <=? cp) && (cp <=? 126))%N then cp
  else if (256 <=? cp)%N then (16777216 + cp)%N
  else 0%N.

(** And the matching inverse, for the same examples. *)
Definition demo_keysym_to_utf32 (sym : N) : N :=
  if (16777216 <=? sym)%N then (sym - 16777216)%N else sym.

(** ** The X11 build: injection through XTest *)

(** A call [XTestFakeKeyEvent(g_dpy, keycode, is_press, 0)]. *)
Record xtest_event := XTestEvent { x_keycode : Z; x_is_press : bool }.

Section XTest.

(** The two Xlib queries the program makes, the key code [g_shift] found at
    start-up, and whether the display [g_dpy] is open. *)
Context (XKeysymToKeycode : N -> Z) (XkbKeycodeToKeysym : Z -> N -> N -> N)
        (g_shift : Z) (g_dpy : bool).

(** The loop body of [type_text] for the byte [c]. *)
Definition type_text_char (c : ascii) : list xtest_event :=
  if ((byte c <? 32) || (126 <? byte c))%N then []
  else
    let ks := byte c in
    let kc := XKeysymToKeycode ks in
    if (kc =? 0)%Z then []
    else
      (* Check if shift needed: compare with unshifted keysym at this keycode *)
      let need_shift := negb (XkbKeycodeToKeysym kc 0 0 =? ks)%N in
      (if need_shift then [XTestEvent g_shift true] else [])
      ++ [XTestEvent kc true; XTestEvent kc false]
      ++ (if need_shift then [XTestEvent g_shift false] else []).

(** [type_text]; [None] as text is the NULL pointer. *)
Definition type_text (text : option (list ascii)) : list xtest_event :=
  match text with
  | None => []
  | Some text => if g_dpy then c ← text; type_text_char c else []
  end.

End XTest.

(** ** Declarative vocabulary: what the focused application observes

    A keystroke is a key going down together with the modifier keys held at
    that moment; under a given layout the text an application receives is
    determined by the sequence of keystrokes.  Keys are named by their X/xkb
    key code, which is the evdev code plus [EVDEV_OFFSET]. *)
Definition stroke : Type := Z * list Z.

Definition is_modifier_key (evdev_code : Z) : bool :=
  bool_decide (evdev_code ∈ mod_map.*2).

Definition unhold (k : Z) (held : list Z) : list Z :=
  List.filter (fun h => negb (h =? k)%Z) held.

(** The keystrokes of a sequence of events written to the uinput device,
    starting with the modifier keys [held] down. *)
Fixpoint uinput_strokes (held : list Z) (evs : list input_event) : list stroke :=
  match evs with
  | [] => []
  | ev :: evs' =>
      if negb (ev_type ev =? EV_KEY)%Z then uinput_strokes held evs'
      else if is_modifier_key (ev_code ev) then
        if (ev_value ev =? 0)%Z then uinput_strokes (unhold (ev_code ev) held) evs'
        else uinput_strokes (held ++ [ev_code ev]) evs'
      else if (ev_value ev =? 0)%Z then uinput_strokes held evs'
      else ((ev_code ev + EVDEV_OFFSET)%Z, (fun h => h + EVDEV_OFFSET)%Z <$> held)
             :: uinput_strokes held evs'
  end.

(** The keystrokes of a sequence of XTest events; the only modifier the X11
    build presses is the key [g_shift]. *)
Fixpoint xtest_strokes (g_shift : Z) (held : list Z) (evs : list xtest_event)
    : list stroke :=
  match evs with
  | [] => []
  | ev :: evs' =>
      if (x_keycode ev =? g_shift)%Z then
        if x_is_press ev then xtest_strokes g_shift (held ++ [g_shift]) evs'
        else xtest_strokes g_shift (unhold g_shift held) evs'
      else if x_is_press ev then
        (x_keycode ev, held) :: xtest_strokes g_shift held evs'
      else xtest_strokes g_shift held evs'
  end.

Section Variants.

Context (xkb_utf32_to_keysym : N -> N) (s_keymap : xkb_keymap) (s_fd : Z)
        (XKeysymToKeycode : N -> Z) (XkbKeycodeToKeysym : Z -> N -> N -> N)
        (g_shift : Z) (g_dpy : bool).

(** Both builds type the same text: the same keystrokes reach the
    application (when the behaviour of [typer_type] is defined). *)
Definition same_typed_text (text : list ascii) : Prop :=
  match typer_type xkb_utf32_to_keysym s_keymap s_fd (Some text) with
  | Some evs =>
      uinput_strokes [] evs =
      xtest_strokes g_shift []
        (type_text XKeysymToKeycode XkbKeycodeToKeysym g_shift g_dpy (Some text))
  | None => True
  end.

(** The two lookups agree on the byte [c]: same key, and Shift is the only
    modifier, needed exactly when the level-0 symbol of the key differs.
    This is what [plain_key] below implies; the proofs pass through it. *)
Definition lookups_agree (c : ascii) : Prop :=
  let kc := XKeysymToKeycode (byte c) in
  let kl := lookup_char xkb_utf32_to_keysym s_keymap (byte c) in
  kc <> 0%Z /\ kc <> g_shift /\
  evdev_keycode kl = (kc - EVDEV_OFFSET)%Z /\
  (0 <= evdev_keycode kl < 65536)%Z /\
  is_modifier_key (evdev_keycode kl) = false /\
  modifier_keys s_keymap (mods kl) =
    if (XkbKeycodeToKeysym kc 0 0 =? byte c)%N then [] else [KEY_LEFTSHIFT].

(** Conditions on the layout and on the X server for the printable byte [c]:
    its key symbol is its code; the layout gives it at the level [lv], 0 or
    1, of group 0 of the key [kc] and nowhere else in group 0; level 0 needs
    no modifier key and level 1 needs Shift alone; the key is none of the
    modifier keys; and the X server presents the same key, with a key code
    in 8..255 and the level-0 symbol of the layout. *)
Definition plain_key (c : ascii) (kc lv : nat) : Prop :=
  xkb_utf32_to_keysym (byte c) = byte c /\
  (kc, 0, lv) ∈ scan_order s_keymap /\ lv <= 1 /\ 8 <= kc <= 255 /\
  syms_at s_keymap (kc, 0, lv) = [byte c] /\
  (forall t, t ∈ scan_order s_keymap -> t.1.2 = 0 ->
             syms_at s_keymap t = [byte c] -> t = (kc, 0, lv)) /\
  modifier_keys s_keymap (mods (binding s_keymap (kc, 0, lv)))
    = (if lv =? 0 then [] else [KEY_LEFTSHIFT]) /\
  is_modifier_key (Z.of_nat kc - EVDEV_OFFSET) = false /\
  XKeysymToKeycode (byte c) = Z.of_nat kc /\
  syms_at s_keymap (kc, 0, 0) = [XkbKeycodeToKeysym (Z.of_nat kc) 0 0].

(** The keystroke both builds are expected to produce for the byte [c]. *)
Definition stroke_of (c : ascii) : stroke :=
  (XKeysymToKeycode (byte c),
   if (XkbKeycodeToKeysym (XKeysymToKeycode (byte c)) 0 0 =? byte c)%N
   then [] else [g_shift]).

Definition printable (c : ascii) : bool :=
  negb ((byte c <? 32) || (126 <? byte c))%N.

End Variants.

(** The answers of Xlib for the example layout: the key code of a symbol,
    the level-0 symbol of a key, and the key code of the left Shift key. *)
Definition demo_XKeysymToKeycode (ks : N) : Z :=
  if ((ks =? 97) || (ks =? 65))%N then 38
  else if ((ks =? 113) || (ks =? 81) || (ks =? 64))%N then 24
  else 0.

Definition demo_XkbKeycodeToKeysym (kc : Z) (group level : N) : N :=
  if (kc =? 38)%Z then (if (level =? 0)%N then 97 else 65)%N
  else if (kc =? 24)%Z then (if (level =? 0)%N then 113 else 81)%N
  else 0%N.

Definition demo_g_shift : Z := 50.

(** ** Queue teardown and ownership of the sample buffers *)

(** [queue_destroy]: the pointers passed to [free], in order. *)
Definition queue_destroy (q : SegmentQueue) : list Z :=
  (fun i => samples (items q !!! Z.to_nat (Z.rem (head q + Z.of_nat i) MAX_QUEUE_SIZE)))
    <$> seq 0 (Z.to_nat (count q)).

(** The sample pointers that leave the queue while a sequence of operations
    runs, in the order they leave: a pointer freed by [queue_push] on
    overflow, or the pointer of the segment a successful [queue_pop] hands to
    its caller (who frees it at the end of the worker's loop body). *)
Fixpoint queue_leaving (q : SegmentQueue) (ops : list queue_op)
    : list Z * SegmentQueue :=
  match ops with
  | [] => ([], q)
  | op :: ops' =>
      let '(gone, q1) :=
        match op with
        | Push s len => queue_push q s len
        | Pop running =>
            match queue_pop q running with
            | (PopReturns1 out, q1) => ([samples out], q1)
            | (_, q1) => ([], q1)
            end
        end in
      let '(gone', q2) := queue_leaving q1 ops' in
      (gone ++ gone', q2)
  end.

(** The sample pointers handed to [queue_push], in order. *)
Definition pushed (ops : list queue_op) : list Z :=
  omap (fun op => match op with Push s _ => Some s | Pop _ => None end) ops.

(** ** Declarative vocabulary: well-nested key events

    Reading a sequence of events written to the device with a stack of the
    keys that are down: a key-down pushes its key, a key-up must release the
    key pressed last and pops it.  [None] means a key-up that does not match
    the key pressed last. *)
Fixpoint keys_down (down : list Z) (evs : list input_event) : option (list Z) :=
  match evs with
  | [] => Some down
  | ev :: evs' =>
      if negb (ev_type ev =? EV_KEY)%Z then keys_down down evs'
      else if (ev_value ev =? 0)%Z then
        match down with
        | k :: down' =>
            if (k =? ev_code ev)%Z then keys_down down' evs' else None
        | [] => None
        end
      else keys_down (ev_code ev :: down) evs'
  end.

(** Every key event is immediately followed by a sync report. *)
Fixpoint synced (evs : list input_event) : bool :=
  match evs with
  | [] => true
  | ev :: evs' =>
      if (ev_type ev =? EV_KEY)%Z then
        match evs' with
        | ev' :: evs'' =>
            (ev_type ev' =? EV_SYN)%Z && (ev_code ev' =? SYN_REPORT)%Z
            && (ev_value ev' =? 0)%Z && synced evs''
        | [] => false
        end
      else synced evs'
  end.

(** The same reading for the XTest events of the X11 build. *)
Fixpoint xkeys_down (down : list Z) (evs : list xtest_event) : option (list Z) :=
  match evs with
  | [] => Some down
  | ev :: evs' =>
      if x_is_press ev then xkeys_down (x_keycode ev :: down) evs'
      else
        match down with
        | k :: down' =>
            if (k =? x_keycode ev)%Z then xkeys_down down' evs' else None
        | [] => None
        end
  end.

(** ** Declarative vocabulary: UTF-8

    The encoding of a code point below 2^21 (RFC 3629 without its range
    restrictions): one byte 0xxxxxxx, or a lead byte 110xxxxx, 1110xxxx or
    11110xxx followed by continuation bytes 10xxxxxx, most significant bits
    first. *)
Definition utf8_encode (cp : N) : list ascii :=
  if (cp <? 128)%N then [ascii_of_N cp]
  else if (cp <? 2048)%N then
    [ascii_of_N (192 + cp / 64); ascii_of_N (128 + cp mod 64)]
  else if (cp <? 65536)%N then
    [ascii_of_N (224 + cp / 4096); ascii_of_N (128 + (cp / 64) mod 64);
     ascii_of_N (128 + cp mod 64)]
  else
    [ascii_of_N (240 + cp / 262144); ascii_of_N (128 + (cp / 4096) mod 64);
     ascii_of_N (128 + (cp / 64) mod 64); ascii_of_N (128 + cp mod 64)].

(** ** typer.c: detection of the keyboard layout *)

Definition newline : ascii := "010"%char.
Definition carriage_return : ascii := "013"%char.
Definition double_quote : ascii := "034"%char.

(** The bytes [fgets] stores when it may store at most [k] of them: it stops
    after a newline; also returned, the rest of the stream. *)
Fixpoint read_line (k : nat) (stream : list ascii) : list ascii * list ascii :=
  match k, stream with
  | 0, _ => ([], stream)
  | _, [] => ([], [])
  | S k', c :: stream' =>
      if decide (c = newline) then ([c], stream')
      else let '(line, rest) := read_line k' stream' in (c :: line, rest)
  end.

(** [fgets(line, size, f)]: NULL ([None]) at end of file, else the line read
    into the buffer of [size] bytes and the rest of the stream.  The file is
    a text file without NUL bytes. *)
Definition fgets (size : nat) (stream : list ascii)
    : option (list ascii * list ascii) :=
  match stream with
  | [] => None
  | _ :: _ => Some (read_line (size - 1) stream)
  end.

Definition is_line_end (c : ascii) : bool :=
  bool_decide (c = newline) || bool_decide (c = double_quote)
  || bool_decide (c = carriage_return).

(** The loop [while (end > val && is_line_end( *end)) *end-- = 0;], where
    the test stands for the three comparisons of the source, in terms of the
    length [n = end - val + 1] of what is kept: the first byte is never
    removed. *)
Fixpoint strip_line_end (val : list ascii) (n : nat) : nat :=
  match n with
  | S (S _ as n') =>
      match val !! n' with
      | Some c => if is_line_end c then strip_line_end val n' else n
      | None => n
      end
  | _ => n
  end.

(** What the body of the [if (strncmp(..) == 0)] block copies into the static
    buffer [layout[64]]. *)
Definition layout_of_line (line : list ascii) : list ascii :=
  let val := drop 10 line in
  let val :=
    match val with
    | c :: val' => if decide (c = double_quote) then val' else val
    | [] => val
    end in
  take 63 (take (strip_line_end val (length val)) val).

(** The [while (fgets(..))] loop; every iteration consumes at least one byte
    of the stream, so [fuel] above the length of the stream is never
    exhausted. *)
Fixpoint detect_layout_loop (fuel : nat) (stream : list ascii)
    : option (list ascii) :=
  match fuel with
  | 0 => None
  | S fuel' =>
      match fgets 256 stream with
      | None => None
      | Some (line, rest) =>
          if decide (take 10 line = cstr "XKBLAYOUT=")
          then Some (layout_of_line line)
          else detect_layout_loop fuel' rest
      end
  end.

(** [detect_layout]: [env] is the result of [getenv("XKB_DEFAULT_LAYOUT")],
    [file] the content of /etc/default/keyboard, [None] when [fopen] fails;
    the result [None] is NULL. *)
Definition detect_layout (env : option (list ascii)) (file : option (list ascii))
    : option (list ascii) :=
  match env with
  | Some (_ :: _) => None
  | _ =>
      match file with
      | None => None
      | Some stream => detect_layout_loop (S (length stream)) stream
      end
  end.

(** What one call of [fgets] takes from the file when it is not a
    configuration of the layout: a complete line of at most 255 bytes, newline
    included, or the first 255 bytes of a longer line, not starting with
    "XKBLAYOUT=". *)
Definition other_read (l : list ascii) : Prop :=
  ((exists body, l = body ++ [newline] /\ (newline ∉ body) /\ length l <= 255) \/
   ((newline ∉ l) /\ length l = 255)) /\
  take 10 l <> cstr "XKBLAYOUT=".

(** An /etc/default/keyboard as Debian writes it, for the examples. *)
Definition demo_keyboard_file : list (list ascii) * list ascii * list ascii :=
  ([ cstr "# KEYBOARD CONFIGURATION FILE" ++ [newline];
     [newline];
     cstr "XKBMODEL=" ++ [double_quote] ++ cstr "pc105" ++ [double_quote; newline] ],
   cstr "XKBLAYOUT=" ++ [double_quote] ++ cstr "de" ++ [double_quote],
   cstr "XKBVARIANT=" ++ [double_quote; double_quote; newline]).

(** ** typer.c: set-up and tear-down of the typer *)

(** The operating-system resources [typer_init] acquires. *)
Inductive resource :=
  | XkbContext      (* xkb_context_new / xkb_context_unref *)
  | XkbKeymap       (* xkb_keymap_new_from_names / xkb_keymap_unref *)
  | UinputFd        (* open / close *)
  | UinputDevice.   (* ioctl UI_DEV_CREATE / UI_DEV_DESTROY *)

Inductive resource_op :=
  | Acquire (r : resource)
  | Release (r : resource).

Global Instance resource_eq_dec : EqDecision resource.
Proof. solve_decision. Defined.

(** The statics of typer.c; a pointer is [None] when NULL. *)
Record typer_statics := Statics {
  s_fd : Z;
  s_ctx : option Z;
  s_keymap : option Z
}.

(** Their initial values. *)
Definition typer_closed : typer_statics :=
  {| s_fd := -1; s_ctx := None; s_keymap := None |}.

(** What the environment answers to the calls of [typer_init]. *)
Record typer_world := World {
  world_getenv : option (list ascii);        (* getenv("XKB_DEFAULT_LAYOUT") *)
  world_keyboard_file : option (list ascii); (* /etc/default/keyboard *)
  world_context_new : option Z;              (* xkb_context_new *)
  (* xkb_keymap_new_from_names, given the layout name passed (if any) *)
  world_keymap_new : option (list ascii) -> option Z;
  world_open : Z;                            (* open("/dev/uinput", ..) *)
  world_dev_setup : Z;                       (* ioctl(.., UI_DEV_SETUP, ..) *)
  world_dev_create : Z                       (* ioctl(.., UI_DEV_CREATE) *)
}.

(** [typer_init]: the value returned, the statics afterwards and the
    resources acquired and released on the way.  The results of the
    [UI_SET_EVBIT] and [UI_SET_KEYBIT] calls are not looked at by the code. *)
Definition typer_init (w : typer_world) (st : typer_statics)
    : Z * typer_statics * list resource_op :=
  match world_context_new w with
  | None => (-1, {| s_fd := s_fd st; s_ctx := None; s_keymap := s_keymap st |}, [])
  | Some ctx =>
      let layout := detect_layout (world_getenv w) (world_keyboard_file w) in
      match world_keymap_new w layout with
      | None =>
          (-1, {| s_fd := s_fd st; s_ctx := None; s_keymap := None |},
           [Acquire XkbContext; Release XkbContext])
      | Some keymap =>
          let fd := world_open w in
          if (fd <? 0) then
            (-1, {| s_fd := fd; s_ctx := None; s_keymap := None |},
             [Acquire XkbContext; Acquire XkbKeymap;
              Release XkbKeymap; Release XkbContext])
          else if (world_dev_setup w <? 0) then
            (-1, typer_closed,
             [Acquire XkbContext; Acquire XkbKeymap; Acquire UinputFd;
              Release UinputFd; Release XkbKeymap; Release XkbContext])
          else if (world_dev_create w <? 0) then
            (-1, typer_closed,
             [Acquire XkbContext; Acquire XkbKeymap; Acquire UinputFd;
              Release UinputFd; Release XkbKeymap; Release XkbContext])
          else
            (0, {| s_fd := fd; s_ctx := Some ctx; s_keymap := Some keymap |},
             [Acquire XkbContext; Acquire XkbKeymap; Acquire UinputFd;
              Acquire UinputDevice])
      end
  end%Z.

(** [typer_cleanup]. *)
Definition typer_cleanup (st : typer_statics) : typer_statics * list resource_op :=
  let '(fd, ops1) :=
    if (0 <=? s_fd st)%Z then (-1, [Release UinputDevice; Release UinputFd])%Z
    else (s_fd st, []) in
  let '(keymap, ops2) :=
    match s_keymap st with
    | Some _ => (None, [Release XkbKeymap])
    | None => (None, [])
    end in
  let '(ctx, ops3) :=
    match s_ctx st with
    | Some _ => (None, [Release XkbContext])
    | None => (None, [])
    end in
  ({| s_fd := fd; s_ctx := ctx; s_keymap := keymap |}, ops1 ++ ops2 ++ ops3).

(** Reading a sequence of acquisitions and releases with the stack of the
    resources held: a release must give back the resource acquired last.
    [None] means a release out of order, or of something not held. *)
Fixpoint resources_held (held : list resource) (ops : list resource_op)
    : option (list resource) :=
  match ops with
  | [] => Some held
  | Acquire r :: ops' => resources_held (r :: held) ops'
  | Release r :: ops' =>
      match held with
      | r' :: held' =>
          if decide (r' = r) then resources_held held' ops' else None
      | [] => None
      end
  end.

(** ** Audio callback: accumulation and windowing (dictate.c, [pa_callback]) *)

Definition SAMPLE_RATE : Z := 16000.
Definition VAD_WINDOW_SIZE : Z := 512.
Definition INT_MAX : Z := 2147483647.

Section AudioBuffer.

Context {sample : Type}.

(** The loop that feeds the detector. [buf] is the filled part of
    [g_audio_buf], so its length is [g_audio_buf_len]; the result is the
    windows passed to [SherpaOnnxVoiceActivityDetectorAcceptWaveform], in
    order, and the buffer left after the shifts. Every turn shortens the
    buffer, so [length buf] turns are enough. *)
Fixpoint feed_vad (fuel : nat) (buf : list sample)
    : list (list sample) * list sample :=
  match fuel with
  | 0 => ([], buf)
  | S fuel =>
      if (VAD_WINDOW_SIZE <=? Z.of_nat (length buf))%Z then
        let window := take (Z.to_nat VAD_WINDOW_SIZE) buf in
        let '(windows, rest) := feed_vad fuel (drop (Z.to_nat VAD_WINDOW_SIZE) buf) in
        (window :: windows, rest)
      else ([], buf)
  end.

(** The first half of [pa_callback], up to the end of the feeding loop.
    [input] is the pointer handed over by PortAudio, NULL or [frame_count]
    samples; the result is [None] where the C arithmetic on [int] or the size
    given to [memcpy] is out of range. *)
Definition pa_callback_feed (buf : list sample) (input : option (list sample))
    : option (list (list sample) * list sample) :=
  match input with
  | None => Some ([], buf)
  | Some inp =>
      let frame_count := Z.of_nat (length inp) in
      let g_audio_buf_len := Z.of_nat (length buf) in
      if (INT_MAX <? frame_count)%Z || (INT_MAX <? g_audio_buf_len + frame_count)%Z
      then None
      else
        let to_copy :=
          if (SAMPLE_RATE <? g_audio_buf_len + frame_count)%Z
          then (SAMPLE_RATE - g_audio_buf_len)%Z
          else frame_count in
        if (to_copy <? 0)%Z then None
        else
          let buf := buf ++ take (Z.to_nat to_copy) inp in
          Some (feed_vad (length buf) buf)
  end.

(** Successive callbacks on the same buffer: all windows fed, and the
    buffer at the end. *)
Fixpoint pa_stream (buf : list sample) (inputs : list (option (list sample)))
    : option (list (list sample) * list sample) :=
  match inputs with
  | [] => Some ([], buf)
  | input :: inputs =>
      match pa_callback_feed buf input with
      | Some (windows, buf) =>
          match pa_stream buf inputs with
          | Some (more, buf) => Some (windows ++ more, buf)
          | None => None
          end
      | None => None
      end
  end.

End AudioBuffer.

(** ** Locating the models (dictate.c, [resolve_basedir] and [make_path]) *)

(** [snprintf(dst, size, ...)] for [size > 0]: the formatted text [out], cut
    to [size - 1] bytes. *)
Definition snprintf (size : nat) (out : list ascii) : list ascii :=
  take (size - 1) out.

(** [readlink(path, buf, bufsiz)]: the target of the link cut to [bufsiz]
    bytes, or a failure. *)
Definition readlink (target : option (list ascii)) (bufsiz : nat)
    : option (list ascii) :=
  take bufsiz <$> target.

(** [getcwd(buf, size)]: NULL when the directory and its terminator do not
    fit. *)
Definition getcwd (cwd : option (list ascii)) (size : nat) : option (list ascii) :=
  match cwd with
  | Some d => if length d <? size then Some d else None
  | None => None
  end.

(** Offset of the last occurrence of the byte [c], which is not NUL. *)
Fixpoint strrchr (s : list ascii) (c : ascii) : option nat :=
  match s with
  | [] => None
  | x :: s =>
      match strrchr s c with
      | Some i => Some (S i)
      | None => if bool_decide (x = c) then Some 0 else None
      end
  end.

(** [sizeof(g_basedir)] and [sizeof(cwd)]. *)
Definition g_basedir_size : nat := 4096.
Definition cwd_size : nat := 2048.

(** The value left in [g_basedir]. [proc_self_exe] is the target of
    /proc/self/exe and [cwd] the working directory, where they can be read. *)
Definition resolve_basedir (proc_self_exe cwd : option (list ascii))
    (argv0 : list ascii) : list ascii :=
  let g_basedir :=
    match readlink proc_self_exe (g_basedir_size - 1) with
    | Some (c :: target) => c :: target
    | _ =>
        match argv0 with
        | "/"%char :: _ => snprintf g_basedir_size argv0
        | _ =>
            match getcwd cwd cwd_size with
            | Some d => snprintf g_basedir_size (d ++ "/"%char :: argv0)
            | None => snprintf g_basedir_size argv0
            end
        end
    end in
  match strrchr g_basedir "/"%char with
  | Some slash => take slash g_basedir
  | None => g_basedir
  end.

(** The text left in [dst]; with [dstsz = 0] nothing is written. *)
Definition make_path (g_basedir : list ascii) (dst : list ascii) (dstsz : nat)
    (rel : list ascii) : list ascii :=
  match dstsz with
  | 0 => dst
  | _ => snprintf dstsz (g_basedir ++ "/"%char :: rel)
  end.

(** The path [resolve_basedir] takes for the program: the link target, else
    an absolute [argv0], else [argv0] below the working directory. *)
Definition executable_path (proc_self_exe cwd : option (list ascii))
    (argv0 path : list ascii) : Prop :=
  (proc_self_exe = Some path /\ path <> []) \/
  ((proc_self_exe = None \/ proc_self_exe = Some []) /\
   ((argv0 !! 0 = Some "/"%char /\ path = argv0) \/
    (argv0 !! 0 <> Some "/"%char /\
     exists d, cwd = Some d /\ length d < cwd_size /\
               path = d ++ "/"%char :: argv0))).

(** ** The worker of the X11 build (dictate.c, XTest variant) *)

(** The part of the loop body of the X11 build's [transcription_worker] that
    follows [SherpaOnnxGetOfflineStreamResult]: the text passed to
    [type_text], if any. *)
Definition x11_transcription_worker_result (r : option (option (list ascii)))
    : option (list ascii) :=
  match r with
  | Some (Some r_text) =>
      if X11.is_garbage (Some r_text) then None
      else
        let text := skip_leading_space r_text in
        Some (text ++ [" "%char])
  | _ => None
  end.

(** ** Events the uinput device can carry *)

(** [typer_init] enables EV_KEY and, with UI_SET_KEYBIT, the key codes
    0..255: the device carries reports and presses and releases of these
    keys. *)
Definition enabled_event (e : input_event) : bool :=
  ((ev_type e =? EV_SYN) && (ev_code e =? SYN_REPORT) && (ev_value e =? 0))%Z
  || ((ev_type e =? EV_KEY) && (0 <=? ev_code e) && (ev_code e <? 256)
      && ((ev_value e =? 0) || (ev_value e =? 1)))%Z.

(** ** Well-formed text *)

(** The UTF-8 text of a sequence of code points. *)
Definition encoded (cps : list N) : list ascii := cps ≫= utf8_encode.

(** * Proofs *)

(** ** Proofs: trimming loops *)

Lemma skip_leading_space_drop text :
  skip_leading_space text = drop_while isspace text.
Proof. induction text as [|c rest IH]; simpl; [done|]. by rewrite IH. Qed.

Lemma drop_while_snoc_true {A} (p : A -> bool) l x :
  p x = true -> drop_end_while p (l ++ [x]) = drop_end_while p l.
Proof.
  intros Hx. unfold drop_end_while. rewrite rev_unit. simpl. by rewrite Hx.
Qed.

Lemma drop_while_snoc_false {A} (p : A -> bool) l x :
  p x = false -> drop_end_while p (l ++ [x]) = l ++ [x].
Proof.
  intros Hx. unfold drop_end_while. rewrite rev_unit. simpl. rewrite Hx.
  simpl. by rewrite rev_involutive.
Qed.

Lemma trim_trailing_le stop text len : trim_trailing stop text len <= len.
Proof.
  induction len as [|len IH]; simpl; [done|].
  destruct (text !! len) as [c|]; [|done].
  destruct (stop c); lia.
Qed.

Lemma trim_trailing_take stop text len :
  len <= length text ->
  take (trim_trailing stop text len) text = drop_end_while stop (take len text).
Proof.
  induction len as [|len IH]; intros Hlen; simpl.
  - by rewrite take_0.
  - destruct (text !! len) as [c|] eqn:Hc.
    + rewrite (take_S_r _ _ _ Hc).
      destruct (stop c) eqn:Hs.
      * rewrite drop_while_snoc_true by done. apply IH. lia.
      * rewrite drop_while_snoc_false by done. by rewrite (take_S_r _ _ _ Hc).
    + apply lookup_ge_None in Hc. lia.
Qed.

Lemma trim_trailing_full stop text :
  take (trim_trailing stop text (length text)) text = drop_end_while stop text.
Proof.
  rewrite trim_trailing_take by done. by rewrite firstn_all.
Qed.

(** ** Proofs: the scanning loop of the garbage filter *)

Lemma uchar_lt c : uchar c < 256.
Proof. apply nat_ascii_bounded. Qed.

Lemma uchar_inj c d : uchar c = uchar d -> c = d.
Proof.
  unfold uchar. intros H.
  rewrite <- (ascii_nat_embedding c), <- (ascii_nat_embedding d). by rewrite H.
Qed.

Lemma distinct_snoc l c :
  distinct (l ++ [c]) = if decide (c ∈ l) then distinct l else S (distinct l).
Proof.
  unfold distinct. induction l as [|x l IH]; simpl.
  - repeat case_decide; try done; exfalso; by eapply not_elem_of_nil.
  - assert (Hx : x ∈ l ++ [c] <-> x ∈ l \/ x = c).
    { rewrite elem_of_app, list_elem_of_singleton. done. }
    assert (Hc : c ∈ x :: l <-> c = x \/ c ∈ l) by apply elem_of_cons.
    repeat case_decide; simpl; rewrite ?IH; repeat case_decide; try done;
      exfalso; intuition (subst; eauto; congruence).
Qed.

Lemma scan_inv_init alnum_test : scan_inv alnum_test [] garbage_scan_init.
Proof.
  unfold scan_inv, garbage_scan_init. cbn [seen unique has_alnum].
  split. { apply length_replicate. }
  split; [|done].
  intros c. by rewrite lookup_replicate_2 by apply uchar_lt.
Qed.

Lemma scan_inv_step alnum_test l st c :
  scan_inv alnum_test l st ->
  scan_inv alnum_test (l ++ [c]) (garbage_scan_step alnum_test st c).
Proof.
  intros (Hlen & Hseen & Huniq & Halnum).
  assert (Hh : (if alnum_test c then true else has_alnum st)
               = existsb alnum_test (l ++ [c])).
  { rewrite existsb_app, <- Halnum. simpl.
    destruct (alnum_test c), (has_alnum st); done. }
  unfold garbage_scan_step. rewrite (Hseen c).
  destruct (decide (c ∈ l)) as [Hin|Hin].
  - rewrite bool_decide_eq_true_2 by done.
    repeat split; simpl; try done.
    + intros d. rewrite Hseen. f_equal. apply bool_decide_ext.
      rewrite elem_of_app, list_elem_of_singleton. intuition (subst; auto).
    + rewrite distinct_snoc. by rewrite decide_True.
  - rewrite bool_decide_eq_false_2 by done.
    repeat split; simpl; try done.
    + by rewrite length_insert.
    + intros d. destruct (decide (d = c)) as [->|Hne].
      * rewrite list_lookup_insert_eq by (rewrite Hlen; apply uchar_lt).
        f_equal. symmetry. apply bool_decide_eq_true.
        rewrite elem_of_app, list_elem_of_singleton. by right.
      * rewrite list_lookup_insert_ne
          by (intros Heq; apply Hne; symmetry; by apply uchar_inj).
        rewrite Hseen. f_equal. apply bool_decide_ext.
        rewrite elem_of_app, list_elem_of_singleton. intuition (subst; auto).
    + rewrite distinct_snoc. rewrite decide_False by done. by rewrite Huniq.
Qed.

Lemma scan_inv_foldl alnum_test l :
  scan_inv alnum_test l (foldl (garbage_scan_step alnum_test) garbage_scan_init l).
Proof.
  induction l as [|c l IH] using rev_ind.
  - apply scan_inv_init.
  - rewrite foldl_app. simpl. by apply scan_inv_step.
Qed.

Lemma existsb_false_no_alnum alnum_test l :
  existsb alnum_test l = false <-> no_alnum alnum_test l.
Proof.
  unfold no_alnum. induction l as [|x l IH]; simpl.
  - split; [|done]. intros _ c Hc. by apply elem_of_nil in Hc.
  - rewrite orb_false_iff, IH. split.
    + intros [Hx Hl] c Hc. apply elem_of_cons in Hc as [->|Hc]; auto.
    + intros H. split; [apply H; left|intros c Hc; apply H; by right].
Qed.

(** The filter, for a non-NULL text, decides [rejects] on the trimmed text. *)
Lemma is_garbage_with_spec alnum_test text :
  is_garbage_with alnum_test (Some text) = true <->
  rejects alnum_test (trimmed text).
Proof.
  unfold is_garbage_with, trimmed, rejects.
  rewrite skip_leading_space_drop.
  set (t := drop_while isspace text).
  rewrite <- (trim_trailing_full isspace t).
  set (len := trim_trailing isspace t (length t)).
  assert (Hle : len <= length t) by apply trim_trailing_le.
  assert (Htl : length (take len t) = len) by (rewrite length_take; lia).
  destruct t as [|c0 t0] eqn:Ht.
  { split; [intros _; left; by rewrite take_nil|done]. }
  rewrite <- Ht in *. clearbody t. clear Ht.
  destruct (len =? 0) eqn:Hz.
  { apply Nat.eqb_eq in Hz. rewrite Hz, take_0. split; [by left|done]. }
  apply Nat.eqb_neq in Hz.
  destruct (scan_inv_foldl alnum_test (take len t)) as (_ & _ & Hu & Ha).
  rewrite Hu, Ha, Htl.
  assert (Hne : take len t <> []).
  { intros E. rewrite E in Htl. simpl in Htl. lia. }
  destruct (existsb alnum_test (take len t)) eqn:He; simpl.
  - rewrite !andb_false_r. split; [done|].
    intros [E|[[_ Hn]|[_ Hn]]]; [done| |];
      apply existsb_false_no_alnum in Hn; congruence.
  - apply existsb_false_no_alnum in He. rewrite !andb_true_r.
    destruct (distinct (take len t) <=? 2) eqn:Hd.
    + apply Nat.leb_le in Hd. split; [|done]. intros _. right; left. done.
    + apply Nat.leb_gt in Hd.
      destruct (len <? 3) eqn:Hl3.
      * apply Nat.ltb_lt in Hl3. split; [|done]. intros _. right; right. done.
      * apply Nat.ltb_ge in Hl3. split; [done|].
        intros [E|[[Hd' _]|[Hl' _]]]; [done|lia|lia].
Qed.

(** ** Proofs: what trimming keeps *)

Lemma drop_while_keeps {A} (p : A -> bool) l x :
  x ∈ l -> p x = false -> x ∈ drop_while p l.
Proof.
  induction l as [|y l IH]; simpl; intros Hin Hx; [done|].
  destruct (p y) eqn:Hy; [|done].
  apply elem_of_cons in Hin as [->|Hin]; [congruence|auto].
Qed.

Lemma drop_end_while_keeps {A} (p : A -> bool) l x :
  x ∈ l -> p x = false -> x ∈ drop_end_while p l.
Proof.
  intros Hin Hx. unfold drop_end_while.
  rewrite list_elem_of_In, <- in_rev, <- list_elem_of_In.
  apply drop_while_keeps; [|done].
  by rewrite list_elem_of_In, <- in_rev, <- list_elem_of_In.
Qed.

Lemma trimmed_keeps text c : c ∈ text -> isspace c = false -> c ∈ trimmed text.
Proof.
  intros Hin Hc. unfold trimmed.
  apply drop_end_while_keeps; [|done]. by apply drop_while_keeps.
Qed.

Lemma lead_byte_not_space c : 192 <= uchar c -> isspace c = false.
Proof.
  intros H. unfold isspace. cbv zeta.
  destruct (Nat.eqb_spec (uchar c) 32); [lia|].
  destruct (Nat.leb_spec (uchar c) 13); [lia|].
  by rewrite andb_false_r.
Qed.

Lemma lead_byte_not_isalnum c : 192 <= uchar c -> isalnum c = false.
Proof.
  intros H. unfold isalnum, isdigit, isupper, islower. cbv zeta.
  destruct (Nat.leb_spec (uchar c) 57); [lia|].
  destruct (Nat.leb_spec (uchar c) 90); [lia|].
  destruct (Nat.leb_spec (uchar c) 122); [lia|].
  by rewrite !andb_false_r.
Qed.

(** ** The garbage filter: claims *)

(** C4, as stated, fails for the uinput build: the text "¡" (bytes C2 A1)
    is non-empty after trimming, has at most two distinct characters and no
    alphanumeric one, so the stated rule rejects it; the filter accepts it,
    because the lead byte C2 sets [has_alnum]. *)
Lemma is_garbage_lead_byte_counterexample :
  rejects isalnum (trimmed inverted_exclamation) /\
  Uinput.is_garbage (Some inverted_exclamation) = false.
Proof.
  split; [|by vm_compute].
  right; left. split; [vm_compute; lia|].
  intros c Hc. vm_compute in Hc.
  apply elem_of_cons in Hc as [->|Hc]; [done|].
  apply elem_of_cons in Hc as [->|Hc]; [done|].
  by apply elem_of_nil in Hc.
Qed.

(** C4 (amended): the filter is a function of the trimmed text alone and
    rejects exactly when the trimmed text is empty, or it has at most two
    distinct bytes and no byte passes the build's alphanumeric test, or it is
    shorter than three bytes and no byte passes that test.  The test is
    [isalnum] in the X11 build and [isalnum(c) || c >= 0xC0] in the uinput
    build.  Both builds reject "" and "..." and accept "ok" and "xyz". *)
Theorem is_garbage_rejects_exactly :
  (forall text,
     (Uinput.is_garbage (Some text) = true <->
      rejects Uinput.alnum_test (trimmed text)) /\
     (X11.is_garbage (Some text) = true <->
      rejects isalnum (trimmed text))) /\
  (Uinput.is_garbage (Some (cstr "")) = true /\
   Uinput.is_garbage (Some (cstr "...")) = true /\
   Uinput.is_garbage (Some (cstr "ok")) = false /\
   Uinput.is_garbage (Some (cstr "xyz")) = false) /\
  (X11.is_garbage (Some (cstr "")) = true /\
   X11.is_garbage (Some (cstr "...")) = true /\
   X11.is_garbage (Some (cstr "ok")) = false /\
   X11.is_garbage (Some (cstr "xyz")) = false).
Proof.
  split; [|by vm_compute].
  intros text. split; apply is_garbage_with_spec.
Qed.

(** C10: in the uinput build a text containing a byte >= 0xC0 is never
    rejected, whatever its length and diversity; the X11 build has no such
    exemption: that byte is not alphanumeric for it, and it still applies the
    low-diversity and short-length rules, looking at ASCII letters and digits
    only. *)
Theorem lead_byte_exemption text c :
  c ∈ text -> 192 <= uchar c ->
  Uinput.alnum_test c = true /\
  Uinput.is_garbage (Some text) = false /\
  X11.alnum_test c = false /\
  (X11.is_garbage (Some text) = true <->
   (distinct (trimmed text) <= 2 \/ length (trimmed text) < 3) /\
   no_alnum isalnum (trimmed text)).
Proof.
  intros Hin Hc.
  assert (Ht : c ∈ trimmed text)
    by (apply trimmed_keeps; [done|by apply lead_byte_not_space]).
  assert (Ha : Uinput.alnum_test c = true).
  { unfold Uinput.alnum_test. apply orb_true_iff. right. by apply Nat.leb_le. }
  split; [done|]. split; [|split].
  - apply not_true_is_false. intros Hg.
    apply is_garbage_with_spec in Hg as [E|[[_ Hn]|[_ Hn]]].
    + rewrite E in Ht. by apply elem_of_nil in Ht.
    + specialize (Hn c Ht). congruence.
    + specialize (Hn c Ht). congruence.
  - by apply lead_byte_not_isalnum.
  - unfold X11.is_garbage. rewrite is_garbage_with_spec. unfold rejects. split.
    + intros [E|[[H1 H2]|[H1 H2]]]; [|by auto|by auto].
      rewrite E in Ht. by apply elem_of_nil in Ht.
    + intros [[H1|H1] H2]; auto.
Qed.

(** The text "é" (bytes C3 A9) is accepted by the uinput build and
    rejected by the X11 build. *)
Lemma lead_byte_exemption_witness :
  Uinput.is_garbage (Some e_acute) = false /\
  X11.is_garbage (Some e_acute) = true.
Proof.
  assert (Hin : "195"%char ∈ e_acute) by (unfold e_acute; apply elem_of_cons; by left).
  assert (Hc : 192 <= uchar "195"%char) by (vm_compute; lia).
  destruct (lead_byte_exemption e_acute "195"%char Hin Hc) as (_ & Hu & _ & _).
  split; [exact Hu|reflexivity].
Defined.

(** ** Proofs: the ring buffer against its contents *)

(** Case analysis on a well-formed queue: five slots, a head in 0..4 and a
    count in 0..5. *)
Ltac queue_cases q :=
  let Hl := fresh "Hl" in let Hh := fresh "Hh" in
  let Hc := fresh "Hc" in let Ht := fresh "Ht" in
  destruct q as [its h t c]; intros (Hl & Hh & Hc & Ht);
  unfold MAX_QUEUE_SIZE in *; cbn [items head tail count] in *;
  destruct its as [|s0 [|s1 [|s2 [|s3 [|s4 [|s5 its]]]]]]; try discriminate Hl;
  assert (h = 0 \/ h = 1 \/ h = 2 \/ h = 3 \/ h = 4)%Z as Hh' by lia;
  assert (c = 0 \/ c = 1 \/ c = 2 \/ c = 3 \/ c = 4 \/ c = 5)%Z as Hc' by lia;
  clear Hl Hh Hc;
  destruct Hh' as [->|[->|[->|[->| ->]]]];
  destruct Hc' as [->|[->|[->|[->|[->| ->]]]]];
  subst t.

Lemma queue_init_wf : queue_wf queue_init.
Proof. unfold queue_wf, queue_init, MAX_QUEUE_SIZE. simpl. repeat split; lia. Qed.

Lemma contents_length q :
  (0 <= count q)%Z -> Z.of_nat (length (contents q)) = count q.
Proof. intros H. unfold contents. rewrite length_fmap, length_seq. lia. Qed.

Lemma queue_push_wf q s len : queue_wf q -> queue_wf (snd (queue_push q s len)).
Proof. queue_cases q; vm_compute; repeat split; congruence. Qed.

Lemma queue_push_contents q s len :
  queue_wf q ->
  contents (snd (queue_push q s len)) =
    (if (count q =? MAX_QUEUE_SIZE)%Z then drop 1 (contents q) else contents q)
      ++ [Segment s len].
Proof. queue_cases q; reflexivity. Qed.

Lemma queue_push_freed q s len :
  queue_wf q ->
  fst (queue_push q s len) =
    if (count q =? MAX_QUEUE_SIZE)%Z then samples <$> take 1 (contents q) else [].
Proof. queue_cases q; reflexivity. Qed.

Lemma queue_pop_wf q running : queue_wf q -> queue_wf (snd (queue_pop q running)).
Proof.
  queue_cases q; destruct running; vm_compute;
    repeat split; congruence.
Qed.

Lemma queue_pop_contents q running :
  queue_wf q ->
  queue_pop q running =
    match contents q with
    | [] => (if running then PopWaits else PopReturns0, q)
    | x :: _ => (PopReturns1 x, snd (queue_pop q running))
    end /\
  contents (snd (queue_pop q running)) = drop 1 (contents q).
Proof. queue_cases q; split; reflexivity. Qed.

Lemma queue_run_wf ops : queue_wf (queue_run ops).
Proof.
  unfold queue_run. induction ops as [|op ops IH] using rev_ind.
  - apply queue_init_wf.
  - rewrite foldl_app. simpl. destruct op as [s len|running]; simpl.
    + by apply queue_push_wf.
    + by apply queue_pop_wf.
Qed.

Lemma queue_wf_count q :
  queue_wf q -> (0 <= count q <= MAX_QUEUE_SIZE)%Z.
Proof. by intros (_ & _ & H & _). Qed.

Lemma push_all_spec q xs :
  queue_wf q ->
  let all := contents q ++ xs in
  let excess := length all - Z.to_nat MAX_QUEUE_SIZE in
  queue_wf (snd (push_all q xs)) /\
  contents (snd (push_all q xs)) = drop excess all /\
  fst (push_all q xs) = samples <$> take excess all.
Proof.
  revert q. induction xs as [|x xs IH]; intros q Hwf; cbv zeta.
  - simpl. rewrite app_nil_r.
    pose proof (contents_length q) as Hlen.
    pose proof (queue_wf_count q Hwf) as Hc.
    replace (length (contents q) - Z.to_nat MAX_QUEUE_SIZE) with 0 by lia.
    by rewrite drop_0, take_0.
  - simpl.
    pose proof (queue_push_wf q (samples x) (n x) Hwf) as Hwf1.
    pose proof (queue_push_contents q (samples x) (n x) Hwf) as Hc1.
    pose proof (queue_push_freed q (samples x) (n x) Hwf) as Hf1.
    pose proof (contents_length q) as Hlen.
    pose proof (queue_wf_count q Hwf) as Hc.
    destruct (queue_push q (samples x) (n x)) as [freed q1]; simpl in *.
    specialize (IH q1 Hwf1). cbv zeta in IH. destruct IH as (IH1 & IH2 & IH3).
    destruct (push_all q1 xs) as [freed' q2]; simpl in *.
    split; [done|]. rewrite IH2, IH3, Hc1, Hf1.
    assert (Hx : Segment (samples x) (n x) = x) by (by destruct x).
    rewrite Hx. unfold MAX_QUEUE_SIZE in *.
    destruct (Z.eqb_spec (count q) 5) as [Hfull|Hnot].
    + destruct (contents q) as [|y l] eqn:Hq; simpl in *; [lia|].
      assert (Hl4 : length l = 4) by lia.
      destruct l as [|a [|b [|c [|d [|e l]]]]]; try discriminate Hl4.
      rewrite drop_0. simpl.
      replace (length xs - 0) with (length xs) by lia. done.
    + rewrite <- !app_assoc. simpl.
      rewrite !length_app. simpl. done.
Qed.

Lemma pop_many_spec k q :
  queue_wf q -> fst (pop_many k q) = take k (contents q).
Proof.
  revert q. induction k as [|k IH]; intros q Hwf; simpl; [done|].
  destruct (queue_pop_contents q false Hwf) as [Hp Hd].
  pose proof (queue_pop_wf q false Hwf) as Hwf1.
  rewrite Hp. destruct (contents q) as [|x l]; [done|].
  specialize (IH _ Hwf1). rewrite Hd in IH. simpl in IH.
  destruct (pop_many k (snd (queue_pop q false))) as [outs q2]; simpl in *.
  by rewrite IH.
Qed.

(** ** The queue: claims *)

(** C2: in every state reachable by pushes and pops the count stays within
    0..5 and equals the number of queued segments; a push onto that state
    always stores the new segment as the newest one, and when the queue is
    full it first frees exactly the oldest queued segment and drops it, so the
    count is still at most 5 afterwards. *)
Theorem queue_count_bounded ops s len :
  let q := queue_run ops in
  let q' := snd (queue_push q s len) in
  let freed := fst (queue_push q s len) in
  (0 <= count q <= MAX_QUEUE_SIZE)%Z /\
  count q = Z.of_nat (length (contents q)) /\
  (0 <= count q' <= MAX_QUEUE_SIZE)%Z /\
  (if (count q =? MAX_QUEUE_SIZE)%Z
   then freed = samples <$> take 1 (contents q) /\
        contents q' = drop 1 (contents q) ++ [Segment s len] /\
        count q' = MAX_QUEUE_SIZE
   else freed = [] /\
        contents q' = contents q ++ [Segment s len] /\
        count q' = (count q + 1)%Z).
Proof.
  cbv zeta.
  pose proof (queue_run_wf ops) as Hwf.
  pose proof (queue_wf_count _ Hwf) as Hc.
  pose proof (queue_push_wf _ s len Hwf) as Hwf'.
  pose proof (queue_wf_count _ Hwf') as Hc'.
  pose proof (contents_length _ (proj1 Hc)) as Hl.
  pose proof (contents_length _ (proj1 Hc')) as Hl'.
  rewrite (queue_push_contents _ s len Hwf) in *.
  rewrite (queue_push_freed _ s len Hwf).
  split; [done|]. split; [done|]. split; [done|].
  destruct (Z.eqb_spec (count (queue_run ops)) MAX_QUEUE_SIZE) as [Hfull|Hnot].
  - split; [done|]. split; [done|].
    rewrite <- Hl'. rewrite length_app, length_drop. simpl.
    unfold MAX_QUEUE_SIZE in *. lia.
  - split; [done|]. split; [done|].
    rewrite <- Hl'. rewrite length_app. simpl. lia.
Qed.


(** ** Proofs: the command matcher *)

Lemma phrase_matches_at_spec text pos p :
  phrase_matches_at text pos p = true <->
  tolower <$> take (length p) (drop pos text) = p.
Proof.
  revert pos. induction p as [|pc p IH]; intros pos; cbn [phrase_matches_at length].
  - done.
  - destruct (text !! pos) as [c|] eqn:Hc.
    + rewrite (drop_S _ _ _ Hc). cbn [take]. rewrite fmap_cons.
      destruct (decide (tolower c = pc)) as [->|Hne].
      * rewrite IH. split; [by intros ->|congruence].
      * split; [done|congruence].
    + apply lookup_ge_None in Hc. rewrite drop_ge by done. by rewrite take_nil.
Qed.

Lemma phrase_matches_at_take text len pos p :
  pos + length p <= len ->
  phrase_matches_at (take len text) pos p = phrase_matches_at text pos p.
Proof.
  revert pos. induction p as [|pc p IH]; intros pos Hle; simpl in *; [done|].
  rewrite lookup_take_lt by lia.
  destruct (text !! pos) as [c|]; [|done].
  destruct (decide (tolower c = pc)); [|done]. apply IH. lia.
Qed.

(** The matcher reads only the first [len] bytes of the text. *)
Lemma command_matches_take text len cmd :
  command_matches (take len text) len cmd = command_matches text len cmd.
Proof.
  unfold command_matches. cbv zeta.
  destruct (Nat.ltb_spec len (length (phrase cmd))) as [|Hle]; [done|].
  rewrite phrase_matches_at_take by lia.
  destruct (phrase_matches_at text _ _); simpl; [|done].
  destruct (Nat.ltb_spec 0 (len - length (phrase cmd))) as [Hpos|]; [|done].
  by rewrite lookup_take_lt by lia.
Qed.

Lemma match_in_table_take cmds text len :
  match_in_table cmds (take len text) len = match_in_table cmds text len.
Proof.
  induction cmds as [|cmd rest IH]; simpl; [done|].
  by rewrite command_matches_take, IH.
Qed.

Lemma table_lowercase cmd :
  cmd ∈ g_commands -> tolower <$> phrase cmd = phrase cmd.
Proof.
  unfold g_commands. rewrite !elem_of_cons, elem_of_nil.
  intros [->|[->|[->|[->|[]]]]]; reflexivity.
Qed.

Lemma command_matches_spec text cmd :
  cmd ∈ g_commands ->
  command_matches text (length text) cmd = true <->
  trailing_phrase text (phrase cmd) (length text - length (phrase cmd)).
Proof.
  intros Hin. unfold command_matches, trailing_phrase. cbv zeta.
  rewrite (table_lowercase cmd Hin).
  set (plen := length (phrase cmd)). set (len := length text).
  destruct (Nat.ltb_spec len plen) as [Hlt|Hle].
  { split; [done|]. intros (H & _). lia. }
  destruct (phrase_matches_at text (len - plen) (phrase cmd)) eqn:Hm; simpl.
  - apply phrase_matches_at_spec in Hm. fold plen in Hm.
    rewrite take_ge in Hm by (rewrite length_drop; fold len; lia).
    destruct (Nat.ltb_spec 0 (len - plen)) as [Hpos|Hz]; simpl.
    + destruct (bool_decide_reflect (text !! (len - plen - 1) = Some " "%char))
        as [Hsp|Hsp]; simpl.
      * split; [intros _|done]. repeat split; [lia|done|by right].
      * split; [done|]. intros (_ & _ & [Hz|Hsp']); [lia|done].
    + split; [intros _|done]. repeat split; [lia|done|left; lia].
  - split; [done|]. intros (_ & Hp & _).
    assert (phrase_matches_at text (len - plen) (phrase cmd) = true); [|congruence].
    apply phrase_matches_at_spec. fold plen.
    rewrite take_ge by (rewrite length_drop; fold len; lia). done.
Qed.

Lemma trailing_phrase_start text p start :
  trailing_phrase text p start -> start = length text - length p.
Proof. intros (H & _). lia. Qed.

(** No phrase of the table is a proper suffix of another one, so at most one
    entry can match a given text. *)
Lemma table_suffix_free cmd1 cmd2 :
  cmd1 ∈ g_commands -> cmd2 ∈ g_commands ->
  phrase cmd2 = drop (length (phrase cmd1) - length (phrase cmd2)) (phrase cmd1) ->
  cmd1 = cmd2.
Proof.
  unfold g_commands. rewrite !elem_of_cons, !elem_of_nil.
  intros [->|[->|[->|[->|[]]]]] [->|[->|[->|[->|[]]]]] H;
    first [reflexivity | vm_compute in H; discriminate H].
Qed.

Lemma trailing_phrase_unique text cmd1 cmd2 s1 s2 :
  cmd1 ∈ g_commands -> cmd2 ∈ g_commands ->
  trailing_phrase text (phrase cmd1) s1 ->
  trailing_phrase text (phrase cmd2) s2 ->
  cmd1 = cmd2.
Proof.
  assert (Hgen : forall c1 c2 t1 t2,
    c1 ∈ g_commands -> c2 ∈ g_commands ->
    trailing_phrase text (phrase c1) t1 ->
    trailing_phrase text (phrase c2) t2 ->
    t1 <= t2 -> c1 = c2).
  { intros c1 c2 t1 t2 H1 H2 (Hl1 & Hp1 & _) (Hl2 & Hp2 & _) Hle.
    apply table_suffix_free; [done|done|].
    rewrite table_lowercase in Hp1, Hp2 by done.
    rewrite <- Hp2, <- Hp1.
    rewrite <- fmap_drop, drop_drop. do 2 f_equal.
    rewrite !length_fmap, !length_drop. lia. }
  intros H1 H2 Ht1 Ht2.
  destruct (Nat.le_ge_cases s1 s2) as [Hle|Hge].
  - by eapply Hgen.
  - symmetry. by eapply Hgen.
Qed.

Lemma match_in_table_spec cmds text len :
  match match_in_table cmds text len with
  | Some (cmd, start) =>
      cmd ∈ cmds /\ command_matches text len cmd = true /\
      start = len - length (phrase cmd)
  | None => forall cmd, cmd ∈ cmds -> command_matches text len cmd = false
  end.
Proof.
  induction cmds as [|cmd rest IH]; simpl.
  - intros cmd Hin. by apply elem_of_nil in Hin.
  - destruct (command_matches text len cmd) eqn:Hm.
    + repeat split; [by left|done].
    + destruct (match_in_table rest text len) as [[cmd' start]|].
      * destruct IH as (Hin & Hm' & Hs). repeat split; [by right|done|done].
      * intros cmd' Hin. apply elem_of_cons in Hin as [->|Hin]; auto.
Qed.

(** ** The stated vocabulary and the tests of the program *)

Lemma tolower_fold_case c : tolower c = fold_case c.
Proof. destruct c as [[] [] [] [] [] [] [] []]; reflexivity. Qed.

Lemma isspace_whitespace c : isspace c = bool_decide (c ∈ whitespace).
Proof. destruct c as [[] [] [] [] [] [] [] []]; reflexivity. Qed.

Lemma is_sentence_end_stated c :
  is_sentence_end c = bool_decide (c ∈ whitespace ++ sentence_punctuation).
Proof. destruct c as [[] [] [] [] [] [] [] []]; reflexivity. Qed.

Lemma is_blank_stated c : is_blank c = bool_decide (c ∈ [" "%char]).
Proof. destruct c as [[] [] [] [] [] [] [] []]; reflexivity. Qed.

Lemma drop_while_ext {A} (p q : A -> bool) l :
  (forall x, p x = q x) -> drop_while p l = drop_while q l.
Proof.
  intros Hpq. induction l as [|x l IH]; simpl; [done|].
  rewrite <- Hpq. by destruct (p x).
Qed.

Lemma drop_end_while_ext {A} (p q : A -> bool) l :
  (forall x, p x = q x) -> drop_end_while p l = drop_end_while q l.
Proof. intros Hpq. unfold drop_end_while. by rewrite (drop_while_ext p q). Qed.

Lemma fmap_tolower (l : list ascii) : tolower <$> l = fold_case <$> l.
Proof.
  induction l as [|c l IH]; [done|].
  by rewrite !fmap_cons, IH, tolower_fold_case.
Qed.

Lemma trailing_phrase_stated text p start :
  trailing_phrase text p start <-> ends_with_phrase text p start.
Proof. unfold trailing_phrase, ends_with_phrase. by rewrite !fmap_tolower. Qed.

(** The matcher, in the stated vocabulary. *)
Lemma match_trailing_command_stated text :
  match match_trailing_command text (length text) with
  | Some (cmd, start) =>
      cmd ∈ g_commands /\
      ends_with_phrase text (phrase cmd) start /\
      forall cmd' start',
        cmd' ∈ g_commands -> ends_with_phrase text (phrase cmd') start' ->
        cmd' = cmd /\ start' = start
  | None =>
      forall cmd start,
        cmd ∈ g_commands -> ~ ends_with_phrase text (phrase cmd) start
  end.
Proof.
  unfold match_trailing_command.
  pose proof (match_in_table_spec g_commands text (length text)) as H.
  destruct (match_in_table g_commands text (length text)) as [[cmd start]|].
  - destruct H as (Hin & Hm & ->).
    apply command_matches_spec in Hm; [|done].
    split; [done|]. split; [by apply trailing_phrase_stated|].
    intros cmd' start' Hin' Ht'%trailing_phrase_stated.
    assert (cmd' = cmd) as -> by (by eapply trailing_phrase_unique).
    split; [done|]. by apply trailing_phrase_start.
  - intros cmd start Hin Ht%trailing_phrase_stated.
    pose proof (trailing_phrase_start _ _ _ Ht) as ->.
    apply command_matches_spec in Ht; [|done].
    rewrite (H cmd Hin) in Ht. done.
Qed.

(** ** The command matcher: claim *)


(** ** Proofs: the worker *)

Lemma drop_while_stable {A} (p q : A -> bool) l :
  (forall x, p x = true -> q x = true) ->
  drop_while p (drop_while q l) = drop_while q l.
Proof.
  intros Hpq. induction l as [|x l IH]; simpl; [done|].
  destruct (q x) eqn:Hq; [done|]. simpl.
  destruct (p x) eqn:Hp; [|done]. apply Hpq in Hp. congruence.
Qed.

Lemma drop_end_while_stable {A} (p q : A -> bool) l :
  (forall x, p x = true -> q x = true) ->
  drop_end_while p (drop_end_while q l) = drop_end_while q l.
Proof.
  intros Hpq. unfold drop_end_while. rewrite rev_involutive.
  by rewrite drop_while_stable.
Qed.

Lemma is_blank_sentence_end c : is_blank c = true -> is_sentence_end c = true.
Proof.
  unfold is_blank. intros H. apply bool_decide_eq_true in H. by subst c.
Qed.

Lemma match_in_table_start cmds text len cmd start :
  match_in_table cmds text len = Some (cmd, start) -> start <= len.
Proof.
  intros H. pose proof (match_in_table_spec cmds text len) as Hs.
  rewrite H in Hs. destruct Hs as (_ & _ & ->). lia.
Qed.

(** The worker, on a text that passed the filter, does what is stated. *)
Lemma transcription_worker_result_spec r_text :
  transcription_worker_result (Some (Some r_text)) =
  if Uinput.is_garbage (Some r_text) then [] else worker_spec r_text.
Proof.
  unfold transcription_worker_result, worker_spec.
  destruct (Uinput.is_garbage (Some r_text)); [done|]. cbv zeta.
  rewrite skip_leading_space_drop.
  set (text := drop_while isspace r_text).
  set (tlen := trim_trailing is_sentence_end text (length text)).
  assert (Hle : tlen <= length text) by apply trim_trailing_le.
  assert (Ht : drop_end_while is_sentence_end text = take tlen text)
    by (symmetry; apply trim_trailing_full).
  rewrite Ht. rewrite length_take, Nat.min_l by done.
  unfold match_trailing_command. rewrite match_in_table_take.
  assert (Hgen : forall s, s <= tlen ->
    (if 0 <? trim_trailing is_blank text s
     then [TyperType (take (trim_trailing is_blank text s) text ++ [" "%char])]
     else []) =
    match drop_end_while is_blank (take s (take tlen text)) with
    | [] => []
    | _ :: _ =>
        [TyperType (drop_end_while is_blank (take s (take tlen text)) ++ [" "%char])]
    end).
  { intros s Hs. rewrite take_take, Nat.min_l by done.
    rewrite <- trim_trailing_take by lia.
    pose proof (trim_trailing_le is_blank text s) as Hle'.
    destruct (Nat.ltb_spec 0 (trim_trailing is_blank text s)) as [Hpos|Hz].
    - destruct (take (trim_trailing is_blank text s) text) eqn:E; [|done].
      apply (f_equal length) in E. rewrite length_take in E. simpl in E. lia.
    - replace (trim_trailing is_blank text s) with 0 by lia. by rewrite take_0. }
  destruct (match_in_table g_commands text tlen) as [[cmd start]|] eqn:Hm.
  - apply match_in_table_start in Hm. by rewrite (Hgen start Hm).
  - rewrite (Hgen tlen (le_n _)). rewrite firstn_all2 by (rewrite length_take; lia).
    rewrite <- Ht. rewrite drop_end_while_stable by apply is_blank_sentence_end.
    done.
Qed.

(** The worker, in the stated vocabulary. *)
Lemma worker_spec_stated r_text :
  let t := strip_trailing (whitespace ++ sentence_punctuation)
             (strip_leading whitespace r_text) in
  (forall cmd start,
     cmd ∈ g_commands -> ends_with_phrase t (phrase cmd) start ->
     worker_spec r_text =
       typed_with_space (strip_trailing [" "%char] (take start t))
       ++ [TyperPress (keycode cmd) (ctrl cmd)]) /\
  ((forall cmd start,
      cmd ∈ g_commands -> ~ ends_with_phrase t (phrase cmd) start) ->
   worker_spec r_text = typed_with_space t).
Proof.
  cbv zeta. unfold worker_spec, strip_trailing, strip_leading.
  rewrite (drop_while_ext isspace _ _ isspace_whitespace).
  rewrite (drop_end_while_ext is_sentence_end _ _ is_sentence_end_stated).
  set (t := drop_end_while _ (drop_while _ r_text)).
  pose proof (match_trailing_command_stated t) as Hm.
  destruct (match_trailing_command t (length t)) as [[cmd0 start0]|].
  - destruct Hm as (Hin & Hend & Honly). split.
    + intros cmd start Hcmd Hstart.
      destruct (Honly cmd start Hcmd Hstart) as [-> ->].
      rewrite (drop_end_while_ext is_blank _ _ is_blank_stated).
      by destruct (drop_end_while _ (take start0 t)).
    + intros Hnone. by destruct (Hnone cmd0 start0 Hin).
  - split.
    + intros cmd start Hcmd Hstart. by destruct (Hm cmd start Hcmd).
    + intros _. rewrite app_nil_r. by destruct t.
Qed.

(** ** The worker: claim *)

(** C1: for a recognition result that passes the garbage filter the worker
    trims leading whitespace, then trailing whitespace and '.', ',', '!', '?',
    runs the command matcher on the trimmed text, strips the spaces before a
    matched command, types what remains (when non-empty) followed by one
    space, and then presses the matched command's key; a rejected result
    produces no call.  "hello world." types "hello world " and presses
    nothing; "cancel it" types nothing and presses Ctrl+C; " Please  PRESS
    Enter!?" types "Please " and presses Enter; "--" is rejected. *)
Theorem transcription_worker_injects :
  (forall r_text,
     let t := strip_trailing (whitespace ++ sentence_punctuation)
                (strip_leading whitespace r_text) in
     let calls := transcription_worker_result (Some (Some r_text)) in
     if Uinput.is_garbage (Some r_text) then calls = []
     else
       (forall cmd start,
          cmd ∈ g_commands -> ends_with_phrase t (phrase cmd) start ->
          calls = typed_with_space (strip_trailing [" "%char] (take start t))
                  ++ [TyperPress (keycode cmd) (ctrl cmd)]) /\
       ((forall cmd start,
           cmd ∈ g_commands -> ~ ends_with_phrase t (phrase cmd) start) ->
        calls = typed_with_space t)) /\
  transcription_worker_result (Some (Some (cstr "hello world."))) =
    [TyperType (cstr "hello world ")] /\
  transcription_worker_result (Some (Some (cstr "cancel it"))) =
    [TyperPress KEY_C 1] /\
  transcription_worker_result (Some (Some (cstr " Please  PRESS Enter!?"))) =
    [TyperType (cstr "Please "); TyperPress KEY_ENTER 0] /\
  transcription_worker_result (Some (Some (cstr "--"))) = [] /\
  (forall s_fd,
     typer_press s_fd KEY_C 1 =
     if (s_fd <? 0)%Z then []
     else [InputEvent EV_KEY KEY_LEFTCTRL 1; InputEvent EV_SYN SYN_REPORT 0;
           InputEvent EV_KEY KEY_C 1; InputEvent EV_SYN SYN_REPORT 0;
           InputEvent EV_KEY KEY_C 0; InputEvent EV_SYN SYN_REPORT 0;
           InputEvent EV_KEY KEY_LEFTCTRL 0; InputEvent EV_SYN SYN_REPORT 0]).
Proof.
  split.
  { intros r_text. cbv zeta. rewrite transcription_worker_result_spec.
    destruct (Uinput.is_garbage (Some r_text)); [done|].
    apply worker_spec_stated. }
  split; [by vm_compute|]. split; [by vm_compute|].
  split; [by vm_compute|]. split; [by vm_compute|].
  intros s_fd. unfold typer_press. by destruct (s_fd <? 0)%Z.
Qed.

(** ** Proofs: the layout scan *)

Lemma scan_fold_app {A B} (body : A -> B -> scan A) l1 l2 a :
  scan_fold body (l1 ++ l2) a =
  match scan_fold body l1 a with
  | Return r => Return r
  | Continue a' => scan_fold body l2 a'
  end.
Proof.
  revert a. induction l1 as [|x l1 IH]; intros a; simpl; [done|].
  destruct (body a x); [done|]. apply IH.
Qed.

Section TyperProofs.

Context (xkb_utf32_to_keysym : N -> N) (s_keymap : xkb_keymap).

Lemma lookup_levels_flat target kc layout levels result :
  scan_fold (lookup_triple s_keymap target)
    (level ← levels; [(kc, layout, level)]) result =
  scan_fold (lookup_level s_keymap target kc layout) levels result.
Proof.
  revert result. induction levels as [|level levels IH]; intros result; [done|].
  rewrite bind_cons, scan_fold_app. simpl. unfold lookup_triple at 1. simpl.
  destruct (lookup_level s_keymap target kc layout result level); [done|].
  apply IH.
Qed.

Lemma lookup_layouts_flat target kc layouts result :
  scan_fold (lookup_triple s_keymap target)
    (layout ← layouts;
     level ← seq 0 (xkb_keymap_num_levels_for_key s_keymap kc layout);
     [(kc, layout, level)]) result =
  scan_fold (lookup_layout s_keymap target kc) layouts result.
Proof.
  revert result. induction layouts as [|layout layouts IH]; intros result; [done|].
  rewrite bind_cons, scan_fold_app, lookup_levels_flat. cbn [scan_fold].
  change (lookup_layout s_keymap target kc result layout)
    with (scan_fold (lookup_level s_keymap target kc layout)
            (seq 0 (xkb_keymap_num_levels_for_key s_keymap kc layout)) result).
  destruct (scan_fold _ (seq 0 _) result); [done|]. apply IH.
Qed.

Lemma lookup_keys_flat target kcs result :
  scan_fold (lookup_triple s_keymap target)
    (kc ← kcs;
     layout ← seq 0 (xkb_keymap_num_layouts_for_key s_keymap kc);
     level ← seq 0 (xkb_keymap_num_levels_for_key s_keymap kc layout);
     [(kc, layout, level)]) result =
  scan_fold (lookup_key s_keymap target) kcs result.
Proof.
  revert result. induction kcs as [|kc kcs IH]; intros result; [done|].
  rewrite bind_cons, scan_fold_app, lookup_layouts_flat. cbn [scan_fold].
  change (lookup_key s_keymap target result kc)
    with (scan_fold (lookup_layout s_keymap target kc)
            (seq 0 (xkb_keymap_num_layouts_for_key s_keymap kc)) result).
  destruct (scan_fold _ (seq 0 _) result); [done|]. apply IH.
Qed.

Lemma lookup_triple_cases target result t :
  lookup_triple s_keymap target result t =
  if produces s_keymap target t
  then (if in_primary_group t then Return (binding s_keymap t)
        else Continue (binding s_keymap t))
  else Continue result.
Proof.
  unfold lookup_triple, lookup_level, produces, syms_at, in_primary_group, binding.
  destruct (xkb_keymap_key_get_syms_by_level s_keymap t.1.1 t.1.2 t.2)
    as [|sym [|sym' syms]]; try done; by destruct (sym =? target)%N.
Qed.

Lemma scan_triples_spec target ts result :
  scan_fold (lookup_triple s_keymap target) ts result =
  let ms := List.filter (produces s_keymap target) ts in
  match List.find in_primary_group ms with
  | Some t => Return (binding s_keymap t)
  | None =>
      Continue (match last ms with
                | Some t => binding s_keymap t
                | None => result
                end)
  end.
Proof.
  cbv zeta. revert result. induction ts as [|t ts IH]; intros result; [done|].
  cbn [scan_fold List.filter]. rewrite lookup_triple_cases.
  destruct (produces s_keymap target t); [|apply IH].
  cbn [List.find]. destruct (in_primary_group t); [done|].
  rewrite IH. destruct (List.find _ _); [done|].
  f_equal. destruct (List.filter _ ts) as [|t' ms]; [done|].
  change (last (t :: t' :: ms)) with (last (t' :: ms)).
  destruct (last (t' :: ms)) eqn:E; [done|]. by apply last_None in E.
Qed.

(** [lookup_char] computes the stated resolution. *)
Lemma lookup_char_resolution cp :
  lookup_char xkb_utf32_to_keysym s_keymap cp =
  if (xkb_utf32_to_keysym cp =? XKB_KEY_NoSymbol)%N then not_found
  else resolution s_keymap (xkb_utf32_to_keysym cp).
Proof.
  unfold lookup_char. cbv zeta.
  destruct (xkb_utf32_to_keysym cp =? XKB_KEY_NoSymbol)%N; [done|].
  rewrite <- lookup_keys_flat. unfold keycodes. fold (scan_order s_keymap).
  rewrite scan_triples_spec. cbv zeta. fold (matches s_keymap (xkb_utf32_to_keysym cp)).
  unfold resolution.
  by destruct (List.find _ _).
Qed.

Lemma find_some_in {A} (p : A -> bool) l x :
  List.find p l = Some x -> x ∈ l /\ p x = true.
Proof.
  intros H. apply find_some in H as [H1 H2]. by rewrite list_elem_of_In.
Qed.

Lemma last_in {A} (l : list A) x : last l = Some x -> x ∈ l.
Proof.
  intros H. apply last_Some in H as [l' ->].
  rewrite elem_of_app, list_elem_of_singleton. by right.
Qed.

Lemma matches_in target t :
  t ∈ matches s_keymap target <->
  t ∈ scan_order s_keymap /\ produces s_keymap target t = true.
Proof. unfold matches. rewrite !list_elem_of_In. apply filter_In. Qed.

Lemma produces_syms target t :
  produces s_keymap target t = true <-> syms_at s_keymap t = [target].
Proof.
  unfold produces. destruct (syms_at s_keymap t) as [|sym [|sym' syms]];
    try (split; [done|congruence]).
  rewrite N.eqb_eq. split; congruence.
Qed.

(** A resolved character comes from a (key, layout, level) that matches. *)
Lemma resolution_from_match target :
  matches s_keymap target <> [] ->
  exists t, t ∈ matches s_keymap target /\
            resolution s_keymap target = binding s_keymap t.
Proof.
  intros Hne. unfold resolution.
  destruct (List.find in_primary_group (matches s_keymap target)) as [t|] eqn:Hf.
  - apply find_some_in in Hf as [Hin _]. by exists t.
  - destruct (last (matches s_keymap target)) as [t|] eqn:Hl.
    + exists t. split; [by apply last_in|done].
    + apply last_None in Hl. done.
Qed.

(** ** The layout scan: claims *)

(** C7: newline and carriage return tap Enter and tab taps Tab without any
    lookup; a code point without key symbol, or whose symbol no key of the
    layout produces, is looked up as "not found" and emits no event; otherwise
    the lookup returns the key and modifier mask of the first match of the
    primary group in scan order, and when the primary group has no match, of
    the last match found, which is in another group. *)
Theorem codepoint_resolution cp :
  let target := xkb_utf32_to_keysym cp in
  let typed := type_codepoint xkb_utf32_to_keysym s_keymap cp in
  let found := lookup_char xkb_utf32_to_keysym s_keymap cp in
  if ((cp =? 10) || (cp =? 13))%N then
    typed = [InputEvent EV_KEY KEY_ENTER 1; InputEvent EV_SYN SYN_REPORT 0;
             InputEvent EV_KEY KEY_ENTER 0; InputEvent EV_SYN SYN_REPORT 0]
  else if (cp =? 9)%N then
    typed = [InputEvent EV_KEY KEY_TAB 1; InputEvent EV_SYN SYN_REPORT 0;
             InputEvent EV_KEY KEY_TAB 0; InputEvent EV_SYN SYN_REPORT 0]
  else if (target =? XKB_KEY_NoSymbol)%N then found = not_found /\ typed = []
  else
    match List.find in_primary_group (matches s_keymap target) with
    | Some t => found = binding s_keymap t
    | None =>
        match last (matches s_keymap target) with
        | Some t => found = binding s_keymap t /\ in_primary_group t = false
        | None => found = not_found /\ typed = []
        end
    end.
Proof.
  cbv zeta. unfold type_codepoint.
  destruct ((cp =? 10) || (cp =? 13))%N; [done|].
  destruct (cp =? 9)%N; [done|].
  rewrite lookup_char_resolution. unfold resolution.
  destruct (xkb_utf32_to_keysym cp =? XKB_KEY_NoSymbol)%N; [done|].
  destruct (List.find in_primary_group _) as [t|] eqn:Hf; [done|].
  destruct (last _) as [t|] eqn:Hl; [|done].
  split; [done|]. apply last_in in Hl.
  destruct (in_primary_group t) eqn:Hp; [|done].
  apply list_elem_of_In in Hl.
  by rewrite (find_none _ _ Hf t Hl) in Hp.
Qed.

(** C6: when some (key, layout, level) of the layout produces exactly the
    key symbol of a code point, the key and modifier mask returned by the
    lookup are those of a (key, layout, level) of the layout whose symbol list
    is exactly that one symbol; converting the symbol found there back gives
    the code point again. *)
Theorem lookup_char_round_trip (keysym_to_utf32 : N -> N) cp t :
  xkb_utf32_to_keysym cp <> XKB_KEY_NoSymbol ->
  keysym_to_utf32 (xkb_utf32_to_keysym cp) = cp ->
  t ∈ scan_order s_keymap ->
  syms_at s_keymap t = [xkb_utf32_to_keysym cp] ->
  exists t',
    t' ∈ scan_order s_keymap /\
    syms_at s_keymap t' = [xkb_utf32_to_keysym cp] /\
    lookup_char xkb_utf32_to_keysym s_keymap cp = binding s_keymap t' /\
    keysym_to_utf32 <$> syms_at s_keymap t' = [cp].
Proof.
  intros Hsym Hinv Hin Ht.
  rewrite lookup_char_resolution.
  apply N.eqb_neq in Hsym. rewrite Hsym.
  destruct (resolution_from_match (xkb_utf32_to_keysym cp)) as (t' & Hm & Hr).
  { intros E. assert (Hm : t ∈ matches s_keymap (xkb_utf32_to_keysym cp)).
    { apply matches_in. split; [done|]. by apply produces_syms. }
    rewrite E in Hm. by apply elem_of_nil in Hm. }
  apply matches_in in Hm as [Hin' Hp]. apply produces_syms in Hp.
  exists t'. repeat split; try done. rewrite Hp. simpl. by rewrite Hinv.
Qed.

End TyperProofs.

(** On the example layout "@" is found on key 24 (evdev 16) with the mask of
    Mod5. *)
Lemma lookup_char_round_trip_witness :
  exists t',
    t' ∈ scan_order demo_keymap /\
    syms_at demo_keymap t' = [demo_utf32_to_keysym 64] /\
    lookup_char demo_utf32_to_keysym demo_keymap 64 = binding demo_keymap t' /\
    demo_keysym_to_utf32 <$> syms_at demo_keymap t' = [64%N].
Proof.
  apply (lookup_char_round_trip demo_utf32_to_keysym demo_keymap
           demo_keysym_to_utf32 64 (24, 0, 2)).
  - vm_compute. discriminate.
  - reflexivity.
  - vm_compute. apply list_elem_of_In. simpl. tauto.
  - reflexivity.
Defined.

(** ** Proofs: modifier keys and emission *)

Lemma mask_has_testbit mask idx :
  mask_has mask idx = N.testbit mask (N.of_nat idx).
Proof.
  unfold mask_has. rewrite N.shiftl_1_l.
  destruct (N.testbit mask (N.of_nat idx)) eqn:Hb.
  - apply negb_true_iff, N.eqb_neq. intros E.
    assert (Hl : N.testbit (N.land mask (2 ^ N.of_nat idx)) (N.of_nat idx) = true).
    { rewrite N.land_spec, Hb, N.pow2_bits_true. done. }
    rewrite E in Hl. by rewrite N.bits_0 in Hl.
  - apply negb_false_iff, N.eqb_eq. apply N.bits_inj. intros j.
    rewrite N.land_spec, N.bits_0, N.pow2_bits_eqb.
    destruct (N.eqb_spec (N.of_nat idx) j) as [<-|]; [by rewrite Hb|].
    by rewrite andb_false_r.
Qed.

Lemma take_as_lookups (ks : list Z) k :
  k <= length ks -> take k ks = (fun i => ks !!! i) <$> seq 0 k.
Proof.
  induction k as [|k IH]; intros Hk; [done|].
  destruct (lookup_lt_is_Some_2 ks k) as [x Hx]; [lia|].
  rewrite (take_S_r _ _ _ Hx), seq_S, fmap_app, <- IH by lia. simpl.
  by rewrite (list_lookup_total_correct _ _ _ Hx).
Qed.

Lemma bind_lookups {B} (ks : list Z) (g : Z -> list B) (idxs : list nat) :
  (i ← idxs; g (ks !!! i)) = (k ← (fun i => ks !!! i) <$> idxs; g k).
Proof.
  induction idxs as [|i idxs IH]; [done|].
  rewrite fmap_cons, !bind_cons. by rewrite IH.
Qed.

Lemma rev_fmap {A B} (f : A -> B) l : rev (f <$> l) = f <$> rev l.
Proof.
  induction l as [|x l IH]; [done|].
  rewrite fmap_cons. simpl. by rewrite IH, fmap_app.
Qed.

Section TyperEmission.

Context (xkb_utf32_to_keysym : N -> N) (s_keymap : xkb_keymap).

Lemma resolve_mod_inv mask entries st sel :
  length (mod_keys st) = 8 ->
  nmod st = length sel ->
  take (nmod st) (mod_keys st) = sel ->
  length sel + length entries <= 8 ->
  let st' := foldl (resolve_mod s_keymap mask) st entries in
  length (mod_keys st') = 8 /\
  nmod st' = length (sel ++ omap (selected s_keymap mask) entries) /\
  take (nmod st') (mod_keys st') = sel ++ omap (selected s_keymap mask) entries.
Proof.
  cbv zeta. revert st sel.
  induction entries as [|entry entries IH]; intros st sel Hlen Hn Htake Hroom.
  - simpl. by rewrite app_nil_r.
  - cbn [foldl length] in *.
    assert (Hstep :
      let st1 := resolve_mod s_keymap mask st entry in
      let sel1 := sel ++ match selected s_keymap mask entry with
                         | Some k => [k] | None => [] end in
      length (mod_keys st1) = 8 /\ nmod st1 = length sel1 /\
      take (nmod st1) (mod_keys st1) = sel1).
    { cbv zeta. unfold resolve_mod, selected.
      destruct (Nat.ltb_spec (nmod st) 8) as [Hlt|Hge]; [|lia].
      destruct (xkb_keymap_mod_get_index s_keymap entry.1) as [idx|];
        [|by rewrite app_nil_r].
      rewrite mask_has_testbit.
      destruct (N.testbit mask (N.of_nat idx)); [|by rewrite app_nil_r].
      cbn [mod_keys nmod]. rewrite length_insert, length_app. simpl.
      split; [done|]. split; [lia|].
      rewrite (take_S_r _ _ entry.2)
        by (apply list_lookup_insert_eq; lia).
      by rewrite take_insert_ge, Htake by lia. }
    cbv zeta in Hstep. destruct Hstep as (Hlen1 & Hn1 & Htake1).
    specialize (IH _ _ Hlen1 Hn1 Htake1).
    change (omap (selected s_keymap mask) (entry :: entries))
      with (match selected s_keymap mask entry with
            | Some k => k :: omap (selected s_keymap mask) entries
            | None => omap (selected s_keymap mask) entries
            end).
    destruct (selected s_keymap mask entry) as [k|].
    + rewrite <- app_assoc in IH. apply IH.
      rewrite length_app. simpl. lia.
    + rewrite app_nil_r in IH. apply IH. lia.
Qed.

Lemma resolve_mod_keys mask :
  let st := foldl (resolve_mod s_keymap mask) (ModState (replicate 8 0%Z) 0) mod_map in
  nmod st <= length (mod_keys st) /\
  take (nmod st) (mod_keys st) = modifier_keys s_keymap mask.
Proof.
  cbv zeta.
  destruct (resolve_mod_inv mask mod_map (ModState (replicate 8 0%Z) 0) [])
    as (Hlen & Hn & Htake); try done.
  { simpl. lia. }
  set (st := foldl _ _ mod_map) in *. split; [|exact Htake].
  assert (Hmin : nmod st = length (take (nmod st) (mod_keys st)))
    by (rewrite Htake; exact Hn).
  rewrite length_take in Hmin. lia.
Qed.

Lemma modifier_keys_order mask :
  modifier_keys s_keymap mask `sublist_of`
    [KEY_LEFTSHIFT; KEY_LEFTCTRL; KEY_LEFTALT; KEY_LEFTMETA; KEY_RIGHTALT].
Proof.
  change [KEY_LEFTSHIFT; KEY_LEFTCTRL; KEY_LEFTALT; KEY_LEFTMETA; KEY_RIGHTALT]
    with (snd <$> mod_map).
  unfold modifier_keys. generalize mod_map. intros l.
  induction l as [|entry l IH]; [constructor|].
  cbn [omap fmap list_fmap list_omap]. unfold selected at 1.
  destruct (xkb_keymap_mod_get_index s_keymap entry.1) as [idx|].
  - destruct (N.testbit mask (N.of_nat idx)).
    + by apply sublist_skip.
    + by apply sublist_cons.
  - by apply sublist_cons.
Qed.

(** The events of a resolved character. *)
Lemma type_codepoint_resolved cp :
  ((cp =? 10) || (cp =? 13) || (cp =? 9))%N = false ->
  (0 <= evdev_keycode (lookup_char xkb_utf32_to_keysym s_keymap cp))%Z ->
  let kl := lookup_char xkb_utf32_to_keysym s_keymap cp in
  let held := modifier_keys s_keymap (mods kl) in
  type_codepoint xkb_utf32_to_keysym s_keymap cp =
    (k ← held; press k)
    ++ press (evdev_keycode kl) ++ release (evdev_keycode kl)
    ++ (k ← rev held; release k).
Proof.
  intros Hctl Hkey. cbv zeta.
  unfold type_codepoint.
  apply orb_false_iff in Hctl as [Hnl Htab]. rewrite Hnl, Htab.
  destruct (Z.ltb_spec
              (evdev_keycode (lookup_char xkb_utf32_to_keysym s_keymap cp)) 0)
    as [|_]; [lia|].
  cbv zeta.
  destruct (resolve_mod_keys
              (mods (lookup_char xkb_utf32_to_keysym s_keymap cp)))
    as [Hle Hkeys].
  cbv zeta in Hle, Hkeys.
  set (st := foldl _ _ mod_map) in *.
  rewrite <- Hkeys, (take_as_lookups _ _ Hle).
  rewrite rev_fmap.
  rewrite (bind_lookups (mod_keys st)
             (fun k => emit EV_KEY k 1 ++ emit EV_SYN SYN_REPORT 0)).
  rewrite (bind_lookups (mod_keys st)
             (fun k => emit EV_KEY k 0 ++ emit EV_SYN SYN_REPORT 0)).
  reflexivity.
Qed.

(** ** Emission: claim *)


End TyperEmission.


(** ** Proofs: keystrokes of the two builds *)

Lemma strokes_key_down held k rest :
  (0 <= k < 65536)%Z -> is_modifier_key k = false ->
  uinput_strokes held (press k ++ rest) =
  ((k + EVDEV_OFFSET)%Z, (fun h => h + EVDEV_OFFSET)%Z <$> held)
    :: uinput_strokes held rest.
Proof.
  intros Hr Hk. unfold press. rewrite Z.mod_small by done. simpl. by rewrite Hk.
Qed.

Lemma strokes_key_up held k rest :
  (0 <= k < 65536)%Z -> is_modifier_key k = false ->
  uinput_strokes held (release k ++ rest) = uinput_strokes held rest.
Proof.
  intros Hr Hk. unfold release. rewrite Z.mod_small by done. simpl. by rewrite Hk.
Qed.

Lemma strokes_mod_down held m rest :
  (0 <= m < 65536)%Z -> is_modifier_key m = true ->
  uinput_strokes held (press m ++ rest) = uinput_strokes (held ++ [m]) rest.
Proof.
  intros Hr Hm. unfold press. rewrite Z.mod_small by done. simpl. by rewrite Hm.
Qed.

Lemma strokes_mod_up held m rest :
  (0 <= m < 65536)%Z -> is_modifier_key m = true ->
  uinput_strokes held (release m ++ rest) = uinput_strokes (unhold m held) rest.
Proof.
  intros Hr Hm. unfold release. rewrite Z.mod_small by done. simpl. by rewrite Hm.
Qed.

Section VariantProofs.

Context (xkb_utf32_to_keysym : N -> N) (s_keymap : xkb_keymap) (s_fd : Z)
        (XKeysymToKeycode : N -> Z) (XkbKeycodeToKeysym : Z -> N -> N -> N)
        (g_shift : Z) (g_dpy : bool).

Lemma printable_range c :
  printable c = true -> (32 <= byte c <= 126)%N.
Proof.
  unfold printable. intros H. apply negb_true_iff, orb_false_iff in H as [H1 H2].
  apply N.ltb_ge in H1, H2. lia.
Qed.

Lemma uinput_char_stroke c rest :
  g_shift = (KEY_LEFTSHIFT + EVDEV_OFFSET)%Z ->
  printable c = true ->
  lookups_agree xkb_utf32_to_keysym s_keymap XKeysymToKeycode
    XkbKeycodeToKeysym g_shift c ->
  uinput_strokes [] (type_codepoint xkb_utf32_to_keysym s_keymap (byte c) ++ rest) =
  stroke_of XKeysymToKeycode XkbKeycodeToKeysym g_shift c :: uinput_strokes [] rest.
Proof.
  intros Hshift Hp (Hkc & Hns & Hkey & Hpos & Hmod & Hheld).
  apply printable_range in Hp.
  rewrite type_codepoint_resolved; [|
    repeat (apply orb_false_iff; split); apply N.eqb_neq; lia | lia].
  cbv zeta. rewrite Hheld. unfold stroke_of.
  set (kl := lookup_char xkb_utf32_to_keysym s_keymap (byte c)) in *.
  assert (Hk8 : (evdev_keycode kl + EVDEV_OFFSET)%Z = XKeysymToKeycode (byte c))
    by (rewrite Hkey; unfold EVDEV_OFFSET; lia).
  destruct (XkbKeycodeToKeysym (XKeysymToKeycode (byte c)) 0 0 =? byte c)%N.
  - cbn [mbind list_bind rev app]. rewrite <- !app_assoc.
    rewrite strokes_key_down, strokes_key_up by done.
    by rewrite Hk8.
  - cbn [mbind list_bind rev app]. rewrite !app_nil_r, <- !app_assoc.
    rewrite strokes_mod_down by done.
    rewrite strokes_key_down, strokes_key_up by done.
    rewrite strokes_mod_up by done.
    rewrite Hk8, Hshift. reflexivity.
Qed.

Lemma xtest_char_stroke c rest :
  printable c = true ->
  lookups_agree xkb_utf32_to_keysym s_keymap XKeysymToKeycode
    XkbKeycodeToKeysym g_shift c ->
  xtest_strokes g_shift []
    (type_text_char XKeysymToKeycode XkbKeycodeToKeysym g_shift c ++ rest) =
  stroke_of XKeysymToKeycode XkbKeycodeToKeysym g_shift c :: xtest_strokes g_shift [] rest.
Proof.
  intros Hp (Hkc & Hns & _).
  unfold type_text_char, stroke_of. unfold printable in Hp.
  apply negb_true_iff in Hp. rewrite Hp. cbv zeta.
  apply Z.eqb_neq in Hkc, Hns. rewrite Hkc.
  destruct (XkbKeycodeToKeysym (XKeysymToKeycode (byte c)) 0 0 =? byte c)%N;
    simpl; rewrite ?Z.eqb_refl, ?Hns; simpl; rewrite ?Z.eqb_refl; done.
Qed.

Lemma xtest_skips c :
  printable c = false ->
  type_text_char XKeysymToKeycode XkbKeycodeToKeysym g_shift c = [].
Proof.
  unfold printable, type_text_char. intros H.
  apply negb_false_iff in H. by rewrite H.
Qed.

(** On printable characters on which the lookups agree the two builds
    produce the same keystrokes. *)
Lemma same_strokes_on_agreement text :
  g_shift = (KEY_LEFTSHIFT + EVDEV_OFFSET)%Z ->
  (forall c, c ∈ text ->
     printable c = true /\
     lookups_agree xkb_utf32_to_keysym s_keymap XKeysymToKeycode
       XkbKeycodeToKeysym g_shift c) ->
  exists evs,
    typer_type_loop xkb_utf32_to_keysym s_keymap text = Some evs /\
    uinput_strokes [] evs = stroke_of XKeysymToKeycode XkbKeycodeToKeysym g_shift <$> text /\
    xtest_strokes g_shift []
      (c ← text; type_text_char XKeysymToKeycode XkbKeycodeToKeysym g_shift c)
    = stroke_of XKeysymToKeycode XkbKeycodeToKeysym g_shift <$> text.
Proof.
  intros Hshift. induction text as [|c text IH]; intros Hall.
  - by exists [].
  - destruct (Hall c) as [Hp Hag]; [by left|].
    destruct IH as (evs & Hloop & Hu & Hx).
    { intros d Hd. apply Hall. by right. }
    exists (type_codepoint xkb_utf32_to_keysym s_keymap (byte c) ++ evs).
    pose proof (printable_range c Hp) as Hr.
    split; [|split].
    + cbn [typer_type_loop].
      destruct (N.ltb_spec (byte c) 128) as [_|]; [|lia].
      by rewrite Hloop.
    + rewrite uinput_char_stroke by done. by rewrite Hu.
    + rewrite bind_cons, xtest_char_stroke by done. by rewrite Hx.
Qed.

(** A group-0 position of the layout has its level 0 in the layout. *)
Lemma scan_order_level_0 kc lv :
  (kc, 0, lv) ∈ scan_order s_keymap -> (kc, 0, 0) ∈ scan_order s_keymap.
Proof.
  unfold scan_order. rewrite !list_elem_of_bind.
  intros (kc' & (layout & (level & Ht & Hlevel)%list_elem_of_bind & Hlayout)%list_elem_of_bind & Hkc).
  apply list_elem_of_singleton in Ht. injection Ht as <- <- <-.
  exists kc. split; [|done]. apply list_elem_of_bind. exists 0. split; [|done].
  apply list_elem_of_bind. exists 0. split; [by apply list_elem_of_singleton|].
  apply elem_of_seq in Hlevel. apply elem_of_seq. lia.
Qed.

(** Under the conditions on the layout and the X server the two lookups give
    the same key and the same decision on Shift. *)
Lemma plain_key_agreement c kc lv :
  g_shift = (KEY_LEFTSHIFT + EVDEV_OFFSET)%Z ->
  printable c = true ->
  plain_key xkb_utf32_to_keysym s_keymap XKeysymToKeycode XkbKeycodeToKeysym c kc lv ->
  lookups_agree xkb_utf32_to_keysym s_keymap XKeysymToKeycode
    XkbKeycodeToKeysym g_shift c /\
  stroke_of XKeysymToKeycode XkbKeycodeToKeysym g_shift c
  = (Z.of_nat kc, if lv =? 0 then [] else [g_shift]).
Proof.
  intros Hshift Hp (Hsym & Hpos & Hlv & Hkc & Hsyms & Honly & Hmods & Hnomod & Hx & Hx0).
  apply printable_range in Hp.
  assert (Hres : lookup_char xkb_utf32_to_keysym s_keymap (byte c)
                 = binding s_keymap (kc, 0, lv)).
  { rewrite lookup_char_resolution, Hsym.
    destruct (N.eqb_spec (byte c) XKB_KEY_NoSymbol) as [E|_];
      [unfold XKB_KEY_NoSymbol in E; lia|].
    unfold resolution.
    assert (Hm : (kc, 0, lv) ∈ matches s_keymap (byte c))
      by (apply matches_in; split; [done|by apply produces_syms]).
    destruct (List.find in_primary_group (matches s_keymap (byte c))) as [t|] eqn:Hf.
    - apply find_some_in in Hf as [Ht Hprim].
      apply matches_in in Ht as [Ht Hprod]. apply produces_syms in Hprod.
      unfold in_primary_group in Hprim. apply Nat.eqb_eq in Hprim.
      by rewrite (Honly t Ht Hprim Hprod).
    - apply list_elem_of_In in Hm.
      by pose proof (find_none _ _ Hf _ Hm) as Hcontra. }
  assert (Hlevel0 : (XkbKeycodeToKeysym (Z.of_nat kc) 0 0 =? byte c)%N = (lv =? 0)).
  { destruct lv as [|lv].
    - rewrite Hsyms in Hx0. injection Hx0 as <-. by rewrite N.eqb_refl.
    - destruct (N.eqb_spec (XkbKeycodeToKeysym (Z.of_nat kc) 0 0) (byte c)) as [E|_];
        [|done].
      rewrite E in Hx0.
      by pose proof (Honly (kc, 0, 0) (scan_order_level_0 _ _ Hpos) eq_refl Hx0). }
  split.
  - unfold lookups_agree. cbv zeta. rewrite Hres, Hx, Hlevel0, Hmods.
    cbn [evdev_keycode binding fst snd]. unfold EVDEV_OFFSET in *.
    repeat split; try lia; try done.
    intros E. rewrite Hshift in E.
    assert (Z.of_nat kc - 8 = KEY_LEFTSHIFT)%Z as E' by lia.
    rewrite E' in Hnomod. discriminate Hnomod.
  - unfold stroke_of. by rewrite Hx, Hlevel0.
Qed.

(** ** The two builds: claim *)


End VariantProofs.


(** The positions of the example layout that give "a" and "A". *)
Lemma demo_plain_key c lv :
  (c = "a"%char /\ lv = 0) \/ (c = "A"%char /\ lv = 1) ->
  plain_key demo_utf32_to_keysym demo_keymap demo_XKeysymToKeycode
    demo_XkbKeycodeToKeysym c 38 lv.
Proof.
  intros Hc.
  assert (Hpositions : forall t, t ∈ scan_order demo_keymap ->
            t ∈ [(24, 0, 0); (24, 0, 1); (24, 0, 2); (24, 0, 3);
                 (38, 0, 0); (38, 0, 1)]).
  { intros t Ht. apply list_elem_of_In in Ht. apply list_elem_of_In.
    vm_compute in Ht. vm_compute. exact Ht. }
  assert (Hin : forall t, In t [(24, 0, 0); (24, 0, 1); (24, 0, 2); (24, 0, 3);
                                (38, 0, 0); (38, 0, 1)] ->
                          t ∈ scan_order demo_keymap).
  { intros t Ht. apply list_elem_of_In. vm_compute. exact Ht. }
  destruct Hc as [[-> ->]|[-> ->]].
  - repeat split; try reflexivity; try lia.
    + apply Hin. simpl. tauto.
    + intros t Ht _ Hs. apply Hpositions in Ht.
      repeat (apply elem_of_cons in Ht as [->|Ht];
              [first [reflexivity | discriminate Hs]|]).
      by apply elem_of_nil in Ht.
  - repeat split; try reflexivity; try lia.
    + apply Hin. simpl. tauto.
    + intros t Ht _ Hs. apply Hpositions in Ht.
      repeat (apply elem_of_cons in Ht as [->|Ht];
              [first [reflexivity | discriminate Hs]|]).
      by apply elem_of_nil in Ht.
Defined.


(** ** Examples *)

(** Six pushes onto the empty queue: the first segment is freed, the other
    five come out in push order. *)
Example push_six :
  let xs := [Segment 101 10; Segment 102 20; Segment 103 30;
             Segment 104 40; Segment 105 50; Segment 106 60] in
  fst (push_all queue_init xs) = [101%Z] /\
  count (snd (push_all queue_init xs)) = 5%Z /\
  fst (pop_many 6 (snd (push_all queue_init xs))) = drop 1 xs.
Proof. repeat split. Qed.

(** Case does not matter for the phrase, and spaces before it are dropped. *)
Example worker_press_enter :
  transcription_worker_result (Some (Some (cstr " Please  Press Enter. "))) =
    [TyperType (cstr "Please "); TyperPress KEY_ENTER 0].
Proof. by vm_compute. Qed.

(** A phrase inside a word is not a command. *)
Example worker_no_word_boundary :
  transcription_worker_result (Some (Some (cstr "compress tab"))) =
    [TyperType (cstr "compress tab ")].
Proof. by vm_compute. Qed.

(** Only punctuation: passes the filter, nothing is left to type. *)
Example worker_only_punctuation :
  Uinput.is_garbage (Some (cstr "?!.")) = false /\
  transcription_worker_result (Some (Some (cstr "?!."))) = [].
Proof. by vm_compute. Qed.

(** On the example layout "A" is Shift with key 38 (evdev 30). *)
Example lookup_capital_a :
  lookup_char demo_utf32_to_keysym demo_keymap 65 = Lookup 30 1.
Proof. reflexivity. Qed.

(** A character the example layout does not have is skipped. *)
Example type_unmapped :
  typer_type demo_utf32_to_keysym demo_keymap 3 (Some (cstr "a~a")) =
    Some (press 30 ++ release 30 ++ press 30 ++ release 30).
Proof. reflexivity. Qed.

(** * Further properties of the code *)

(** ** The queue: ownership of the sample buffers *)

Lemma queue_destroy_contents q : queue_destroy q = samples <$> contents q.
Proof. unfold queue_destroy, contents. by rewrite <- list_fmap_compose. Qed.

Lemma queue_leaving_spec q ops :
  queue_wf q ->
  queue_wf (snd (queue_leaving q ops)) /\
  fst (queue_leaving q ops) ++ queue_destroy (snd (queue_leaving q ops)) =
    queue_destroy q ++ pushed ops.
Proof.
  revert q. induction ops as [|op ops IH]; intros q Hwf.
  - simpl. by rewrite app_nil_r.
  - cbn [queue_leaving].
    assert (Hstep : exists gone q1,
      match op with
      | Push s len => queue_push q s len
      | Pop running =>
          match queue_pop q running with
          | (PopReturns1 out, q1) => ([samples out], q1)
          | (_, q1) => ([], q1)
          end
      end = (gone, q1) /\ queue_wf q1 /\
      gone ++ queue_destroy q1 = queue_destroy q ++ pushed [op]).
    { destruct op as [s len|running].
      - exists (fst (queue_push q s len)), (snd (queue_push q s len)).
        split; [by destruct (queue_push q s len)|].
        split; [by apply queue_push_wf|].
        rewrite !queue_destroy_contents.
        rewrite queue_push_contents, queue_push_freed by done.
        pose proof (queue_wf_count q Hwf) as Hc.
        pose proof (contents_length q (proj1 Hc)) as Hl.
        destruct (Z.eqb_spec (count q) MAX_QUEUE_SIZE) as [Hfull|_].
        + destruct (contents q) as [|x l]; [simpl in Hl; unfold MAX_QUEUE_SIZE in *; lia|].
          simpl. by rewrite drop_0, fmap_app.
        + simpl. by rewrite fmap_app.
      - destruct (queue_pop_contents q running Hwf) as [Hp Hd].
        pose proof (queue_pop_wf q running Hwf) as Hwf1.
        rewrite Hp. rewrite !queue_destroy_contents.
        destruct (contents q) as [|x l] eqn:Hq.
        + exists [], q. split; [by destruct running|]. split; [done|].
          by rewrite queue_destroy_contents, Hq.
        + exists [samples x], (snd (queue_pop q running)).
          split; [done|]. split; [done|].
          rewrite queue_destroy_contents, Hd. simpl.
          by rewrite ?drop_0, app_nil_r. }
    destruct Hstep as (gone & q1 & -> & Hwf1 & Heq).
    destruct (IH q1 Hwf1) as [Hwf2 IH2].
    destruct (queue_leaving q1 ops) as [gone' q2]. simpl in *.
    split; [done|].
    rewrite <- app_assoc, IH2, app_assoc, Heq, <- app_assoc. f_equal.
    by destruct op.
Qed.

(** X1: every sample buffer handed to [queue_push] leaves the queue exactly
    once and in push order: evicted (freed) by a later push, handed out by
    [queue_pop], or freed by [queue_destroy] at teardown. *)
Theorem queue_exactly_once ops :
  fst (queue_leaving queue_init ops)
    ++ queue_destroy (snd (queue_leaving queue_init ops)) = pushed ops.
Proof.
  destruct (queue_leaving_spec queue_init ops queue_init_wf) as [_ H].
  by rewrite H.
Qed.

(** ** The typer: no key is left down *)

Lemma keys_down_app down evs1 evs2 :
  keys_down down (evs1 ++ evs2) =
  match keys_down down evs1 with
  | Some down' => keys_down down' evs2
  | None => None
  end.
Proof.
  revert down. induction evs1 as [|ev evs1 IH]; intros down; simpl; [done|].
  destruct (negb (ev_type ev =? EV_KEY)%Z); [apply IH|].
  destruct (ev_value ev =? 0)%Z; [|apply IH].
  destruct down as [|k down]; [done|].
  destruct (k =? ev_code ev)%Z; [apply IH|done].
Qed.

Lemma keys_down_press_all ks down :
  keys_down down (k ← ks; press k)
  = Some (rev ((fun k => k mod 65536)%Z <$> ks) ++ down).
Proof.
  revert down. induction ks as [|k ks IH]; intros down; [done|].
  rewrite bind_cons, keys_down_app. unfold press at 1. cbn [keys_down].
  change (negb (ev_type (InputEvent EV_KEY (k mod 65536) 1) =? EV_KEY)%Z) with false.
  change (negb (ev_type (InputEvent EV_SYN SYN_REPORT 0) =? EV_KEY)%Z) with true.
  cbn [ev_value ev_code]. change (1 =? 0)%Z with false. cbv iota.
  rewrite IH, fmap_cons. cbn [rev]. by rewrite <- app_assoc.
Qed.

Lemma keys_down_release_all ks down :
  keys_down (((fun k => k mod 65536)%Z <$> ks) ++ down) (k ← ks; release k)
  = Some down.
Proof.
  revert down. induction ks as [|k ks IH]; intros down; [done|].
  rewrite bind_cons, keys_down_app, fmap_cons. unfold release at 1.
  cbn [keys_down app].
  change (negb (ev_type (InputEvent EV_KEY (k mod 65536) 0) =? EV_KEY)%Z) with false.
  change (negb (ev_type (InputEvent EV_SYN SYN_REPORT 0) =? EV_KEY)%Z) with true.
  cbn [ev_value ev_code]. change (0 =? 0)%Z with true. cbv iota.
  rewrite Z.eqb_refl. apply IH.
Qed.

Lemma key_tap_events k : key_tap k = press k ++ release k.
Proof. reflexivity. Qed.

Lemma keys_down_key_tap down k :
  keys_down down (key_tap k) = Some down.
Proof.
  rewrite key_tap_events.
  rewrite <- (app_nil_r (press k)), <- (app_nil_r (release k)).
  change (press k ++ []) with ([k] ≫= press).
  change (release k ++ []) with ([k] ≫= release).
  rewrite keys_down_app, keys_down_press_all.
  apply (keys_down_release_all [k] down).
Qed.

Lemma synced_app evs1 evs2 :
  synced evs1 = true -> synced (evs1 ++ evs2) = synced evs2.
Proof.
  revert evs2. induction evs1 as [evs1 IH] using (induction_ltof1 _ (@length _)).
  unfold ltof in IH. intros evs2 H.
  destruct evs1 as [|e1 evs1]; [done|].
  simpl in *. destruct (ev_type e1 =? EV_KEY)%Z.
  - destruct evs1 as [|e2 evs1]; [done|].
    simpl. destruct ((ev_type e2 =? EV_SYN)%Z && (ev_code e2 =? SYN_REPORT)%Z
                     && (ev_value e2 =? 0)%Z); [|done].
    simpl in *. apply IH; [simpl; lia|done].
  - apply IH; [simpl; lia|done].
Qed.

Lemma synced_bind {A} (f : A -> list input_event) l :
  (forall x, synced (f x) = true) -> synced (x ← l; f x) = true.
Proof.
  intros Hf. induction l as [|x l IH]; [done|].
  rewrite bind_cons, synced_app by apply Hf. done.
Qed.

Section TyperNesting.

Context (xkb_utf32_to_keysym : N -> N) (s_keymap : xkb_keymap).

Lemma type_codepoint_nested cp down :
  keys_down down (type_codepoint xkb_utf32_to_keysym s_keymap cp) = Some down /\
  synced (type_codepoint xkb_utf32_to_keysym s_keymap cp) = true.
Proof.
  destruct ((cp =? 10) || (cp =? 13) || (cp =? 9))%N eqn:Hctl.
  - unfold type_codepoint.
    destruct ((cp =? 10) || (cp =? 13))%N; [by rewrite keys_down_key_tap|].
    simpl in Hctl. rewrite Hctl. by rewrite keys_down_key_tap.
  - destruct (Z.ltb_spec
                (evdev_keycode (lookup_char xkb_utf32_to_keysym s_keymap cp)) 0)
      as [Hneg|Hpos].
    + unfold type_codepoint. apply orb_false_iff in Hctl as [-> ->].
      apply Z.ltb_lt in Hneg. by rewrite Hneg.
    + rewrite (type_codepoint_resolved _ _ cp Hctl Hpos). cbv zeta.
      set (kl := lookup_char xkb_utf32_to_keysym s_keymap cp).
      set (held := modifier_keys s_keymap (mods kl)). split.
      * rewrite keys_down_app, keys_down_press_all.
        rewrite (app_assoc (press _)), <- key_tap_events.
        rewrite keys_down_app, keys_down_key_tap, rev_fmap.
        apply keys_down_release_all.
      * rewrite synced_app by (by apply synced_bind).
        rewrite (app_assoc (press _)), <- key_tap_events.
        rewrite synced_app by done. by apply synced_bind.
Qed.

Lemma typer_type_loop_nested text evs down :
  typer_type_loop xkb_utf32_to_keysym s_keymap text = Some evs ->
  keys_down down evs = Some down /\ synced evs = true.
Proof.
  revert evs. induction text as [text IH] using (induction_ltof1 _ (@length _)).
  unfold ltof in IH. intros evs.
  assert (Hstep : forall cp rest,
    length rest < length text ->
    (type_codepoint xkb_utf32_to_keysym s_keymap cp ++.)
      <$> typer_type_loop xkb_utf32_to_keysym s_keymap rest = Some evs ->
    keys_down down evs = Some down /\ synced evs = true).
  { intros cp rest Hlt H.
    destruct (typer_type_loop xkb_utf32_to_keysym s_keymap rest) as [evs'|] eqn:Hr;
      [|done].
    simpl in H. injection H as <-.
    destruct (IH rest Hlt evs' Hr) as [Hk Hs].
    destruct (type_codepoint_nested cp down) as [Hk1 Hs1].
    split.
    - by rewrite keys_down_app, Hk1.
    - by rewrite synced_app. }
  destruct text as [|b0 p1]; cbn [typer_type_loop].
  { intros [= <-]. done. }
  destruct (byte b0 <? 128)%N; [apply Hstep; simpl; lia|].
  destruct (N.land (byte b0) 224 =? 192)%N.
  { destruct p1 as [|b1 p2]; [done|]. apply Hstep. simpl. lia. }
  destruct (N.land (byte b0) 240 =? 224)%N.
  { destruct p1 as [|b1 [|b2 p3]]; [done|done|]. apply Hstep. simpl. lia. }
  destruct (N.land (byte b0) 248 =? 240)%N.
  { destruct p1 as [|b1 [|b2 [|b3 p4]]]; [done|done|done|]. apply Hstep. simpl. lia. }
  apply IH. simpl. lia.
Qed.

(** X2: whatever the text, the layout and the state of the device, the
    events [typer_type] writes are well nested: each key-up releases the key
    pressed last, no key or modifier is left down at the end, and every key
    event is directly followed by a sync report. *)
Theorem typer_type_releases_all_keys s_fd text evs :
  typer_type xkb_utf32_to_keysym s_keymap s_fd text = Some evs ->
  keys_down [] evs = Some [] /\ synced evs = true.
Proof.
  unfold typer_type. destruct text as [text|]; [|by intros [= <-]].
  destruct (s_fd <? 0)%Z; [by intros [= <-]|].
  apply typer_type_loop_nested.
Qed.

End TyperNesting.

(** On the example layout, typing "aA@". *)
Lemma typer_type_releases_all_keys_witness :
  keys_down []
    (type_codepoint demo_utf32_to_keysym demo_keymap 97
     ++ type_codepoint demo_utf32_to_keysym demo_keymap 65
     ++ type_codepoint demo_utf32_to_keysym demo_keymap 64) = Some [] /\
  synced
    (type_codepoint demo_utf32_to_keysym demo_keymap 97
     ++ type_codepoint demo_utf32_to_keysym demo_keymap 65
     ++ type_codepoint demo_utf32_to_keysym demo_keymap 64) = true.
Proof.
  apply (typer_type_releases_all_keys demo_utf32_to_keysym demo_keymap 3
           (Some (cstr "aA@"))).
  reflexivity.
Defined.

(** X3: when the device is open [typer_press] writes key-down and key-up of
    the key, and with [with_ctrl] set it writes key-down of left Ctrl before
    them and key-up of left Ctrl after them; each event is followed by a sync
    report, the events are well nested and nothing is left down.  When the
    device is not open nothing is written. *)
Theorem typer_press_releases_all_keys s_fd evdev_keycode with_ctrl :
  let evs := typer_press s_fd evdev_keycode with_ctrl in
  (evs = if (s_fd <? 0)%Z then []
         else if (with_ctrl =? 0)%Z then
           [InputEvent EV_KEY (evdev_keycode mod 65536) 1; InputEvent EV_SYN SYN_REPORT 0;
            InputEvent EV_KEY (evdev_keycode mod 65536) 0; InputEvent EV_SYN SYN_REPORT 0]
         else
           [InputEvent EV_KEY KEY_LEFTCTRL 1; InputEvent EV_SYN SYN_REPORT 0;
            InputEvent EV_KEY (evdev_keycode mod 65536) 1; InputEvent EV_SYN SYN_REPORT 0;
            InputEvent EV_KEY (evdev_keycode mod 65536) 0; InputEvent EV_SYN SYN_REPORT 0;
            InputEvent EV_KEY KEY_LEFTCTRL 0; InputEvent EV_SYN SYN_REPORT 0]) /\
  keys_down [] evs = Some [] /\
  synced evs = true.
Proof.
  cbv zeta.
  assert (Hevs : typer_press s_fd evdev_keycode with_ctrl =
            if (s_fd <? 0)%Z then []
            else if (with_ctrl =? 0)%Z then press evdev_keycode ++ release evdev_keycode
            else press KEY_LEFTCTRL ++ press evdev_keycode
                 ++ release evdev_keycode ++ release KEY_LEFTCTRL).
  { unfold typer_press. destruct (s_fd <? 0)%Z; [done|].
    by destruct (with_ctrl =? 0)%Z. }
  split.
  { rewrite Hevs. destruct (s_fd <? 0)%Z; [done|]. by destruct (with_ctrl =? 0)%Z. }
  rewrite Hevs. destruct (s_fd <? 0)%Z; [done|].
  pose proof (keys_down_key_tap [] evdev_keycode) as Htap.
  pose proof (keys_down_key_tap [KEY_LEFTCTRL] evdev_keycode) as Htap'.
  rewrite key_tap_events in Htap, Htap'.
  destruct (with_ctrl =? 0)%Z; [done|]. split; [|done].
  rewrite keys_down_app. change (keys_down [] (press KEY_LEFTCTRL)) with (Some [KEY_LEFTCTRL]).
  rewrite (app_assoc (press _)), keys_down_app, Htap'.
  reflexivity.
Qed.

(** ** The X11 build: what [type_text] sends *)

Lemma xkeys_down_app down evs1 evs2 :
  xkeys_down down (evs1 ++ evs2) =
  match xkeys_down down evs1 with
  | Some down' => xkeys_down down' evs2
  | None => None
  end.
Proof.
  revert down. induction evs1 as [|ev evs1 IH]; intros down; simpl; [done|].
  destruct (x_is_press ev); [apply IH|].
  destruct down as [|k down]; [done|].
  destruct (k =? x_keycode ev)%Z; [apply IH|done].
Qed.

Section XTestNesting.

Context (XKeysymToKeycode : N -> Z) (XkbKeycodeToKeysym : Z -> N -> N -> N)
        (g_shift : Z) (g_dpy : bool).

Lemma type_text_char_nested c down :
  xkeys_down down (type_text_char XKeysymToKeycode XkbKeycodeToKeysym g_shift c)
  = Some down.
Proof.
  unfold type_text_char.
  destruct ((byte c <? 32) || (126 <? byte c))%N; [done|]. cbv zeta.
  destruct (XKeysymToKeycode (byte c) =? 0)%Z; [done|].
  destruct (negb _); simpl; by rewrite !Z.eqb_refl.
Qed.

Lemma type_text_char_keys c ev :
  ev ∈ type_text_char XKeysymToKeycode XkbKeycodeToKeysym g_shift c ->
  x_keycode ev = g_shift \/
  (printable c = true /\ x_keycode ev = XKeysymToKeycode (byte c) /\
   x_keycode ev <> 0%Z).
Proof.
  unfold type_text_char, printable.
  destruct ((byte c <? 32) || (126 <? byte c))%N; [by intros H%elem_of_nil|].
  cbv zeta.
  destruct (Z.eqb_spec (XKeysymToKeycode (byte c)) 0) as [|Hkc];
    [by intros H%elem_of_nil|].
  intros H. destruct (negb _); simpl in H;
    repeat (apply elem_of_cons in H as [->|H]; [simpl; auto|]);
    by apply elem_of_nil in H.
Qed.

(** X4: the XTest events of [type_text] are well nested (each release
    matches the key pressed last, nothing is left down), and apart from the
    Shift key the only key codes sent are the non-zero answers of
    [XKeysymToKeycode] for printable ASCII bytes of the text. *)
Theorem type_text_nested_and_printable (text : list ascii) :
  let evs :=
    type_text XKeysymToKeycode XkbKeycodeToKeysym g_shift g_dpy (Some text) in
  xkeys_down [] evs = Some [] /\
  forall ev, ev ∈ evs ->
    x_keycode ev = g_shift \/
    exists c, c ∈ text /\ printable c = true /\
              x_keycode ev = XKeysymToKeycode (byte c) /\ x_keycode ev <> 0%Z.
Proof.
  cbv zeta. unfold type_text. destruct g_dpy.
  - split.
    + generalize (@nil Z). induction text as [|c text IH]; intros down; [done|].
      rewrite bind_cons, xkeys_down_app, type_text_char_nested. apply IH.
    + intros ev (c & Hev & Hc)%list_elem_of_bind.
      apply type_text_char_keys in Hev as [Hs|(Hp & Hk & Hz)]; [by left|].
      right. by exists c.
  - split; [done|]. by intros ev H%elem_of_nil.
Qed.

End XTestNesting.

(** ** The typer: decoding of UTF-8 *)

Lemma below_all (P : N -> bool) (k : nat) :
  forallb P (N.of_nat <$> seq 0 k) = true ->
  forall a, (a < N.of_nat k)%N -> P a = true.
Proof.
  intros H a Ha. rewrite forallb_forall in H. apply H.
  apply list_elem_of_In, list_elem_of_fmap. exists (N.to_nat a).
  split; [lia|]. apply list_elem_of_In, in_seq. lia.
Qed.

Lemma split64 x :
  exists q r, (x = q * 64 + r /\ r < 64 /\ x / 64 = q /\ x mod 64 = r)%N.
Proof.
  exists (x / 64)%N, (x mod 64)%N. repeat split; try done.
  - rewrite N.mul_comm. apply N.div_mod'.
  - by apply N.mod_lt.
Qed.

Lemma lor_shiftl_low hi lo :
  (lo < 64)%N -> N.lor (N.shiftl hi 6) lo = (hi * 64 + lo)%N.
Proof.
  intros Hlo. rewrite N.shiftl_mul_pow2. change (2 ^ 6)%N with 64%N.
  rewrite <- N.lxor_lor, <- N.add_nocarry_lxor; try done;
    (apply N.bits_inj; intros j; rewrite N.land_spec, N.bits_0;
     destruct (N.ltb_spec j 6) as [Hj|Hj];
     [ change 64%N with (2 ^ 6)%N; rewrite N.mul_pow2_bits_low by done; done
     | destruct (N.eq_dec lo 0) as [->|Hne];
       [ by rewrite N.bits_0, andb_false_r
       | rewrite (N.bits_above_log2 lo j), andb_false_r; [done|];
         apply N.log2_lt_pow2; [lia|];
         apply N.lt_le_trans with (2 ^ 6)%N; [done|];
         apply N.pow_le_mono_r; [done|lia] ] ]).
Qed.

Lemma byte_ascii_of_N x : (x < 256)%N -> byte (ascii_of_N x) = x.
Proof. apply N_ascii_embedding. Qed.

(** What the decoder's tests and masks give on well-formed lead and
    continuation bytes. *)
Lemma lead2_bits a :
  (a < 32)%N ->
  ((192 + a <? 128) = false /\ (N.land (192 + a) 224 =? 192) = true /\
   N.land (192 + a) 31 = a)%N.
Proof.
  intros Ha.
  pose proof (below_all
    (fun a => negb (192 + a <? 128) && (N.land (192 + a) 224 =? 192)
              && (N.land (192 + a) 31 =? a))%N 32 eq_refl a Ha) as H.
  cbv beta in H. apply andb_true_iff in H as [H H3].
  apply andb_true_iff in H as [H1 H2].
  apply negb_true_iff in H1. apply N.eqb_eq in H3. done.
Qed.

Lemma lead3_bits a :
  (a < 16)%N ->
  ((224 + a <? 128) = false /\ (N.land (224 + a) 224 =? 192) = false /\
   (N.land (224 + a) 240 =? 224) = true /\ N.land (224 + a) 15 = a)%N.
Proof.
  intros Ha.
  pose proof (below_all
    (fun a => negb (224 + a <? 128) && negb (N.land (224 + a) 224 =? 192)
              && (N.land (224 + a) 240 =? 224)
              && (N.land (224 + a) 15 =? a))%N 16 eq_refl a Ha) as H.
  cbv beta in H. apply andb_true_iff in H as [H H4].
  apply andb_true_iff in H as [H H3]. apply andb_true_iff in H as [H1 H2].
  apply negb_true_iff in H1, H2. apply N.eqb_eq in H4. done.
Qed.

Lemma lead4_bits a :
  (a < 8)%N ->
  ((240 + a <? 128) = false /\ (N.land (240 + a) 224 =? 192) = false /\
   (N.land (240 + a) 240 =? 224) = false /\
   (N.land (240 + a) 248 =? 240) = true /\ N.land (240 + a) 7 = a)%N.
Proof.
  intros Ha.
  pose proof (below_all
    (fun a => negb (240 + a <? 128) && negb (N.land (240 + a) 224 =? 192)
              && negb (N.land (240 + a) 240 =? 224)
              && (N.land (240 + a) 248 =? 240)
              && (N.land (240 + a) 7 =? a))%N 8 eq_refl a Ha) as H.
  cbv beta in H. apply andb_true_iff in H as [H H5].
  apply andb_true_iff in H as [H H4]. apply andb_true_iff in H as [H H3].
  apply andb_true_iff in H as [H1 H2].
  apply negb_true_iff in H1, H2, H3. apply N.eqb_eq in H5. done.
Qed.

Lemma continuation_bits b : (b < 64)%N -> N.land (128 + b) 63 = b.
Proof.
  intros Hb.
  pose proof (below_all (fun b => N.land (128 + b) 63 =? b)%N 64 eq_refl b Hb) as H.
  by apply N.eqb_eq in H.
Qed.

Section TyperDecoding.

Context (xkb_utf32_to_keysym : N -> N) (s_keymap : xkb_keymap).

Lemma typer_type_loop_encoded cp rest :
  (cp < 2097152)%N ->
  typer_type_loop xkb_utf32_to_keysym s_keymap (utf8_encode cp ++ rest) =
  (type_codepoint xkb_utf32_to_keysym s_keymap cp ++.)
    <$> typer_type_loop xkb_utf32_to_keysym s_keymap rest.
Proof.
  intros Hcp. unfold utf8_encode.
  destruct (N.ltb_spec cp 128) as [H1|H1].
  { cbn [app typer_type_loop]. rewrite byte_ascii_of_N by lia.
    apply N.ltb_lt in H1. by rewrite H1. }
  replace (cp / 4096)%N with (cp / 64 / 64)%N by (by rewrite N.Div0.div_div).
  replace (cp / 262144)%N with (cp / 64 / 64 / 64)%N
    by (by rewrite !N.Div0.div_div).
  destruct (split64 cp) as (q1 & r1 & Hs1 & Hr1 & Hq1 & Hm1).
  rewrite !Hq1, !Hm1.
  destruct (split64 q1) as (q2 & r2 & Hs2 & Hr2 & Hq2 & Hm2).
  rewrite ?Hq2, ?Hm2.
  destruct (split64 q2) as (q3 & r3 & Hs3 & Hr3 & Hq3 & Hm3).
  rewrite ?Hq3, ?Hm3.
  destruct (N.ltb_spec cp 2048) as [H2|H2].
  { cbn [app typer_type_loop]. rewrite !byte_ascii_of_N by lia.
    destruct (lead2_bits q1) as (-> & -> & ->); [lia|].
    rewrite continuation_bits, lor_shiftl_low by done. by rewrite <- Hs1. }
  destruct (N.ltb_spec cp 65536) as [H3|H3].
  { cbn [app typer_type_loop]. rewrite !byte_ascii_of_N by lia.
    destruct (lead3_bits q2) as (-> & -> & -> & ->); [lia|].
    rewrite !continuation_bits by done.
    replace (N.shiftl q2 12) with (N.shiftl (N.shiftl q2 6) 6)
      by (by rewrite N.shiftl_shiftl).
    rewrite <- N.shiftl_lor, !lor_shiftl_low by done.
    by rewrite <- Hs2, <- Hs1. }
  cbn [app typer_type_loop]. rewrite !byte_ascii_of_N by lia.
  destruct (lead4_bits q3) as (-> & -> & -> & -> & ->); [lia|].
  rewrite !continuation_bits by done.
  replace (N.shiftl q3 18) with (N.shiftl (N.shiftl (N.shiftl q3 6) 6) 6)
    by (by rewrite !N.shiftl_shiftl).
  replace (N.shiftl r3 12) with (N.shiftl (N.shiftl r3 6) 6)
    by (by rewrite N.shiftl_shiftl).
  rewrite <- !N.shiftl_lor, !lor_shiftl_low by done.
  assert (r3 = q2 - q3 * 64)%N as Hx by lia.
  by rewrite <- Hs3, <- Hs2, <- Hs1.
Qed.

(** X5: [typer_type] decodes well-formed UTF-8: on the encoding of any
    sequence of non-zero code points below 2^21 it is defined and types
    exactly those code points, in order, one [type_codepoint] each. *)
Theorem typer_type_decodes_utf8 (cps : list N) :
  (forall cp, cp ∈ cps -> (0 < cp < 2097152)%N) ->
  typer_type_loop xkb_utf32_to_keysym s_keymap (cp ← cps; utf8_encode cp) =
  Some (cp ← cps; type_codepoint xkb_utf32_to_keysym s_keymap cp).
Proof.
  induction cps as [|cp cps IH]; intros Hall; [done|].
  rewrite !bind_cons, typer_type_loop_encoded by (apply Hall; by left).
  rewrite IH; [done|]. intros cp' Hin. apply Hall. by right.
Qed.

End TyperDecoding.

(** The letter a, e with acute (C3 A9), the euro sign (E2 82 AC) and an
    emoji (F0 9F 98 80). *)
Lemma typer_type_decodes_utf8_witness :
  typer_type_loop demo_utf32_to_keysym demo_keymap
    (cp ← [97; 233; 8364; 128512]%N; utf8_encode cp) =
  Some (cp ← [97; 233; 8364; 128512]%N;
        type_codepoint demo_utf32_to_keysym demo_keymap cp).
Proof.
  apply (typer_type_decodes_utf8 demo_utf32_to_keysym demo_keymap).
  intros cp Hin.
  repeat (apply elem_of_cons in Hin as [->|Hin]; [done|]).
  by apply elem_of_nil in Hin.
Defined.

(** ** The garbage filter: further properties *)

Lemma isalnum_not_space c : isalnum c = true -> isspace c = false.
Proof.
  destruct c as [[] [] [] [] [] [] [] []]; vm_compute; intros; congruence.
Qed.

Lemma alnum_not_garbage alnum_test text c :
  c ∈ text -> isspace c = false -> alnum_test c = true ->
  is_garbage_with alnum_test (Some text) = false.
Proof.
  intros Hin Hsp Ha.
  assert (Ht : c ∈ trimmed text) by (by apply trimmed_keeps).
  apply not_true_is_false. intros Hg.
  apply is_garbage_with_spec in Hg as [E|[[_ Hn]|[_ Hn]]].
  - rewrite E in Ht. by apply elem_of_nil in Ht.
  - specialize (Hn c Ht). congruence.
  - specialize (Hn c Ht). congruence.
Qed.

(** X6: a text containing an ASCII letter or digit is never rejected, by
    either build, whatever else it contains. *)
Theorem alnum_text_accepted text c :
  c ∈ text -> isalnum c = true ->
  Uinput.is_garbage (Some text) = false /\ X11.is_garbage (Some text) = false.
Proof.
  intros Hin Hc. pose proof (isalnum_not_space c Hc) as Hsp.
  split; apply (alnum_not_garbage _ text c); try done.
  unfold Uinput.alnum_test. by rewrite Hc.
Qed.

Lemma alnum_text_accepted_witness :
  Uinput.is_garbage (Some (cstr "... a ...")) = false /\
  X11.is_garbage (Some (cstr "... a ...")) = false.
Proof.
  apply (alnum_text_accepted (cstr "... a ...") "a"%char).
  - apply list_elem_of_In. vm_compute. tauto.
  - reflexivity.
Defined.

(** X7: the uinput build's filter accepts everything the X11 build's
    filter accepts: whatever the uinput filter rejects, NULL included, the X11
    filter rejects too. *)
Theorem uinput_filter_accepts_more text :
  Uinput.is_garbage text = true -> X11.is_garbage text = true.
Proof.
  destruct text as [text|]; [|done].
  unfold Uinput.is_garbage, X11.is_garbage. rewrite !is_garbage_with_spec.
  assert (Hn : forall t, no_alnum Uinput.alnum_test t -> no_alnum X11.alnum_test t).
  { intros t H c Hc. specialize (H c Hc). unfold Uinput.alnum_test in H.
    apply orb_false_iff in H as [H _]. exact H. }
  unfold rejects. intros [E|[[H1 H2]|[H1 H2]]]; auto.
Qed.

Lemma uinput_filter_accepts_more_witness :
  X11.is_garbage (Some (cstr " ?? ")) = true.
Proof.
  apply (uinput_filter_accepts_more (Some (cstr " ?? "))). reflexivity.
Defined.

(** ** The worker: further properties *)

Lemma drop_while_all {A} (p : A -> bool) pre l :
  (forall x, x ∈ pre -> p x = true) ->
  drop_while p (pre ++ l) = drop_while p l.
Proof.
  induction pre as [|x pre IH]; intros H; [done|].
  simpl. rewrite (H x) by (by left). apply IH. intros y Hy. apply H. by right.
Qed.

Lemma drop_end_while_all {A} (p : A -> bool) l post :
  (forall x, x ∈ post -> p x = true) ->
  drop_end_while p (l ++ post) = drop_end_while p l.
Proof.
  intros H. unfold drop_end_while. rewrite rev_app_distr, drop_while_all; [done|].
  intros x Hx. apply H. by rewrite list_elem_of_In, in_rev, <- list_elem_of_In.
Qed.

Lemma drop_end_while_snoc_keep {A} (p : A -> bool) l x :
  p x = false -> drop_end_while p (l ++ [x]) = l ++ [x].
Proof. apply drop_while_snoc_false. Qed.

Lemma drop_while_head {A} (p : A -> bool) l x :
  drop_while p l !! 0 = Some x -> p x = false.
Proof.
  induction l as [|y l IH]; simpl; [done|].
  destruct (p y) eqn:Hy; [done|]. simpl. by intros [= <-].
Qed.

Lemma drop_end_while_last {A} (p : A -> bool) l x :
  last (drop_end_while p l) = Some x -> p x = false.
Proof.
  unfold drop_end_while. intros H. apply (drop_while_head p (rev l)).
  destruct (drop_while p (rev l)) as [|y m]; [done|].
  simpl in *. rewrite last_snoc in H. by injection H as ->.
Qed.

Lemma drop_end_while_prefix {A} (p : A -> bool) l :
  exists m, l = drop_end_while p l ++ m.
Proof.
  induction l as [|x l IH] using rev_ind.
  - by exists [].
  - destruct (p x) eqn:Hx.
    + rewrite drop_while_snoc_true by done. destruct IH as [m Hm].
      exists (m ++ [x]). by rewrite app_assoc, <- Hm.
    + rewrite drop_while_snoc_false by done. exists []. by rewrite app_nil_r.
Qed.

Lemma head_prefix {A} (l m : list A) x :
  l !! 0 = Some x -> (l ++ m) !! 0 = Some x.
Proof. by destruct l. Qed.

(** A byte whose lower-case form is a lower-case letter is a letter. *)
Lemma tolower_letter c :
  islower (tolower c) = true ->
  isalnum c = true /\ isspace c = false /\ is_sentence_end c = false.
Proof.
  destruct c as [[] [] [] [] [] [] [] []]; vm_compute; intros;
    repeat split; congruence.
Qed.

(** Every configured phrase starts and ends with a lower-case letter. *)
Lemma table_letters cmd :
  cmd ∈ g_commands ->
  exists p0 pmid pl,
    phrase cmd = p0 :: pmid ++ [pl] /\ islower p0 = true /\ islower pl = true.
Proof.
  unfold g_commands. rewrite !elem_of_cons, elem_of_nil.
  intros [->|[->|[->|[->|[]]]]].
  - by exists "p"%char, (cstr "ress ente"), "r"%char.
  - by exists "p"%char, (cstr "ress ta"), "b"%char.
  - by exists "i"%char, (cstr "nterrupt i"), "t"%char.
  - by exists "c"%char, (cstr "ancel i"), "t"%char.
Qed.

(** Any casing of a configured phrase starts and ends with a letter. *)
Lemma phrase_casing cmd text :
  cmd ∈ g_commands -> tolower <$> text = phrase cmd ->
  exists c0 mid cl,
    text = c0 :: mid ++ [cl] /\
    isalnum c0 = true /\ isspace c0 = false /\ is_sentence_end cl = false.
Proof.
  intros Hin H.
  destruct (table_letters cmd Hin) as (p0 & pmid & pl & Hp & H0 & Hl).
  rewrite Hp in H.
  apply fmap_cons_inv in H as (c0 & text' & -> & H & ->).
  symmetry in H. apply fmap_app_inv in H as (mid & l2 & _ & H2 & ->).
  symmetry in H2. apply fmap_cons_inv in H2 as (cl & l3 & -> & H3 & ->).
  symmetry in H3. apply fmap_nil_inv in H3 as ->.
  exists c0, mid, cl. split; [done|].
  destruct (tolower_letter c0 H0) as (? & ? & _).
  destruct (tolower_letter cl Hl) as (_ & _ & ?). done.
Qed.

(** X8: a recognition result that consists of a configured phrase alone,
    in any capitalisation, possibly preceded by whitespace and followed by
    whitespace or sentence punctuation, types nothing and presses the key of
    that command. *)
Theorem bare_command_only_presses cmd text pre post :
  cmd ∈ g_commands ->
  tolower <$> text = phrase cmd ->
  (forall c, c ∈ pre -> isspace c = true) ->
  (forall c, c ∈ post -> is_sentence_end c = true) ->
  transcription_worker_result (Some (Some (pre ++ text ++ post))) =
    [TyperPress (keycode cmd) (ctrl cmd)].
Proof.
  intros Hin Hlow Hpre Hpost.
  destruct (phrase_casing cmd text Hin Hlow)
    as (c0 & mid & cl & Htext & Halnum & Hsp & Hend).
  rewrite transcription_worker_result_spec.
  assert (Hg : Uinput.is_garbage (Some (pre ++ text ++ post)) = false).
  { apply (alnum_not_garbage _ (pre ++ text ++ post) c0); [|done|].
    - rewrite !elem_of_app. right; left. rewrite Htext. by left.
    - unfold Uinput.alnum_test. by rewrite Halnum. }
  rewrite Hg. unfold worker_spec.
  rewrite drop_while_all by done.
  assert (Hd : drop_while isspace (text ++ post) = text ++ post).
  { rewrite Htext. simpl. by rewrite Hsp. }
  rewrite Hd, drop_end_while_all by done.
  assert (Hd' : drop_end_while is_sentence_end text = text).
  { rewrite Htext. rewrite app_comm_cons. by apply drop_while_snoc_false. }
  rewrite Hd'. cbv zeta.
  assert (Htp : trailing_phrase text (phrase cmd) 0).
  { repeat split; [| |by left].
    - by rewrite <- Hlow, length_fmap.
    - rewrite drop_0, Hlow. symmetry. by apply table_lowercase. }
  unfold match_trailing_command.
  pose proof (match_in_table_spec g_commands text (length text)) as Hm.
  destruct (match_in_table g_commands text (length text)) as [[cmd' start]|].
  - destruct Hm as (Hin' & Hm' & ->).
    apply command_matches_spec in Hm'; [|done].
    assert (cmd' = cmd) as -> by (by eapply trailing_phrase_unique).
    replace (length text - length (phrase cmd)) with 0
      by (rewrite <- Hlow, length_fmap; lia).
    by rewrite take_0.
  - specialize (Hm cmd Hin).
    assert (command_matches text (length text) cmd = true); [|congruence].
    apply command_matches_spec; [done|].
    replace (length text - length (phrase cmd)) with 0
      by (rewrite <- Hlow, length_fmap; lia).
    done.
Qed.

(** "  Cancel It!" presses Ctrl+C and types nothing. *)
Lemma bare_command_only_presses_witness :
  transcription_worker_result (Some (Some (cstr "  " ++ cstr "Cancel It" ++ cstr "!")))
  = [TyperPress KEY_C 1].
Proof.
  apply (bare_command_only_presses
           (Command (cstr "cancel it") KEY_C 1 (cstr "Ctrl+C"))
           (cstr "Cancel It") (cstr "  ") (cstr "!")).
  - apply list_elem_of_In. simpl. tauto.
  - reflexivity.
  - intros c Hc. repeat (apply elem_of_cons in Hc as [->|Hc]; [reflexivity|]).
    by apply elem_of_nil in Hc.
  - intros c Hc. repeat (apply elem_of_cons in Hc as [->|Hc]; [reflexivity|]).
    by apply elem_of_nil in Hc.
Defined.

Lemma prefix_first {A} (l m : list A) :
  l <> [] -> (l ++ m) !! 0 = l !! 0.
Proof. by destruct l. Qed.

Lemma last_nonempty {A} (l : list A) : l <> [] -> exists x, last l = Some x.
Proof.
  intros H. destruct (last l) as [x|] eqn:E; [by exists x|].
  by apply last_None in E.
Qed.

(** X9: whatever the recognition result, a text the worker passes to
    [typer_type] is a non-empty text followed by exactly one space: it starts
    with a non-whitespace byte and the byte before the final space is not a
    space. *)
Theorem typed_text_shape r_text text :
  TyperType text ∈ transcription_worker_result (Some (Some r_text)) ->
  exists rest c0 cl,
    text = rest ++ [" "%char] /\
    rest !! 0 = Some c0 /\ isspace c0 = false /\
    last rest = Some cl /\ cl <> " "%char.
Proof.
  rewrite transcription_worker_result_spec.
  destruct (Uinput.is_garbage (Some r_text)); [by intros H%elem_of_nil|].
  unfold worker_spec.
  set (d := drop_while isspace r_text).
  set (t := drop_end_while is_sentence_end d).
  set (found := match_trailing_command t (length t)).
  set (rest := match found with
               | Some (_, start) => drop_end_while is_blank (take start t)
               | None => t
               end).
  cbv zeta. intros Hin.
  assert (Hrest : rest <> [] /\ text = rest ++ [" "%char]).
  { apply elem_of_app in Hin as [Hin|Hin].
    - destruct rest as [|x rest']; [by apply elem_of_nil in Hin|].
      apply list_elem_of_singleton in Hin. injection Hin as ->. done.
    - destruct found as [[cmd start]|].
      + apply list_elem_of_singleton in Hin. discriminate Hin.
      + by apply elem_of_nil in Hin. }
  destruct Hrest as [Hne ->].
  assert (Hpre : exists m, d = rest ++ m).
  { destruct (drop_end_while_prefix is_sentence_end d) as [m1 Hm1].
    fold t in Hm1. subst rest. destruct found as [[cmd start]|].
    - destruct (drop_end_while_prefix is_blank (take start t)) as [m2 Hm2].
      exists (m2 ++ drop start t ++ m1).
      rewrite Hm1 at 1. rewrite <- (take_drop start t) at 1.
      rewrite Hm2 at 1. by rewrite <- !app_assoc.
    - by exists m1. }
  destruct Hpre as [m Hd].
  destruct (last_nonempty rest Hne) as [cl Hcl].
  destruct rest as [|c0 rest'] eqn:Erest; [done|].
  exists (c0 :: rest'), c0, cl. repeat split; try done.
  - apply (drop_while_head isspace r_text). fold d. by rewrite Hd.
  - intros ->. subst rest. rewrite <- Erest in Hcl.
    destruct found as [[cmd start]|].
    + by apply drop_end_while_last in Hcl.
    + by apply drop_end_while_last in Hcl.
Qed.

Lemma typed_text_shape_witness :
  exists rest c0 cl,
    cstr "hello world " = rest ++ [" "%char] /\
    rest !! 0 = Some c0 /\ isspace c0 = false /\
    last rest = Some cl /\ cl <> " "%char.
Proof.
  apply (typed_text_shape (cstr " hello world.  ")).
  apply list_elem_of_In. vm_compute. tauto.
Defined.

(** ** The typer: detection of the keyboard layout *)

Lemma read_line_complete k body rest :
  newline ∉ body -> length body < k ->
  read_line k (body ++ newline :: rest) = (body ++ [newline], rest).
Proof.
  revert k. induction body as [|c body IH]; intros k Hnl Hk.
  - destruct k; [simpl in Hk; lia|]. cbn [app read_line].
    by destruct (decide (newline = newline)).
  - destruct k; [simpl in Hk; lia|]. cbn [app read_line].
    apply not_elem_of_cons in Hnl as [Hc Hnl].
    destruct (decide (c = newline)); [congruence|].
    rewrite IH; [done|done|simpl in Hk; lia].
Qed.

Lemma read_line_shorter k stream :
  length (read_line k stream).2 <= length stream.
Proof.
  revert stream. induction k as [|k IH]; intros stream; [done|].
  destruct stream as [|c stream]; [done|]. simpl.
  destruct (decide (c = newline)); [simpl; lia|].
  specialize (IH stream). destruct (read_line k stream). simpl in *. lia.
Qed.

Lemma read_line_consumes k c stream :
  length (read_line (S k) (c :: stream)).2 <= length stream.
Proof.
  cbn [read_line]. destruct (decide (c = newline)); [done|].
  pose proof (read_line_shorter k stream) as Hs.
  by destruct (read_line k stream).
Qed.

Lemma detect_layout_loop_fuel n m stream :
  length stream < n -> length stream < m ->
  detect_layout_loop n stream = detect_layout_loop m stream.
Proof.
  revert m stream. induction n as [|n IHn]; intros m stream Hn Hm; [lia|].
  destruct m as [|m]; [lia|]. cbn [detect_layout_loop].
  destruct stream as [|c stream]; [done|]. cbn [fgets].
  change (256 - 1) with (S 254).
  pose proof (read_line_consumes 254 c stream) as Hs.
  destruct (read_line (S 254) (c :: stream)) as [line rest].
  destruct (decide (take 10 line = cstr "XKBLAYOUT=")); [done|].
  simpl in *. apply IHn; lia.
Qed.

Lemma read_line_full k body rest :
  newline ∉ body -> length body = k ->
  read_line k (body ++ rest) = (body, rest).
Proof.
  revert k. induction body as [|c body IH]; intros k Hnl Hk.
  - by subst k.
  - destruct k; [simpl in Hk; lia|]. cbn [app read_line].
    apply not_elem_of_cons in Hnl as [Hc Hnl].
    destruct (decide (c = newline)); [congruence|].
    rewrite IH; [done|done|simpl in Hk; lia].
Qed.

Lemma read_line_eof k body :
  newline ∉ body -> length body <= k -> read_line k body = (body, []).
Proof.
  revert k. induction body as [|c body IH]; intros k Hnl Hk.
  - by destruct k.
  - destruct k; [simpl in Hk; lia|]. cbn [read_line].
    apply not_elem_of_cons in Hnl as [Hc Hnl].
    destruct (decide (c = newline)); [congruence|].
    rewrite IH; [done|done|simpl in Hk; lia].
Qed.

Lemma other_read_length l : other_read l -> 0 < length l.
Proof.
  intros [[(body & -> & _)|[_ Hlen]] _].
  - rewrite length_app. simpl. lia.
  - lia.
Qed.

Lemma detect_layout_loop_other_reads fuel ls stream :
  Forall other_read ls -> length ls <= fuel ->
  detect_layout_loop (fuel + S (length stream)) (concat ls ++ stream) =
  detect_layout_loop (S (length stream)) stream.
Proof.
  revert fuel. induction ls as [|l ls IH]; intros fuel Hall Hfuel.
  - apply detect_layout_loop_fuel; simpl; lia.
  - apply Forall_cons in Hall as [[Hshape Hne] Hall].
    destruct fuel as [|fuel]; [simpl in Hfuel; lia|].
    cbn [concat]. rewrite <- !app_assoc. cbn [plus detect_layout_loop].
    assert (Hf : fgets 256 (l ++ concat ls ++ stream)
                 = Some (l, concat ls ++ stream)).
    { destruct Hshape as [(body & -> & Hnl & Hlen)|[Hnl Hlen]].
      - rewrite <- app_assoc. cbn [app].
        destruct body as [|b body].
        + cbn [app fgets]. change (256 - 1) with 255. cbn [read_line].
          by destruct (decide (newline = newline)).
        + cbn [app fgets].
          change (b :: body ++ newline :: concat ls ++ stream)
            with ((b :: body) ++ newline :: concat ls ++ stream).
          rewrite read_line_complete;
            [done|done|rewrite length_app in Hlen; simpl in *; lia].
      - destruct l as [|b l]; [simpl in Hlen; lia|]. cbn [app fgets].
        change (b :: l ++ concat ls ++ stream)
          with ((b :: l) ++ concat ls ++ stream).
        by rewrite read_line_full. }
    rewrite Hf.
    destruct (decide (take 10 l = cstr "XKBLAYOUT=")); [done|].
    apply IH; [done|simpl in Hfuel; lia].
Qed.

Lemma other_reads_length ls :
  Forall other_read ls -> length ls <= length (concat ls).
Proof.
  induction 1 as [|l ls Hl _ IH]; [done|].
  apply other_read_length in Hl. cbn [concat]. rewrite length_app. simpl. lia.
Qed.

Lemma strip_line_end_step val n c :
  0 < n -> val !! n = Some c ->
  strip_line_end val (S n) =
  if is_line_end c then strip_line_end val n else S n.
Proof.
  intros Hn Hc. destruct n as [|m]; [lia|].
  cbn [strip_line_end]. by rewrite Hc.
Qed.

Lemma strip_line_end_junk v cl junk rest :
  is_line_end cl = false ->
  (forall c, c ∈ junk -> is_line_end c = true) ->
  strip_line_end ((v ++ [cl]) ++ junk ++ rest) (length ((v ++ [cl]) ++ junk))
  = length (v ++ [cl]).
Proof.
  intros Hcl. revert rest. induction junk as [|x junk IH] using rev_ind;
    intros rest Hjunk.
  - rewrite app_nil_r. rewrite length_app. simpl. rewrite Nat.add_1_r.
    destruct (length v) as [|k] eqn:Hk; [done|].
    erewrite strip_line_end_step; [|lia|].
    + by rewrite Hcl.
    + rewrite <- app_assoc. rewrite lookup_app_r by lia.
      by rewrite Hk, Nat.sub_diag.
  - rewrite <- (app_assoc junk [x] rest).
    rewrite (app_assoc (v ++ [cl]) junk [x]).
    rewrite (length_app _ [x]). simpl. rewrite Nat.add_1_r.
    erewrite strip_line_end_step.
    + rewrite (Hjunk x)
        by (rewrite elem_of_app, list_elem_of_singleton; by right).
      apply IH. intros c Hc. apply Hjunk. rewrite elem_of_app. by left.
    + rewrite !length_app. simpl. lia.
    + rewrite app_assoc. rewrite lookup_app_r by lia.
      by rewrite Nat.sub_diag.
Qed.

(** The layout read from a line [XKBLAYOUT=] + optional quote + value +
    closing bytes, newline included if there is one. *)
Lemma layout_of_config_line opening v cl junk :
  (opening = [] /\ (v ++ [cl]) !! 0 <> Some double_quote \/
   opening = [double_quote]) ->
  is_line_end cl = false -> length (v ++ [cl]) <= 63 ->
  (forall c, c ∈ junk -> is_line_end c = true) ->
  layout_of_line (cstr "XKBLAYOUT=" ++ opening ++ (v ++ [cl]) ++ junk)
  = v ++ [cl].
Proof.
  intros Hopen Hcl Hlen Hjunk. unfold layout_of_line.
  change (drop 10 (cstr "XKBLAYOUT=" ++ ?x)) with x.
  assert (Hval :
    match opening ++ (v ++ [cl]) ++ junk with
    | c :: val' =>
        if decide (c = double_quote) then val'
        else opening ++ (v ++ [cl]) ++ junk
    | [] => opening ++ (v ++ [cl]) ++ junk
    end = (v ++ [cl]) ++ junk ++ []).
  { rewrite app_nil_r. destruct Hopen as [[-> Hq]| ->].
    - cbn [app]. destruct v as [|c0 v']; cbn [app] in *.
      + destruct (decide (cl = double_quote)) as [->|]; [done|done].
      + destruct (decide (c0 = double_quote)) as [->|]; [done|done].
    - cbn [app]. by destruct (decide (double_quote = double_quote)). }
  cbv zeta. rewrite Hval.
  replace (length ((v ++ [cl]) ++ junk ++ []))
    with (length ((v ++ [cl]) ++ junk))
    by (by rewrite app_nil_r).
  rewrite strip_line_end_junk; [|done|done].
  rewrite take_app_length. by rewrite take_ge.
Qed.

(** The loop on a file whose first read starting with [XKBLAYOUT=] is a
    whole configuration line, ended by a newline or by the end of the file. *)
Lemma detect_layout_loop_value ls opening v cl closing rest :
  Forall other_read ls ->
  (opening = [] /\ (v ++ [cl]) !! 0 <> Some double_quote \/
   opening = [double_quote]) ->
  (newline ∉ v) -> is_line_end cl = false -> length (v ++ [cl]) <= 63 ->
  (forall c, c ∈ closing -> c = double_quote \/ c = carriage_return) ->
  length (cstr "XKBLAYOUT=" ++ opening ++ (v ++ [cl]) ++ closing) < 255 ->
  rest = [] \/ (exists after, rest = newline :: after) ->
  let file := concat ls
              ++ (cstr "XKBLAYOUT=" ++ opening ++ (v ++ [cl]) ++ closing) ++ rest in
  detect_layout_loop (S (length file)) file = Some (v ++ [cl]).
Proof.
  intros Hls Hopen Hnl Hcl Hlen Hclosing Hbody_len Hrest. cbv zeta.
  set (body := cstr "XKBLAYOUT=" ++ opening ++ (v ++ [cl]) ++ closing) in *.
  pose proof (other_reads_length ls Hls) as Hlsn.
  rewrite (detect_layout_loop_fuel _
             (length (concat ls) + S (length (body ++ rest))))
    by (rewrite !length_app; simpl; lia).
  rewrite detect_layout_loop_other_reads by done.
  assert (Hbody_nl : newline ∉ body).
  { unfold body. rewrite !elem_of_app. intros [H|[H|[[H|H]|H]]].
    - apply list_elem_of_In in H. vm_compute in H. intuition discriminate.
    - destruct Hopen as [[-> _]| ->]; [by apply elem_of_nil in H|].
      apply list_elem_of_singleton in H. discriminate H.
    - done.
    - apply list_elem_of_singleton in H. subst cl. discriminate Hcl.
    - destruct (Hclosing _ H) as [E|E]; discriminate E. }
  assert (Hclosing' : forall c, c ∈ closing -> is_line_end c = true).
  { intros c Hc. destruct (Hclosing c Hc) as [-> | ->]; reflexivity. }
  cbn [detect_layout_loop].
  destruct Hrest as [->|(after & ->)].
  - assert (Hf : fgets 256 (body ++ []) = Some (body, [])).
    { rewrite app_nil_r. unfold fgets. change (256 - 1) with 255.
      rewrite read_line_eof by (done || lia). by unfold body. }
    rewrite Hf.
    destruct (decide (take 10 body = cstr "XKBLAYOUT=")) as [_|Hne];
      [|by destruct Hne].
    f_equal. unfold body. by apply layout_of_config_line.
  - assert (Hf : fgets 256 (body ++ newline :: after)
                 = Some (body ++ [newline], after)).
    { unfold fgets. change (256 - 1) with 255.
      rewrite <- (read_line_complete 255 body after Hbody_nl Hbody_len).
      unfold body. done. }
    rewrite Hf.
    destruct (decide (take 10 (body ++ [newline]) = cstr "XKBLAYOUT=")) as [_|Hne];
      [|by destruct Hne].
    f_equal. unfold body.
    replace ((cstr "XKBLAYOUT=" ++ opening ++ (v ++ [cl]) ++ closing) ++ [newline])
      with (cstr "XKBLAYOUT=" ++ opening ++ (v ++ [cl]) ++ closing ++ [newline])
      by (by rewrite <- !app_assoc).
    apply layout_of_config_line; try done.
    intros c [Hc|Hc]%elem_of_app; [by apply Hclosing'|].
    apply list_elem_of_singleton in Hc. by subst c.
Qed.

(** X10: when the environment variable is unset or empty, and the reads of
    [fgets] before the first one starting with [XKBLAYOUT=] are complete
    lines of at most 255 bytes or 255-byte pieces of longer lines,
    [detect_layout] returns the value of that configuration line: the text
    between an optional opening quote and the closing quotes and carriage
    returns, for any value of 1 to 63 bytes that contains no newline and does
    not end with a quote or carriage return, on a line shorter than 255 bytes
    ended by a newline or by the end of the file; whatever follows the line
    is ignored. *)
Theorem detect_layout_reads_value env ls opening v cl closing rest :
  env = None \/ env = Some [] ->
  Forall other_read ls ->
  (opening = [] /\ (v ++ [cl]) !! 0 <> Some double_quote \/
   opening = [double_quote]) ->
  (newline ∉ v) -> is_line_end cl = false -> length (v ++ [cl]) <= 63 ->
  (forall c, c ∈ closing -> c = double_quote \/ c = carriage_return) ->
  length (cstr "XKBLAYOUT=" ++ opening ++ (v ++ [cl]) ++ closing) < 255 ->
  rest = [] \/ (exists after, rest = newline :: after) ->
  detect_layout env
    (Some (concat ls
           ++ (cstr "XKBLAYOUT=" ++ opening ++ (v ++ [cl]) ++ closing) ++ rest))
  = Some (v ++ [cl]).
Proof.
  intros Henv Hls Hopen Hnl Hcl Hlen Hclosing Hline Hrest.
  pose proof (detect_layout_loop_value ls opening v cl closing rest
                Hls Hopen Hnl Hcl Hlen Hclosing Hline Hrest) as Hloop.
  cbv zeta in Hloop.
  by destruct Henv as [-> | ->].
Qed.

Lemma demo_keyboard_file_lines : Forall other_read demo_keyboard_file.1.1.
Proof.
  assert (Hnl : forall l : list ascii,
    forallb (fun c => negb (Ascii.eqb c newline)) l = true -> newline ∉ l).
  { intros l H Hin. rewrite forallb_forall in H.
    apply list_elem_of_In, H in Hin. by rewrite Ascii.eqb_refl in Hin. }
  repeat apply Forall_cons_2; [| | |apply Forall_nil_2].
  - split; [left|discriminate]. exists (cstr "# KEYBOARD CONFIGURATION FILE").
    repeat split; [by apply Hnl|vm_compute; lia].
  - split; [left|discriminate]. exists [].
    repeat split; [by apply Hnl|vm_compute; lia].
  - split; [left|discriminate].
    exists (cstr "XKBMODEL=" ++ [double_quote] ++ cstr "pc105" ++ [double_quote]).
    repeat split; [by apply Hnl|vm_compute; lia].
Qed.

(** Reading "de" from the example file. *)
Lemma detect_layout_reads_value_witness :
  detect_layout None
    (Some (concat demo_keyboard_file.1.1
           ++ demo_keyboard_file.1.2 ++ newline :: demo_keyboard_file.2))
  = Some (cstr "de").
Proof.
  apply (detect_layout_reads_value None demo_keyboard_file.1.1
           [double_quote] (cstr "d") "e"%char [double_quote]
           (newline :: demo_keyboard_file.2)).
  - by left.
  - apply demo_keyboard_file_lines.
  - by right.
  - intros H. apply list_elem_of_singleton in H. discriminate H.
  - reflexivity.
  - simpl. lia.
  - intros c Hc. apply list_elem_of_singleton in Hc. by left.
  - vm_compute. lia.
  - right. by eexists.
Defined.

(** X11: [detect_layout] returns NULL, leaving the choice of the layout to
    xkbcommon, when the environment variable is set and not empty (whatever
    the file says), when the file cannot be opened, and when none of the
    reads of [fgets] (the lines of at most 255 bytes, the 255-byte pieces of
    longer lines, and a last line without newline) starts with
    [XKBLAYOUT=]. *)
Theorem detect_layout_null env file :
  (exists c e, env = Some (c :: e)) \/
  file = None \/
  (exists ls last,
     file = Some (concat ls ++ last) /\ Forall other_read ls /\
     (newline ∉ last) /\ length last < 255 /\
     take 10 last <> cstr "XKBLAYOUT=") ->
  detect_layout env file = None.
Proof.
  intros [(c & e & ->)|[->|(ls & last & -> & Hls & Hnl & Hlen & Hne)]].
  - done.
  - by destruct env as [[|? ?]|].
  - assert (Hd : detect_layout_loop (S (length (concat ls ++ last)))
                   (concat ls ++ last) = None).
    { pose proof (other_reads_length ls Hls) as Hlsn.
      rewrite (detect_layout_loop_fuel _ (length (concat ls) + S (length last)))
        by (rewrite ?length_app; simpl; lia).
      rewrite detect_layout_loop_other_reads by done.
      cbn [detect_layout_loop]. destruct last as [|b last]; [done|].
      unfold fgets. change (256 - 1) with 255.
      rewrite read_line_eof by (done || lia).
      by destruct (decide (take 10 (b :: last) = cstr "XKBLAYOUT=")). }
    by destruct env as [[|? ?]|].
Qed.

(** The layout set in the environment wins over the example file. *)
Lemma detect_layout_null_witness :
  detect_layout (Some (cstr "us"))
    (Some (concat demo_keyboard_file.1.1
           ++ demo_keyboard_file.1.2 ++ newline :: demo_keyboard_file.2))
  = None.
Proof.
  apply detect_layout_null. left. by exists "u"%char, (cstr "s").
Defined.

(** X25: a line longer than 255 bytes is read in pieces, and a piece that
    starts with [XKBLAYOUT=] is taken for a configuration line: after 255
    bytes without newline, the text that follows on the same line sets the
    layout. *)
Theorem long_line_read_in_pieces (junk v : list ascii) (cl : ascii) (after : list ascii) :
  length junk = 255 -> (newline ∉ junk) ->
  take 10 junk <> cstr "XKBLAYOUT=" ->
  (v ++ [cl]) !! 0 <> Some double_quote ->
  (newline ∉ v) -> is_line_end cl = false -> length (v ++ [cl]) <= 63 ->
  detect_layout None
    (Some (junk ++ cstr "XKBLAYOUT=" ++ (v ++ [cl]) ++ newline :: after))
  = Some (v ++ [cl]).
Proof.
  intros Hjunk Hnl Hne Hq Hv Hcl Hlen.
  pose proof (detect_layout_loop_value [junk] [] v cl [] (newline :: after)) as Hloop.
  cbv zeta in Hloop. cbn [concat app] in Hloop.
  rewrite !app_nil_r in Hloop. cbn [detect_layout].
  rewrite <- app_assoc in Hloop. apply Hloop; try done.
  - apply Forall_cons_2; [|done]. split; [by right|done].
  - by left.
  - by intros c Hc%elem_of_nil.
  - rewrite length_app. change (length (cstr "XKBLAYOUT=")) with 10. lia.
  - right. by eexists.
Qed.

Lemma long_line_read_in_pieces_witness :
  detect_layout None
    (Some (replicate 255 "x"%char ++ cstr "XKBLAYOUT=" ++ (cstr "u" ++ ["s"%char])
           ++ newline :: []))
  = Some (cstr "u" ++ ["s"%char]).
Proof.
  apply (long_line_read_in_pieces (replicate 255 "x"%char) (cstr "u") "s"%char []).
  - apply length_replicate.
  - intros [H _]%elem_of_replicate. discriminate H.
  - discriminate.
  - discriminate.
  - intros H%list_elem_of_singleton. discriminate H.
  - reflexivity.
  - simpl. lia.
Defined.

(** ** The typer: set-up and tear-down *)

Ltac typer_init_cases w :=
  unfold typer_init, typer_cleanup;
  destruct (world_context_new w) as [ctx|]; cbn -[detect_layout];
  [ destruct (world_keymap_new w _) as [keymap|]; cbn -[detect_layout];
    [ destruct (Z.ltb_spec (world_open w) 0); cbn -[detect_layout];
      [ | destruct (Z.ltb_spec (world_dev_setup w) 0); cbn -[detect_layout];
          [ | destruct (Z.ltb_spec (world_dev_create w) 0); cbn -[detect_layout] ] ]
    | ]
  | ].

(** X12: [typer_init], started from the initial statics, is all or
    nothing.  It returns 0 exactly when the context, the keymap, the open of
    the device file and the two device ioctls all succeed, and then the three
    statics are set and the four resources are held.  Otherwise it returns -1
    with the descriptor negative and both pointers NULL, and everything it
    had acquired has been released, in reverse order of acquisition. *)
Theorem typer_init_all_or_nothing w :
  let ret := (typer_init w typer_closed).1.1 in
  let st := (typer_init w typer_closed).1.2 in
  let ops := (typer_init w typer_closed).2 in
  let layout := detect_layout (world_getenv w) (world_keyboard_file w) in
  (ret = 0%Z <->
   is_Some (world_context_new w) /\ is_Some (world_keymap_new w layout) /\
   (0 <= world_open w)%Z /\ (0 <= world_dev_setup w)%Z /\
   (0 <= world_dev_create w)%Z) /\
  if (ret =? 0)%Z then
    s_fd st = world_open w /\ s_ctx st = world_context_new w /\
    s_keymap st = world_keymap_new w layout /\
    resources_held [] ops = Some [UinputDevice; UinputFd; XkbKeymap; XkbContext]
  else
    ret = (-1)%Z /\ (s_fd st < 0)%Z /\ s_ctx st = None /\ s_keymap st = None /\
    resources_held [] ops = Some [].
Proof.
  cbv zeta. typer_init_cases w.
  all: split;
    [ split;
      [ intros Hret; first [discriminate Hret | repeat split; eauto; lia]
      | intros (Hc & Hk & Ho & Hs & Hd);
        first [ lia | by destruct Hc as [? [=]] | by destruct Hk as [? [=]]
              | done ] ]
    | repeat split; first [done | lia] ].
Qed.

Lemma typer_inert fd :
  (fd < 0)%Z ->
  (forall utf32 keymap text, typer_type utf32 keymap fd text = Some []) /\
  (forall key with_ctrl, typer_press fd key with_ctrl = []).
Proof.
  intros Hfd. apply Z.ltb_lt in Hfd. split.
  - intros utf32 keymap text. unfold typer_type. rewrite Hfd. by destruct text.
  - intros key with_ctrl. unfold typer_press. by rewrite Hfd.
Qed.

(** X13: whatever [typer_init] returned, [typer_cleanup] afterwards gives
    back everything still held, in reverse order of acquisition, and leaves
    the descriptor negative and both pointers NULL; a second [typer_cleanup]
    does nothing, and with these statics [typer_type] and [typer_press] write
    no event. *)
Theorem typer_cleanup_releases_everything w :
  let st := (typer_init w typer_closed).1.2 in
  let ops := (typer_init w typer_closed).2 in
  let st' := (typer_cleanup st).1 in
  let ops' := (typer_cleanup st).2 in
  resources_held [] (ops ++ ops') = Some [] /\
  ((s_fd st' < 0)%Z /\ s_ctx st' = None /\ s_keymap st' = None) /\
  typer_cleanup st' = (st', []) /\
  (forall utf32 keymap text, typer_type utf32 keymap (s_fd st') text = Some []) /\
  (forall key with_ctrl, typer_press (s_fd st') key with_ctrl = []).
Proof.
  cbv zeta. typer_init_cases w.
  all: try (destruct (Z.leb_spec 0 (world_open w)); [|lia]).
  all: try (destruct (Z.leb_spec 0 (world_open w)); [lia|]).
  all: cbn; repeat split; try done; try lia; try (apply typer_inert; lia).
  all: try (destruct (Z.leb_spec 0 (world_open w)); [lia|done]).
Qed.

(** ** The audio callback *)

Section AudioBufferProofs.

Context {sample : Type}.

Lemma feed_vad_spec fuel (buf : list sample) :
  length buf <= fuel ->
  concat (feed_vad fuel buf).1 ++ (feed_vad fuel buf).2 = buf /\
  Forall (fun w => length w = 512) (feed_vad fuel buf).1 /\
  length (feed_vad fuel buf).2 < 512.
Proof.
  revert buf. induction fuel as [|fuel IH]; intros buf Hfuel.
  - destruct buf; [|simpl in Hfuel; lia]. simpl. repeat split; [constructor | lia].
  - cbn [feed_vad]. unfold VAD_WINDOW_SIZE.
    destruct (Z.leb_spec 512 (Z.of_nat (length buf))) as [Hbig|Hsmall].
    + change (Z.to_nat 512) with 512.
      destruct (IH (drop 512 buf)) as (Hcat & Hall & Hrest).
      { rewrite length_drop. lia. }
      destruct (feed_vad fuel (drop 512 buf)) as [windows rest].
      cbn [fst snd] in *. rewrite concat_cons, <- app_assoc, Hcat, take_drop.
      repeat split; [|done]. constructor; [|done].
      rewrite length_take. lia.
    + cbn [fst snd concat app]. repeat split; [constructor | lia].
Qed.

Lemma pa_callback_feed_spec (buf inp : list sample) :
  (Z.of_nat (length buf) <= SAMPLE_RATE)%Z ->
  (Z.of_nat (length inp) <= INT_MAX - SAMPLE_RATE)%Z ->
  exists windows rest,
    pa_callback_feed buf (Some inp) = Some (windows, rest) /\
    concat windows ++ rest
      = buf ++ take (Z.to_nat (SAMPLE_RATE - Z.of_nat (length buf))) inp /\
    Forall (fun w => length w = 512) windows /\
    length rest < 512.
Proof.
  intros Hbuf Hinp. unfold pa_callback_feed, INT_MAX, SAMPLE_RATE in *.
  destruct (Z.ltb_spec 2147483647 (Z.of_nat (length inp))); [lia|].
  destruct (Z.ltb_spec 2147483647 (Z.of_nat (length buf) + Z.of_nat (length inp)));
    [lia|].
  cbn [orb].
  set (to_copy := if (16000 <? _)%Z then _ else _).
  assert (Hcopy : (0 <= to_copy)%Z /\
                  take (Z.to_nat to_copy) inp
                  = take (Z.to_nat (16000 - Z.of_nat (length buf))) inp).
  { unfold to_copy.
    destruct (Z.ltb_spec 16000 (Z.of_nat (length buf) + Z.of_nat (length inp))).
    - split; [lia|done].
    - split; [lia|]. rewrite Nat2Z.id, !take_ge; [done|lia|lia]. }
  destruct Hcopy as [Hpos Htake].
  destruct (Z.ltb_spec to_copy 0); [lia|]. rewrite Htake.
  set (full := buf ++ take _ inp).
  destruct (feed_vad_spec (length full) full) as (Hcat & Hall & Hrest); [lia|].
  exists (feed_vad (length full) full).1, (feed_vad (length full) full).2.
  split; [by destruct (feed_vad (length full) full)|]. done.
Qed.

Lemma pa_stream_spec (inputs : list (option (list sample))) (buf : list sample) :
  length buf < 512 ->
  (forall inp, Some inp ∈ inputs ->
     (Z.of_nat (length inp) <= SAMPLE_RATE - VAD_WINDOW_SIZE + 1)%Z) ->
  exists windows rest,
    pa_stream buf inputs = Some (windows, rest) /\
    concat windows ++ rest = buf ++ concat (omap id inputs) /\
    Forall (fun w => length w = 512) windows /\
    length rest < 512.
Proof.
  revert buf. induction inputs as [|input inputs IH]; intros buf Hbuf Hin.
  - exists [], buf. cbn. rewrite app_nil_r. repeat split; [constructor | done].
  - cbn [pa_stream]. destruct input as [inp|].
    + assert (Hlen : (Z.of_nat (length inp) <= 15489)%Z).
      { apply (Hin inp). by left. }
      destruct (pa_callback_feed_spec buf inp) as (ws & rest & -> & Hcat & Hall & Hrest).
      { unfold SAMPLE_RATE. lia. }
      { unfold INT_MAX, SAMPLE_RATE. lia. }
      destruct (IH rest) as (ws' & rest' & -> & Hcat' & Hall' & Hrest'); [done| |].
      { intros i Hi. apply Hin. by right. }
      exists (ws ++ ws'), rest'. split; [done|].
      rewrite concat_app, <- app_assoc, Hcat'.
      rewrite app_assoc, Hcat.
      change (omap id (Some inp :: inputs)) with (inp :: omap id inputs).
      rewrite concat_cons.
      rewrite take_ge by (unfold SAMPLE_RATE; lia).
      rewrite <- !app_assoc. repeat split; [|done].
      by apply Forall_app.
    + cbn [pa_callback_feed].
      destruct (IH buf) as (ws' & rest' & -> & Hcat' & Hall' & Hrest'); [done| |].
      { intros i Hi. apply Hin. by right. }
      by exists ws', rest'.
Qed.

(** X14: over any run of callbacks that starts with an empty buffer and
    delivers at most 15489 frames at a time, the windows fed to the detector
    followed by what is left in the buffer are the samples received, in order
    and without loss; NULL inputs contribute nothing, every window has
    exactly 512 samples and fewer than 512 samples stay behind. *)
Theorem vad_windows_are_the_stream (inputs : list (option (list sample))) :
  (forall inp, Some inp ∈ inputs ->
     (Z.of_nat (length inp) <= SAMPLE_RATE - VAD_WINDOW_SIZE + 1)%Z) ->
  exists windows rest,
    pa_stream [] inputs = Some (windows, rest) /\
    concat windows ++ rest = concat (omap id inputs) /\
    Forall (fun w => length w = Z.to_nat VAD_WINDOW_SIZE) windows /\
    length rest < Z.to_nat VAD_WINDOW_SIZE.
Proof.
  intros Hin. apply (pa_stream_spec inputs []); [simpl; lia | done].
Qed.

End AudioBufferProofs.

Lemma vad_windows_are_the_stream_witness :
  exists windows rest,
    pa_stream [] [Some (replicate 700 0%Z); None; Some (replicate 400 1%Z)]
      = Some (windows, rest) /\
    concat windows ++ rest = replicate 700 0%Z ++ replicate 400 1%Z /\
    Forall (fun w => length w = 512) windows /\
    length rest < 512.
Proof.
  apply (vad_windows_are_the_stream
           [Some (replicate 700 0%Z); None; Some (replicate 400 1%Z)]).
  intros inp Hinp. apply list_elem_of_In in Hinp.
  destruct Hinp as [Heq|[Heq|[Heq|[]]]]; inversion Heq; vm_compute; discriminate.
Defined.

Lemma feed_vad_short {sample} fuel (buf : list sample) :
  length buf < 512 -> feed_vad fuel buf = ([], buf).
Proof.
  intros Hshort. destruct fuel as [|fuel]; [done|].
  cbn [feed_vad]. unfold VAD_WINDOW_SIZE.
  destruct (Z.leb_spec 512 (Z.of_nat (length buf))); [lia|done].
Qed.

Lemma feed_vad_one {sample} fuel (buf : list sample) :
  length buf = 512 -> 0 < fuel -> feed_vad fuel buf = ([buf], []).
Proof.
  intros Hlen Hfuel. destruct fuel as [|fuel]; [lia|].
  cbn [feed_vad]. rewrite Hlen.
  change (VAD_WINDOW_SIZE <=? Z.of_nat 512)%Z with true.
  change (Z.to_nat VAD_WINDOW_SIZE) with 512. cbv iota.
  rewrite take_ge, drop_ge by lia. by rewrite feed_vad_short by (simpl; lia).
Qed.

Lemma pa_callback_feed_window {sample} (inp : list sample) :
  length inp = 512 -> pa_callback_feed [] (Some inp) = Some ([inp], []).
Proof.
  intros Hlen. unfold pa_callback_feed. cbn [length app].
  rewrite Hlen. change (Z.of_nat 512) with 512%Z.
  change (INT_MAX <? 512)%Z with false.
  change (INT_MAX <? Z.of_nat 0 + 512)%Z with false.
  change (SAMPLE_RATE <? Z.of_nat 0 + 512)%Z with false.
  cbn [orb]. change (512 <? 0)%Z with false. change (Z.to_nat 512) with 512.
  cbv iota. rewrite take_ge by lia.
  by rewrite feed_vad_one by lia.
Qed.

(** X15: with the stream opened as [main] opens it, 512 frames per
    callback, every callback hands its own input to the detector as one
    window and leaves the buffer empty: the windows are the inputs. *)
Theorem window_sized_callbacks_pass_through {sample} (inputs : list (list sample)) :
  Forall (fun inp => length inp = Z.to_nat VAD_WINDOW_SIZE) inputs ->
  pa_stream [] (Some <$> inputs) = Some (inputs, []).
Proof.
  induction 1 as [|inp inputs Hlen _ IH]; [done|].
  rewrite fmap_cons. cbn [pa_stream].
  by rewrite (pa_callback_feed_window inp Hlen), IH.
Qed.

Lemma window_sized_callbacks_pass_through_witness :
  pa_stream [] (Some <$> [replicate 512 1%Z; replicate 512 2%Z])
  = Some ([replicate 512 1%Z; replicate 512 2%Z], []).
Proof.
  apply (window_sized_callbacks_pass_through [replicate 512 1%Z; replicate 512 2%Z]).
  repeat constructor.
Defined.

(** X16: a callback that brings more than the one-second buffer can take
    keeps the samples that fit and ignores the others: the windows fed and
    the buffer left are those of the kept part alone. *)
Theorem callback_overrun_drops_tail {sample} (buf kept lost : list sample) :
  Z.of_nat (length buf + length kept) = SAMPLE_RATE ->
  (Z.of_nat (length (kept ++ lost)) <= INT_MAX - SAMPLE_RATE)%Z ->
  pa_callback_feed buf (Some (kept ++ lost)) = pa_callback_feed buf (Some kept) /\
  exists windows rest,
    pa_callback_feed buf (Some kept) = Some (windows, rest) /\
    concat windows ++ rest = buf ++ kept.
Proof.
  intros Hfull Hlen. rewrite length_app in Hlen.
  destruct (pa_callback_feed_spec buf kept) as (ws & rest & Hk & Hcat & _).
  { lia. } { lia. }
  destruct (pa_callback_feed_spec buf (kept ++ lost)) as (ws' & rest' & Hkl & Hcat' & _).
  { lia. } { rewrite length_app. lia. }
  assert (Hn : Z.to_nat (SAMPLE_RATE - Z.of_nat (length buf)) = length kept) by lia.
  rewrite Hn in Hcat, Hcat'.
  rewrite take_ge in Hcat by lia. rewrite take_app_length in Hcat'.
  split.
  - unfold pa_callback_feed in *.
    rewrite length_app.
    unfold INT_MAX, SAMPLE_RATE in *.
    destruct (Z.ltb_spec 2147483647 (Z.of_nat (length kept + length lost))); [lia|].
    destruct (Z.ltb_spec 2147483647
                (Z.of_nat (length buf) + Z.of_nat (length kept + length lost))); [lia|].
    destruct (Z.ltb_spec 2147483647 (Z.of_nat (length kept))); [lia|].
    destruct (Z.ltb_spec 2147483647 (Z.of_nat (length buf) + Z.of_nat (length kept)));
      [lia|].
    cbn [orb].
    destruct (Z.ltb_spec 16000 (Z.of_nat (length buf) + Z.of_nat (length kept))); [lia|].
    destruct (Z.ltb_spec (Z.of_nat (length kept)) 0); [lia|].
    rewrite Nat2Z.id, (take_ge kept) by lia.
    destruct (Z.ltb_spec 16000
                (Z.of_nat (length buf) + Z.of_nat (length kept + length lost))).
    + destruct (Z.ltb_spec (16000 - Z.of_nat (length buf)) 0); [lia|].
      replace (Z.to_nat (16000 - Z.of_nat (length buf))) with (length kept) by lia.
      by rewrite take_app_length.
    + destruct (Z.ltb_spec (Z.of_nat (length kept + length lost)) 0); [lia|].
      rewrite Nat2Z.id. rewrite take_ge by (rewrite length_app; lia).
      assert (lost = []) as -> by (destruct lost; [done|simpl in *; lia]).
      by rewrite app_nil_r.
  - by exists ws, rest.
Qed.

Lemma callback_overrun_drops_tail_witness :
  pa_callback_feed (replicate 100 0%Z)
    (Some (replicate (Z.to_nat 15900) 1%Z ++ replicate 300 2%Z))
  = pa_callback_feed (replicate 100 0%Z) (Some (replicate (Z.to_nat 15900) 1%Z)) /\
  exists windows rest,
    pa_callback_feed (replicate 100 0%Z) (Some (replicate (Z.to_nat 15900) 1%Z))
      = Some (windows, rest) /\
    concat windows ++ rest = replicate 100 0%Z ++ replicate (Z.to_nat 15900) 1%Z.
Proof.
  apply (callback_overrun_drops_tail
           (replicate 100 0%Z) (replicate (Z.to_nat 15900) 1%Z) (replicate 300 2%Z)).
  - vm_compute. reflexivity.
  - vm_compute. discriminate.
Defined.

(** ** Locating the models *)

Lemma strrchr_none s c : c ∉ s -> strrchr s c = None.
Proof.
  induction s as [|x s IH]; [done|]. intros Hnot.
  apply not_elem_of_cons in Hnot as [Hx Hs].
  cbn [strrchr]. rewrite (IH Hs). by rewrite bool_decide_eq_false_2.
Qed.

Lemma strrchr_last dir name c :
  c ∉ name -> strrchr (dir ++ c :: name) c = Some (length dir).
Proof.
  intros Hnot. induction dir as [|x dir IH].
  - cbn [app strrchr length]. rewrite (strrchr_none _ _ Hnot).
    by rewrite bool_decide_eq_true_2.
  - cbn [app strrchr length]. by rewrite IH.
Qed.

Lemma argv0_absolute {B} (argv0 : list ascii) (x y : B) :
  argv0 !! 0 = Some "/"%char ->
  match argv0 with "/"%char :: _ => x | _ => y end = x.
Proof. destruct argv0 as [|a argv0]; [done|]. by intros [= ->]. Qed.

Lemma argv0_relative {B} (argv0 : list ascii) (x y : B) :
  argv0 !! 0 <> Some "/"%char ->
  match argv0 with "/"%char :: _ => x | _ => y end = y.
Proof.
  destruct argv0 as [|a argv0]; [done|]. intros Hne.
  destruct a as [[] [] [] [] [] [] [] []]; done.
Qed.

Lemma readlink_failed {B} (proc_self_exe : option (list ascii)) bufsiz (x : list ascii -> B) y :
  proc_self_exe = None \/ proc_self_exe = Some [] ->
  match readlink proc_self_exe bufsiz with
  | Some (c :: target) => x (c :: target)
  | _ => y
  end = y.
Proof. intros [-> | ->]; [done|]. unfold readlink. by rewrite fmap_Some_2 with (x := []), take_nil. Qed.

Lemma snprintf_fits size out : length out < size -> snprintf size out = out.
Proof. intros Hfits. unfold snprintf. apply take_ge. lia. Qed.

(** X17: whichever way the program's path is obtained (the link
    /proc/self/exe, an absolute [argv0], or [argv0] below the working
    directory), when it fits the buffer [g_basedir] ends up holding the
    directory of that path, and [make_path] names the file [rel] inside that
    directory whenever the result fits the destination. *)
Theorem models_located_beside_executable
    (proc_self_exe cwd : option (list ascii)) (argv0 path dir name : list ascii)
    (dst : list ascii) (dstsz : nat) (rel : list ascii) :
  executable_path proc_self_exe cwd argv0 path ->
  path = dir ++ "/"%char :: name ->
  "/"%char ∉ name ->
  length path < g_basedir_size ->
  length dir + 1 + length rel < dstsz ->
  resolve_basedir proc_self_exe cwd argv0 = dir /\
  make_path (resolve_basedir proc_self_exe cwd argv0) dst dstsz rel
    = dir ++ "/"%char :: rel.
Proof.
  intros Hpath Hsplit Hname Hfits Hdst.
  assert (Hcut : match strrchr path "/"%char with
                 | Some slash => take slash path
                 | None => path
                 end = dir).
  { rewrite Hsplit, (strrchr_last _ _ _ Hname). by rewrite take_app_length. }
  assert (Hbase : resolve_basedir proc_self_exe cwd argv0 = dir).
  { unfold resolve_basedir.
    destruct Hpath as [[-> Hne]|[Hlink [[Habs Heq]|(Hrel & d & -> & Hd & Heq)]]].
    - unfold readlink. rewrite fmap_Some_2 with (x := path) by done.
      cbn [fmap option_fmap option_map]. rewrite take_ge by lia.
      destruct path; [done|]. apply Hcut.
    - rewrite (readlink_failed _ _ (fun t => t)) by done.
      rewrite (argv0_absolute _ _ _ Habs), <- Heq, snprintf_fits by done.
      apply Hcut.
    - rewrite (readlink_failed _ _ (fun t => t)) by done.
      rewrite (argv0_relative _ _ _ Hrel).
      unfold getcwd. destruct (Nat.ltb_spec (length d) cwd_size); [|lia].
      rewrite <- Heq, snprintf_fits by done. apply Hcut. }
  split; [done|]. rewrite Hbase. unfold make_path.
  destruct dstsz as [|dstsz]; [lia|].
  apply snprintf_fits. rewrite length_app. cbn [length]. lia.
Qed.

Lemma models_located_beside_executable_witness :
  resolve_basedir (Some (cstr "/opt/stt/dictate")) None (cstr "./dictate")
    = cstr "/opt/stt" /\
  make_path (resolve_basedir (Some (cstr "/opt/stt/dictate")) None (cstr "./dictate"))
      [] 4096 (cstr "models/silero_vad.onnx")
    = cstr "/opt/stt" ++ "/"%char :: cstr "models/silero_vad.onnx".
Proof.
  apply (models_located_beside_executable
           (Some (cstr "/opt/stt/dictate")) None (cstr "./dictate")
           (cstr "/opt/stt/dictate") (cstr "/opt/stt") (cstr "dictate")).
  - left. split; [reflexivity|discriminate].
  - reflexivity.
  - intros Hin. apply list_elem_of_In in Hin. vm_compute in Hin.
    repeat (destruct Hin as [Hin|Hin]; [discriminate|]). exact Hin.
  - vm_compute. lia.
  - vm_compute. lia.
Defined.

(** X18: when neither /proc/self/exe nor the working directory can be read
    and [argv0] holds no slash, nothing is stripped: [g_basedir] is the
    program name itself, so the model paths are looked up below a directory
    of that name. *)
Theorem basedir_of_bare_program_name (argv0 rel dst : list ascii) (dstsz : nat) :
  "/"%char ∉ argv0 ->
  length argv0 < g_basedir_size ->
  length argv0 + 1 + length rel < dstsz ->
  resolve_basedir None None argv0 = argv0 /\
  make_path (resolve_basedir None None argv0) dst dstsz rel
    = argv0 ++ "/"%char :: rel.
Proof.
  intros Hno Hfits Hdst.
  assert (Hbase : resolve_basedir None None argv0 = argv0).
  { unfold resolve_basedir.
    rewrite (readlink_failed _ _ (fun t => t)) by (by left).
    rewrite argv0_relative.
    - cbn [getcwd]. rewrite snprintf_fits by done. by rewrite strrchr_none.
    - intros H0. apply Hno. by eapply list_elem_of_lookup_2. }
  split; [done|]. rewrite Hbase. unfold make_path.
  destruct dstsz as [|dstsz]; [lia|].
  apply snprintf_fits. rewrite length_app. cbn [length]. lia.
Qed.

Lemma basedir_of_bare_program_name_witness :
  resolve_basedir None None (cstr "dictate") = cstr "dictate" /\
  make_path (resolve_basedir None None (cstr "dictate")) [] 4096
      (cstr "models/silero_vad.onnx")
    = cstr "dictate" ++ "/"%char :: cstr "models/silero_vad.onnx".
Proof.
  apply (basedir_of_bare_program_name (cstr "dictate")).
  - intros Hin. apply list_elem_of_In in Hin. vm_compute in Hin.
    repeat (destruct Hin as [Hin|Hin]; [discriminate|]). exact Hin.
  - vm_compute. lia.
  - vm_compute. lia.
Defined.

(** ** Edge cases of the layout value *)

Lemma strip_line_end_all c rest k :
  k <= length rest ->
  (forall x, x ∈ rest -> is_line_end x = true) ->
  strip_line_end (c :: rest) (S k) = 1.
Proof.
  intros Hk Hall. induction k as [|k IH]; [done|].
  destruct (lookup_lt_is_Some_2 rest k) as [x Hx]; [lia|].
  rewrite (strip_line_end_step _ (S k) x); [|lia|done].
  rewrite (Hall x) by (by eapply list_elem_of_lookup_2).
  apply IH. lia.
Qed.

Lemma strip_line_end_pos val k : 0 < k -> 0 < strip_line_end val k.
Proof.
  induction k as [|k IH]; [lia|]. intros _.
  destruct k as [|k]; [simpl; lia|].
  cbn [strip_line_end]. destruct (val !! S k) as [c|]; [|lia].
  destruct (is_line_end c); [apply IH|]; lia.
Qed.

(** X19: the stripping loop of [detect_layout] stops at the first byte of
    the value, whatever that byte is: a value is never stripped to the empty
    string, and a value made only of quotes, newlines and carriage returns
    is returned as its first byte (an empty quoted value as a lone quote,
    an empty unquoted value as a newline). *)
Theorem layout_value_keeps_first_byte (opening : list ascii) (c : ascii)
    (rest : list ascii) :
  (opening = [] /\ c <> double_quote) \/ opening = [double_quote] ->
  layout_of_line (cstr "XKBLAYOUT=" ++ opening ++ c :: rest) !! 0 = Some c /\
  ((forall x, x ∈ rest -> is_line_end x = true) ->
   layout_of_line (cstr "XKBLAYOUT=" ++ opening ++ c :: rest) = [c]).
Proof.
  intros Hopen.
  assert (Hval : layout_of_line (cstr "XKBLAYOUT=" ++ opening ++ c :: rest)
                 = take 63 (take (strip_line_end (c :: rest) (S (length rest)))
                                 (c :: rest))).
  { unfold layout_of_line.
    destruct Hopen as [[-> Hc]| ->].
    - change (drop 10 (cstr "XKBLAYOUT=" ++ [] ++ c :: rest)) with (c :: rest).
      cbv iota beta. destruct (decide (c = double_quote)) as [Heq|_]; [by destruct Hc|].
      reflexivity.
    - change (drop 10 (cstr "XKBLAYOUT=" ++ [double_quote] ++ c :: rest))
        with (double_quote :: c :: rest).
      cbv iota beta. destruct (decide (double_quote = double_quote)) as [_|Hne];
        [reflexivity|by destruct Hne]. }
  rewrite Hval. split.
  - pose proof (strip_line_end_pos (c :: rest) (S (length rest))) as Hpos.
    destruct (strip_line_end (c :: rest) (S (length rest))) as [|k]; [lia|].
    done.
  - intros Hall. by rewrite (strip_line_end_all c rest (length rest)).
Qed.

Lemma layout_value_keeps_first_byte_witness :
  layout_of_line (cstr "XKBLAYOUT=" ++ [double_quote] ++ double_quote :: [newline]) !! 0
    = Some double_quote /\
  ((forall x, x ∈ [newline] -> is_line_end x = true) ->
   layout_of_line (cstr "XKBLAYOUT=" ++ [double_quote] ++ double_quote :: [newline])
     = [double_quote]).
Proof.
  apply (layout_value_keeps_first_byte [double_quote] double_quote [newline]).
  right. reflexivity.
Defined.

(** ** Only enabled keys are emitted *)

Section TyperEnabled.

Context (xkb_utf32_to_keysym : N -> N) (s_keymap : xkb_keymap).

Lemma lookup_char_keycode_range cp :
  let kl := lookup_char xkb_utf32_to_keysym s_keymap cp in
  evdev_keycode kl = (-1)%Z \/
  exists kc, xkb_keymap_min_keycode s_keymap <= kc <= xkb_keymap_max_keycode s_keymap /\
             evdev_keycode kl = (Z.of_nat kc - EVDEV_OFFSET)%Z.
Proof.
  cbv zeta. rewrite lookup_char_resolution.
  destruct (xkb_utf32_to_keysym cp =? XKB_KEY_NoSymbol)%N; [by left|].
  destruct (matches s_keymap (xkb_utf32_to_keysym cp)) as [|t0 ts] eqn:Hm.
  - left. unfold resolution. by rewrite Hm.
  - destruct (resolution_from_match s_keymap (xkb_utf32_to_keysym cp))
      as (t & Hin & ->); [by rewrite Hm|].
    right. exists t.1.1. split; [|done].
    apply matches_in in Hin as [Hin _]. unfold scan_order in Hin.
    apply list_elem_of_bind in Hin as (kc & Hin & Hkc).
    apply list_elem_of_bind in Hin as (layout & Hin & _).
    apply list_elem_of_bind in Hin as (level & Hin & _).
    apply list_elem_of_singleton in Hin as ->. cbn [fst].
    apply elem_of_seq in Hkc. lia.
Qed.

Lemma modifier_keys_enabled mask k :
  k ∈ modifier_keys s_keymap mask -> (0 <= k < 256)%Z.
Proof.
  intros Hin.
  pose proof (elem_of_sublist _ _ _ Hin (modifier_keys_order s_keymap mask)) as Hk.
  repeat (apply elem_of_cons in Hk as [->|Hk]; [by vm_compute|]).
  by apply elem_of_nil in Hk.
Qed.

Lemma press_release_enabled k :
  (0 <= k < 256)%Z ->
  Forall (fun e => enabled_event e = true) (press k) /\
  Forall (fun e => enabled_event e = true) (release k).
Proof.
  intros Hk.
  assert (He : forall v, (v = 0 \/ v = 1)%Z ->
                         enabled_event (InputEvent EV_KEY k v) = true).
  { intros v Hv. unfold enabled_event. cbn [ev_type ev_code ev_value].
    change (EV_KEY =? EV_SYN)%Z with false. change (EV_KEY =? EV_KEY)%Z with true.
    destruct (Z.leb_spec 0 k); [|lia]. destruct (Z.ltb_spec k 256); [|lia].
    by destruct Hv as [-> | ->]. }
  unfold press, release. rewrite Z.mod_small by lia.
  split; (constructor; [apply He; lia|]); by repeat constructor.
Qed.

Lemma type_codepoint_enabled cp :
  xkb_keymap_max_keycode s_keymap <= 263 ->
  Forall (fun e => enabled_event e = true)
    (type_codepoint xkb_utf32_to_keysym s_keymap cp).
Proof.
  intros Hmax.
  destruct ((cp =? 10) || (cp =? 13) || (cp =? 9))%N eqn:Hctl.
  - unfold type_codepoint.
    destruct ((cp =? 10) || (cp =? 13))%N; [by repeat constructor|].
    simpl in Hctl. rewrite Hctl. by repeat constructor.
  - destruct (Z.ltb_spec
                (evdev_keycode (lookup_char xkb_utf32_to_keysym s_keymap cp)) 0)
      as [Hneg|Hpos].
    + unfold type_codepoint. apply orb_false_iff in Hctl as [-> ->].
      apply Z.ltb_lt in Hneg. by rewrite Hneg.
    + rewrite (type_codepoint_resolved _ _ cp Hctl Hpos). cbv zeta.
      destruct (lookup_char_keycode_range cp) as [Hnone|(kc & Hkc & Hcode)];
        cbv zeta in *; [lia|].
      set (kl := lookup_char xkb_utf32_to_keysym s_keymap cp) in *.
      assert (Hk : (0 <= evdev_keycode kl < 256)%Z)
        by (unfold EVDEV_OFFSET in Hcode; lia).
      destruct (press_release_enabled _ Hk) as [Hp Hr].
      repeat apply Forall_app_2; try done.
      * apply Forall_bind, Forall_forall. intros k Hin.
        apply press_release_enabled. by eapply modifier_keys_enabled.
      * apply Forall_bind, Forall_forall. intros k Hin.
        apply press_release_enabled.
        apply list_elem_of_In, in_rev, list_elem_of_In in Hin.
        by eapply modifier_keys_enabled.
Qed.

Lemma typer_type_loop_enabled text evs :
  xkb_keymap_max_keycode s_keymap <= 263 ->
  typer_type_loop xkb_utf32_to_keysym s_keymap text = Some evs ->
  Forall (fun e => enabled_event e = true) evs.
Proof.
  intros Hmax.
  revert evs. induction text as [text IH] using (induction_ltof1 _ (@length _)).
  unfold ltof in IH. intros evs.
  assert (Hstep : forall cp rest,
    length rest < length text ->
    (type_codepoint xkb_utf32_to_keysym s_keymap cp ++.)
      <$> typer_type_loop xkb_utf32_to_keysym s_keymap rest = Some evs ->
    Forall (fun e => enabled_event e = true) evs).
  { intros cp rest Hlt H.
    destruct (typer_type_loop xkb_utf32_to_keysym s_keymap rest) as [evs'|] eqn:Hr;
      [|done].
    simpl in H. injection H as <-.
    apply Forall_app_2; [by apply type_codepoint_enabled|by apply (IH rest)]. }
  destruct text as [|b0 p1]; cbn [typer_type_loop].
  { intros [= <-]. constructor. }
  destruct (byte b0 <? 128)%N; [apply Hstep; simpl; lia|].
  destruct (N.land (byte b0) 224 =? 192)%N.
  { destruct p1 as [|b1 p2]; [done|]. apply Hstep. simpl. lia. }
  destruct (N.land (byte b0) 240 =? 224)%N.
  { destruct p1 as [|b1 [|b2 p3]]; [done|done|]. apply Hstep. simpl. lia. }
  destruct (N.land (byte b0) 248 =? 240)%N.
  { destruct p1 as [|b1 [|b2 [|b3 p4]]]; [done|done|done|]. apply Hstep. simpl. lia. }
  apply IH. simpl. lia.
Qed.

(** X20: with a keymap whose key codes do not exceed 263, every event
    [typer_type] writes is one the device created by [typer_init] carries: a
    report, or a press or release of a key code below 256; the same holds for
    [typer_press] when the command key is below 256. *)
Theorem only_enabled_keys_emitted s_fd text evs evdev_keycode with_ctrl :
  xkb_keymap_max_keycode s_keymap <= 263 ->
  (0 <= evdev_keycode < 256)%Z ->
  typer_type xkb_utf32_to_keysym s_keymap s_fd text = Some evs ->
  Forall (fun e => enabled_event e = true) evs /\
  Forall (fun e => enabled_event e = true) (typer_press s_fd evdev_keycode with_ctrl).
Proof.
  intros Hmax Hkey Htype. split.
  - unfold typer_type in Htype. destruct text as [text|].
    + destruct (s_fd <? 0)%Z.
      * injection Htype as <-. constructor.
      * by eapply typer_type_loop_enabled.
    + injection Htype as <-. constructor.
  - unfold typer_press. destruct (s_fd <? 0)%Z; [constructor|].
    destruct (press_release_enabled _ Hkey) as [Hp Hr].
    assert (Hctrl : (0 <= KEY_LEFTCTRL < 256)%Z) by (by vm_compute).
    destruct (press_release_enabled _ Hctrl) as [Hpc Hrc].
    assert (Htap : Forall (fun e => enabled_event e = true) (key_tap evdev_keycode))
      by (by apply (Forall_app_2 _ (press evdev_keycode) (release evdev_keycode))).
    destruct (with_ctrl =? 0)%Z.
    + cbn [app]. by rewrite app_nil_r.
    + change (emit EV_KEY KEY_LEFTCTRL 1 ++ emit EV_SYN SYN_REPORT 0)
        with (press KEY_LEFTCTRL).
      change (emit EV_KEY KEY_LEFTCTRL 0 ++ emit EV_SYN SYN_REPORT 0)
        with (release KEY_LEFTCTRL).
      apply Forall_app_2; [done|]. by apply Forall_app_2.
Qed.

End TyperEnabled.

Lemma only_enabled_keys_emitted_witness :
  exists evs,
    typer_type demo_utf32_to_keysym demo_keymap 3 (Some (cstr "aA")) = Some evs /\
    Forall (fun e => enabled_event e = true) evs /\
    Forall (fun e => enabled_event e = true) (typer_press 3 KEY_C 1).
Proof.
  eexists. split; [reflexivity|].
  apply (only_enabled_keys_emitted demo_utf32_to_keysym demo_keymap
           3 (Some (cstr "aA")) _ KEY_C 1).
  - vm_compute. lia.
  - unfold KEY_C. lia.
  - reflexivity.
Defined.

(** ** The two workers *)

Lemma worker_spec_typed_prefix r_text body :
  TyperType (body ++ [" "%char]) ∈ worker_spec r_text ->
  body `prefix_of` drop_while isspace r_text.
Proof.
  unfold worker_spec.
  set (d := drop_while isspace r_text).
  set (t := drop_end_while is_sentence_end d).
  set (found := match_trailing_command t (length t)).
  set (rest := match found with
               | Some (_, start) => drop_end_while is_blank (take start t)
               | None => t
               end).
  cbv zeta. intros Hin.
  assert (Hrest : body = rest).
  { apply elem_of_app in Hin as [Hin|Hin].
    - destruct rest as [|x rest']; [by apply elem_of_nil in Hin|].
      apply list_elem_of_singleton in Hin. injection Hin as Hin.
      change (body ++ [" "%char] = (x :: rest') ++ [" "%char]) in Hin.
      by apply app_inv_tail in Hin.
    - destruct found as [[cmd start]|].
      + apply list_elem_of_singleton in Hin. discriminate Hin.
      + by apply elem_of_nil in Hin. }
  rewrite Hrest.
  destruct (drop_end_while_prefix is_sentence_end d) as [m1 Hm1].
  fold t in Hm1. subst rest. destruct found as [[cmd start]|].
  - destruct (drop_end_while_prefix is_blank (take start t)) as [m2 Hm2].
    exists (m2 ++ drop start t ++ m1).
    rewrite Hm1 at 1. rewrite <- (take_drop start t) at 1.
    rewrite Hm2 at 1. by rewrite <- !app_assoc.
  - by exists m1.
Qed.

Lemma drop_while_split {A} (p : A -> bool) l :
  exists skipped, l = skipped ++ drop_while p l /\
                  forall x, x ∈ skipped -> p x = true.
Proof.
  induction l as [|x l IH]; simpl.
  - exists []. split; [done|]. by intros x H%elem_of_nil.
  - destruct (p x) eqn:Hx.
    + destruct IH as (skipped & Heq & Hall). exists (x :: skipped). split.
      * cbn [app]. by rewrite <- Heq.
      * intros y [->|Hy]%elem_of_cons; [done|by apply Hall].
    + exists []. split; [done|]. by intros y H%elem_of_nil.
Qed.

(** X21: on a result its filter accepts, the X11 build types the transcript
    from its first non-whitespace byte to its end, followed by one space: only
    leading whitespace is left out, nothing is trimmed at the end and no
    command is recognised.  Whatever the uinput build types for the same
    result is a prefix of it. *)
Theorem x11_types_whole_transcript r_text :
  X11.is_garbage (Some r_text) = false ->
  exists skipped typed c0,
    r_text = skipped ++ typed /\
    (forall c, c ∈ skipped -> c ∈ whitespace) /\
    typed !! 0 = Some c0 /\ (c0 ∉ whitespace) /\
    x11_transcription_worker_result (Some (Some r_text)) = Some (typed ++ [" "%char]) /\
    forall body,
      TyperType (body ++ [" "%char]) ∈ transcription_worker_result (Some (Some r_text)) ->
      body `prefix_of` typed.
Proof.
  intros Hok.
  assert (Hne : drop_while isspace r_text <> []).
  { intros Hnil. apply not_true_iff_false in Hok. apply Hok.
    unfold X11.is_garbage. apply is_garbage_with_spec. left.
    unfold trimmed. by rewrite Hnil. }
  destruct (drop_while_split isspace r_text) as (skipped & Hsplit & Hskipped).
  destruct (drop_while isspace r_text) as [|c0 typed] eqn:Hd; [done|].
  exists skipped, (c0 :: typed), c0.
  unfold x11_transcription_worker_result. rewrite Hok, skip_leading_space_drop, Hd.
  split; [done|]. split; [|split; [done|split; [|split; [done|]]]].
  - intros c Hc. apply Hskipped in Hc. rewrite isspace_whitespace in Hc.
    by apply bool_decide_eq_true in Hc.
  - intros Hc0.
    assert (Hsp : isspace c0 = true)
      by (rewrite isspace_whitespace; by apply bool_decide_eq_true).
    pose proof (drop_while_head isspace r_text c0) as Hhead.
    rewrite Hd in Hhead. by rewrite Hhead in Hsp.
  - intros body. rewrite transcription_worker_result_spec.
    destruct (Uinput.is_garbage (Some r_text)); [by intros H%elem_of_nil|].
    intros Hin. rewrite <- Hd. by apply worker_spec_typed_prefix.
Qed.

Lemma x11_types_whole_transcript_witness :
  exists skipped typed c0,
    cstr " hello world. press enter." = skipped ++ typed /\
    (forall c, c ∈ skipped -> c ∈ whitespace) /\
    typed !! 0 = Some c0 /\ (c0 ∉ whitespace) /\
    x11_transcription_worker_result (Some (Some (cstr " hello world. press enter.")))
      = Some (typed ++ [" "%char]) /\
    forall body,
      TyperType (body ++ [" "%char])
        ∈ transcription_worker_result (Some (Some (cstr " hello world. press enter."))) ->
      body `prefix_of` typed.
Proof.
  apply (x11_types_whole_transcript (cstr " hello world. press enter.")).
  reflexivity.
Defined.

(** ** The worker keeps the text well formed *)

Lemma ascii_classes c :
  (isspace c = true -> (byte c < 128)%N) /\
  (is_sentence_end c = true -> (byte c < 128)%N) /\
  (isalnum c = true -> (byte c < 128)%N).
Proof.
  destruct c as [[] [] [] [] [] [] [] []]; vm_compute; repeat split; done.
Qed.

Lemma isspace_ascii c : isspace c = true -> (byte c < 128)%N.
Proof. apply ascii_classes. Qed.

Lemma is_sentence_end_ascii c : is_sentence_end c = true -> (byte c < 128)%N.
Proof. apply ascii_classes. Qed.

Lemma isalnum_ascii c : isalnum c = true -> (byte c < 128)%N.
Proof. apply ascii_classes. Qed.

Lemma is_blank_ascii c : is_blank c = true -> (byte c < 128)%N.
Proof. unfold is_blank. by intros ->%bool_decide_eq_true. Qed.

Lemma utf8_encode_shape cp :
  (cp < 2097152)%N ->
  exists lead conts,
    utf8_encode cp = lead :: conts /\
    (forall b, b ∈ conts -> (128 <= byte b < 192)%N) /\
    ((byte lead < 128)%N -> conts = []) /\
    ~ (128 <= byte lead < 192)%N.
Proof.
  intros Hcp. unfold utf8_encode.
  destruct (N.ltb_spec cp 128) as [H1|H1].
  { eexists _, []. split; [done|]. rewrite byte_ascii_of_N by lia.
    split; [by intros b0 Hb%elem_of_nil|]. split; [done|lia]. }
  replace (cp / 4096)%N with (cp / 64 / 64)%N by (by rewrite N.Div0.div_div).
  replace (cp / 262144)%N with (cp / 64 / 64 / 64)%N
    by (by rewrite !N.Div0.div_div).
  destruct (split64 cp) as (q1 & r1 & Hs1 & Hr1 & Hq1 & Hm1).
  rewrite !Hq1, !Hm1.
  destruct (split64 q1) as (q2 & r2 & Hs2 & Hr2 & Hq2 & Hm2).
  rewrite ?Hq2, ?Hm2.
  destruct (split64 q2) as (q3 & r3 & Hs3 & Hr3 & Hq3 & Hm3).
  rewrite ?Hq3, ?Hm3.
  destruct (N.ltb_spec cp 2048) as [H2|H2]; [|destruct (N.ltb_spec cp 65536) as [H3|H3]].
  all: eexists _, _; split; [done|].
  all: rewrite byte_ascii_of_N by lia.
  all: split; [|split; lia].
  all: intros b0 Hb.
  all: repeat (apply elem_of_cons in Hb as [->|Hb];
               [rewrite byte_ascii_of_N by lia; lia|]).
  all: by apply elem_of_nil in Hb.
Qed.

Lemma encoded_cons cp cps : encoded (cp :: cps) = utf8_encode cp ++ encoded cps.
Proof. done. Qed.

Lemma encoded_app cps1 cps2 : encoded (cps1 ++ cps2) = encoded cps1 ++ encoded cps2.
Proof. unfold encoded. apply bind_app. Qed.

(** A cut of a well-formed text in front of a byte that is not a
    continuation byte is well formed. *)
Lemma encoded_cut cps body b m :
  (forall cp, cp ∈ cps -> (0 < cp < 2097152)%N) ->
  encoded cps = body ++ b :: m ->
  ~ (128 <= byte b < 192)%N ->
  exists cps1, (forall cp, cp ∈ cps1 -> cp ∈ cps) /\ body = encoded cps1.
Proof.
  intros Hall. revert body. induction cps as [|cp cps IH]; intros body Heq Hb.
  { by destruct body. }
  destruct body as [|x body].
  { exists []. split; [by intros cp' H%elem_of_nil|done]. }
  destruct (utf8_encode_shape cp) as (lead & conts & Henc & Hconts & _ & _).
  { apply Hall. by left. }
  rewrite encoded_cons, Henc in Heq. injection Heq as <- Heq.
  apply app_eq_inv in Heq as [(k & Hk1 & Hk2)|(k & Hk1 & Hk2)].
  - destruct k as [|b' k].
    + exists [cp]. split.
      * intros cp' ->%list_elem_of_singleton. by left.
      * rewrite encoded_cons, Henc, Hk1. cbn. by rewrite !app_nil_r.
    + injection Hk2 as <- _. destruct Hb. apply Hconts. rewrite Hk1.
      apply elem_of_app. right. by left.
  - destruct (IH (fun cp' H => Hall cp' (proj2 (elem_of_cons _ _ _) (or_intror H)))
                 k Hk2 Hb) as (cps1 & Hsub & ->).
    exists (cp :: cps1). split.
    + intros cp' [->|H]%elem_of_cons; [by left|right; by apply Hsub].
    + by rewrite encoded_cons, Henc, Hk1.
Qed.

Lemma drop_while_isspace_encoded cps :
  (forall cp, cp ∈ cps -> (0 < cp < 2097152)%N) ->
  exists cps', (forall cp, cp ∈ cps' -> cp ∈ cps) /\
               drop_while isspace (encoded cps) = encoded cps'.
Proof.
  intros Hall. induction cps as [|cp cps IH].
  { by exists []. }
  destruct (utf8_encode_shape cp) as (lead & conts & Henc & _ & Hone & _).
  { apply Hall. by left. }
  rewrite encoded_cons, Henc. cbn [app drop_while].
  destruct (isspace lead) eqn:Hsp.
  - rewrite Hone by (by apply isspace_ascii). cbn [app].
    destruct IH as (cps' & Hsub & ->).
    { intros cp' H. apply Hall. by right. }
    exists cps'. split; [|done]. intros cp' H. right. by apply Hsub.
  - exists (cp :: cps). split; [done|]. by rewrite encoded_cons, Henc.
Qed.

Lemma drop_end_while_split {A} (p : A -> bool) l :
  exists m, l = drop_end_while p l ++ m /\ forall x, x ∈ m -> p x = true.
Proof.
  induction l as [|x l IH] using rev_ind.
  - exists []. split; [done|]. by intros x H%elem_of_nil.
  - destruct (p x) eqn:Hx.
    + rewrite drop_while_snoc_true by done. destruct IH as (m & Hm & Hall).
      exists (m ++ [x]). split.
      * rewrite Hm at 1. by rewrite <- app_assoc.
      * intros y [H|H]%elem_of_app; [by apply Hall|].
        by apply list_elem_of_singleton in H as ->.
    + rewrite drop_end_while_snoc_keep by done.
      exists []. split; [by rewrite app_nil_r|]. by intros y H%elem_of_nil.
Qed.

(** What the worker types is cut out of the transcript in front of an ASCII
    byte, or at its end. *)
Lemma worker_spec_typed_cut r_text text :
  TyperType text ∈ worker_spec r_text ->
  exists body m,
    text = body ++ [" "%char] /\
    drop_while isspace r_text = body ++ m /\
    forall b, m !! 0 = Some b -> (byte b < 128)%N.
Proof.
  unfold worker_spec.
  set (d := drop_while isspace r_text).
  set (t := drop_end_while is_sentence_end d).
  pose proof (match_in_table_spec g_commands t (length t)) as Hspec.
  fold (match_trailing_command t (length t)) in Hspec.
  set (found := match_trailing_command t (length t)) in *.
  set (rest := match found with
               | Some (_, start) => drop_end_while is_blank (take start t)
               | None => t
               end).
  cbv zeta. intros Hin.
  assert (Hrest : text = rest ++ [" "%char]).
  { apply elem_of_app in Hin as [Hin|Hin].
    - destruct rest as [|x rest']; [by apply elem_of_nil in Hin|].
      apply list_elem_of_singleton in Hin. by injection Hin as ->.
    - destruct found as [[cmd start]|].
      + apply list_elem_of_singleton in Hin. discriminate Hin.
      + by apply elem_of_nil in Hin. }
  exists rest. rewrite Hrest.
  destruct (drop_end_while_split is_sentence_end d) as (m1 & Hm1 & Hall1).
  fold t in Hm1.
  assert (Hhead1 : forall b, m1 !! 0 = Some b -> (byte b < 128)%N).
  { intros b Hb. apply is_sentence_end_ascii, Hall1. by eapply list_elem_of_lookup_2. }
  subst rest. destruct found as [[cmd start]|].
  - destruct Hspec as (Hcmd & Hmatch & Hstart).
    apply command_matches_spec in Hmatch; [|done]. rewrite <- Hstart in Hmatch.
    destruct Hmatch as (_ & Hlow & _).
    rewrite (table_lowercase cmd Hcmd) in Hlow.
    destruct (phrase_casing cmd _ Hcmd Hlow) as (c0 & mid & cl & Hdrop & Hc0 & _).
    destruct (drop_end_while_split is_blank (take start t)) as (m2 & Hm2 & Hall2).
    exists (m2 ++ drop start t ++ m1). repeat split.
    + rewrite Hm1 at 1. rewrite <- (take_drop start t) at 1.
      rewrite Hm2 at 1. by rewrite <- !app_assoc.
    + intros b Hb. destruct m2 as [|b2 m2].
      * rewrite Hdrop in Hb. injection Hb as <-. by apply isalnum_ascii.
      * injection Hb as <-. apply is_blank_ascii, Hall2. by left.
  - by exists m1.
Qed.

Section WorkerText.

Context (xkb_utf32_to_keysym : N -> N) (s_keymap : xkb_keymap).

Lemma typer_type_loop_encoded_all cps :
  (forall cp, cp ∈ cps -> (0 < cp < 2097152)%N) ->
  typer_type_loop xkb_utf32_to_keysym s_keymap (encoded cps) =
  Some (cp ← cps; type_codepoint xkb_utf32_to_keysym s_keymap cp).
Proof.
  induction cps as [|cp cps IH]; intros Hall; [done|].
  rewrite encoded_cons, bind_cons, typer_type_loop_encoded by (apply Hall; by left).
  rewrite IH; [done|]. intros cp' Hin. apply Hall. by right.
Qed.

(** X22: when the recognizer returns well-formed UTF-8 (the encoding of
    non-zero code points below 2^21), the text the worker hands to
    [typer_type] is well formed too: it is the encoding of some of these code
    points followed by a space, no multi-byte sequence is cut by the trimming
    or by the removal of a command phrase, and [typer_type] types exactly
    these code points. *)
Theorem worker_text_well_formed (cps : list N) (text : list ascii) :
  (forall cp, cp ∈ cps -> (0 < cp < 2097152)%N) ->
  TyperType text ∈ transcription_worker_result (Some (Some (encoded cps))) ->
  exists typed,
    (forall cp, cp ∈ typed -> cp ∈ cps) /\
    text = encoded (typed ++ [32%N]) /\
    typer_type_loop xkb_utf32_to_keysym s_keymap text =
      Some (cp ← typed ++ [32%N]; type_codepoint xkb_utf32_to_keysym s_keymap cp).
Proof.
  intros Hall. rewrite transcription_worker_result_spec.
  destruct (Uinput.is_garbage (Some (encoded cps))); [by intros H%elem_of_nil|].
  intros (body & m & -> & Hd & Hm)%worker_spec_typed_cut.
  destruct (drop_while_isspace_encoded cps Hall) as (cps' & Hsub' & Hcps').
  rewrite Hcps' in Hd.
  assert (Hbody : exists typed, (forall cp, cp ∈ typed -> cp ∈ cps') /\
                                body = encoded typed).
  { destruct m as [|b m].
    - exists cps'. split; [done|]. by rewrite app_nil_r in Hd.
    - apply (encoded_cut cps' body b m); [|done|].
      + intros cp H. by apply Hall, Hsub'.
      + specialize (Hm b eq_refl). lia. }
  destruct Hbody as (typed & Hsub & ->).
  exists typed. split; [|split].
  - intros cp H. by apply Hsub', Hsub.
  - by rewrite encoded_app.
  - change [" "%char] with (encoded [32%N]). rewrite <- encoded_app.
    apply typer_type_loop_encoded_all.
    intros cp [H|H]%elem_of_app.
    + by apply Hall, Hsub', Hsub.
    + apply list_elem_of_singleton in H as ->. lia.
Qed.

End WorkerText.

(** The transcript " hé, press enter." types "hé, " (and then presses Enter). *)
Lemma worker_text_well_formed_witness :
  exists typed,
    (forall cp, cp ∈ typed -> cp ∈ [32; 104; 233; 44; 32; 112; 114; 101; 115; 115;
                                    32; 101; 110; 116; 101; 114; 46]%N) /\
    encoded [104; 233; 44; 32]%N = encoded (typed ++ [32%N]) /\
    typer_type_loop demo_utf32_to_keysym demo_keymap (encoded [104; 233; 44; 32]%N) =
      Some (cp ← typed ++ [32%N]; type_codepoint demo_utf32_to_keysym demo_keymap cp).
Proof.
  apply (worker_text_well_formed demo_utf32_to_keysym demo_keymap
           [32; 104; 233; 44; 32; 112; 114; 101; 115; 115;
            32; 101; 110; 116; 101; 114; 46]%N
           (encoded [104; 233; 44; 32]%N)).
  - intros cp Hin.
    repeat (apply elem_of_cons in Hin as [->|Hin]; [done|]).
    by apply elem_of_nil in Hin.
  - apply list_elem_of_In. vm_compute. left. reflexivity.
Defined.

(** ** Malformed text *)

Lemma byte_classes b :
  ((N.land (byte b) 224 =? 192) = (192 <=? byte b) && (byte b <? 224) /\
   (N.land (byte b) 240 =? 224) = (224 <=? byte b) && (byte b <? 240) /\
   (N.land (byte b) 248 =? 240) = (240 <=? byte b) && (byte b <? 248))%N.
Proof. destruct b as [[] [] [] [] [] [] [] []]; vm_compute; done. Qed.

Ltac byte_class_tests b :=
  destruct (byte_classes b) as (-> & -> & ->);
  repeat match goal with
         | |- context [(?x <? ?y)%N] => destruct (N.ltb_spec x y); try lia
         | |- context [(?x <=? ?y)%N] => destruct (N.leb_spec x y); try lia
         end;
  cbn [andb].

Section TyperMalformed.

Context (xkb_utf32_to_keysym : N -> N) (s_keymap : xkb_keymap).

Lemma typer_type_loop_after cps rest :
  (forall cp, cp ∈ cps -> (0 < cp < 2097152)%N) ->
  typer_type_loop xkb_utf32_to_keysym s_keymap (encoded cps ++ rest) =
  ((cp ← cps; type_codepoint xkb_utf32_to_keysym s_keymap cp) ++.)
    <$> typer_type_loop xkb_utf32_to_keysym s_keymap rest.
Proof.
  induction cps as [|cp cps IH]; intros Hall.
  { cbn. by destruct (typer_type_loop _ _ rest). }
  rewrite encoded_cons, bind_cons, <- app_assoc.
  rewrite typer_type_loop_encoded by (apply Hall; by left).
  rewrite IH by (intros cp' Hin; apply Hall; by right).
  destruct (typer_type_loop _ _ rest); [|done]. cbn. by rewrite app_assoc.
Qed.

(** X23: a stray continuation byte (0x80..0xBF) or a byte 0xF8..0xFF
    between well-formed characters is skipped: [typer_type] types the text as
    if the byte were not there. *)
Theorem stray_byte_skipped (cps1 cps2 : list N) (b : ascii) :
  (forall cp, cp ∈ cps1 ++ cps2 -> (0 < cp < 2097152)%N) ->
  (128 <= byte b < 192)%N \/ (248 <= byte b)%N ->
  typer_type_loop xkb_utf32_to_keysym s_keymap (encoded cps1 ++ b :: encoded cps2)
  = typer_type_loop xkb_utf32_to_keysym s_keymap (encoded (cps1 ++ cps2)).
Proof.
  intros Hall Hb.
  rewrite encoded_app, !typer_type_loop_after
    by (intros cp Hin; apply Hall, elem_of_app; by left).
  f_equal. cbn [typer_type_loop]. by byte_class_tests b.
Qed.

(** X24: a text that ends inside a multi-byte sequence, so that the lead
    byte announces more bytes than follow, makes the decoding loop of
    [typer_type] step over the terminating NUL: its behaviour is undefined.
    A two-byte lead needs one more byte, a three-byte lead two, a four-byte
    lead three. *)
Theorem truncated_sequence_overruns (cps : list N) (lead : ascii) (rest : list ascii) :
  (forall cp, cp ∈ cps -> (0 < cp < 2097152)%N) ->
  ((192 <= byte lead < 224)%N /\ length rest < 1) \/
  ((224 <= byte lead < 240)%N /\ length rest < 2) \/
  ((240 <= byte lead < 248)%N /\ length rest < 3) ->
  typer_type_loop xkb_utf32_to_keysym s_keymap (encoded cps ++ lead :: rest) = None.
Proof.
  intros Hall Hlead. rewrite typer_type_loop_after by done.
  assert (typer_type_loop xkb_utf32_to_keysym s_keymap (lead :: rest) = None) as ->;
    [|done].
  cbn [typer_type_loop].
  destruct Hlead as [[Hb Hl]|[[Hb Hl]|[Hb Hl]]]; byte_class_tests lead.
  - by destruct rest; [|simpl in Hl; lia].
  - by destruct rest as [|b1 [|b2 rest]]; [| |simpl in Hl; lia].
  - by destruct rest as [|b1 [|b2 [|b3 rest]]]; [| | |simpl in Hl; lia].
Qed.

End TyperMalformed.

(** A lone continuation byte between "a" and "A". *)
Lemma stray_byte_skipped_witness :
  typer_type_loop demo_utf32_to_keysym demo_keymap
    (encoded [97%N] ++ "169"%char :: encoded [65%N])
  = typer_type_loop demo_utf32_to_keysym demo_keymap (encoded ([97%N] ++ [65%N])).
Proof.
  apply (stray_byte_skipped demo_utf32_to_keysym demo_keymap [97%N] [65%N] "169"%char).
  - intros cp Hin.
    repeat (apply elem_of_cons in Hin as [->|Hin]; [done|]).
    by apply elem_of_nil in Hin.
  - left. vm_compute. split; [discriminate|reflexivity].
Defined.

(** The first two bytes of the euro sign (E2 82 AC) after "a". *)
Lemma truncated_sequence_overruns_witness :
  typer_type_loop demo_utf32_to_keysym demo_keymap
    (encoded [97%N] ++ "226"%char :: ["130"%char]) = None.
Proof.
  apply (truncated_sequence_overruns demo_utf32_to_keysym demo_keymap
           [97%N] "226"%char ["130"%char]).
  - intros cp Hin.
    repeat (apply elem_of_cons in Hin as [->|Hin]; [done|]).
    by apply elem_of_nil in Hin.
  - right. left. split; [vm_compute; split; [discriminate|reflexivity]|simpl; lia].
Defined.
